(* ===== verification/_CoqProject ===== *)
-Q . S2P
Prelude.v
Uint.v
StaticMem.v
Fmt.v
Effects.v
CStr.v
Spec.v
Failure.v
Boundary.v
Simulation.v
Threads.v
Items.v
Link.v
Program.v
Scenarios.v
