(* ===== verification/Prelude.v ===== *)
(** * Failure support of libcore: a verification development

    This library verifies [src/src/libcore/failure.rs], the module through
    which the allocation-free core library declares failure. The module
    has five functions: the lang items [fail_] and [fail_bounds_check],
    each in a form for the current stage and in a form for stage0, and
    [begin_unwind], the one function every failure is funnelled through,
    which forwards to a symbol that an upstream crate defines.

    ** The program and its model

    A lang item builds a [fmt::Arguments] value with [format_args!], hands
    it with the file and line to [begin_unwind] inside the macro's closure,
    and ends in [intrinsics::abort], which is only reached when the hook
    returns against its contract. At stage0 the strings arrive as [*u8] and
    are first converted by [str::raw::c_str_to_static_slice].

    - Text is [bytes], a list of [ascii]. A [uint] is a [Z] below
      [uint_modulus] of a [Target] of 32 or 64 bits; additions on
      addresses and lengths wrap ([Uint]).
    - Static memory is a list of bytes addressed from 0; a [&'static str]
      is the fat pointer [Slice data len] into it, a [*u8] an address
      ([StaticMem]).
    - The formatter is outside the repository and modelled from the
      specification: [parse_fmt] reads a format string into pieces and
      holes, [format_args] is the macro, [write] renders against memory,
      [to_dec] prints a [uint] ([Fmt], [Uint]).
    - Effects are events of interaction trees: [Load] of a byte, [Extern],
      the call of the externally defined symbol, answered in [unit]
      because a hook can return, and [Abort], answered in the empty type.
      A [World] is the static memory and the hook linked under each
      [Symbol]. [run] interprets a tree in a world by recursion on fuel
      and yields the outcome ([Halted], [Aborted], [Fault], [Unresolved]
      or a returned value) and the trace of calls and aborts ([Effects]).
    - [c_str_to_static_slice] is [ITree.iter] over [scan_step], one load
      per byte with the length counted in a [uint] ([CStr]).
    - The functions of [failure.rs] are translated one by one in
      [Failure]: [begin_unwind] with [extern_begin_unwind] (the two extern
      blocks), [Current.fail_] and [Current.fail_bounds_check],
      [Stage0.fail_] and [Stage0.fail_bounds_check], and the format
      strings [FAIL_FMT] and [BOUNDS_FMT]. The lang items have the type
      [itree E void], as the source has [-> !].
    - The specification's side is [Spec]: failures, signals, the state
      machine [Idle -> Formatting -> Dispatching -> Halted | Aborted] as a
      labelled step relation ([Machine.step]) with its summary
      [Machine.raise], and the abstraction [abs_run] from runs of the
      implementation to runs of the machine. The machine signals the
      dispatch when it enters [Dispatching], where it stays while the
      hook runs, and the abort when it leaves for [Aborted].
    - The four call shapes are one type, [Entry], run by [enter]. Their
      reference is in [Boundary]: [normalize] gives the canonical form of
      a call, a [Call] on slices, or the address at which a conversion
      faults, and [reference] the run that the canonical form stands for.
      The reference writes the names of the symbol ([stage_symbol]) and
      the arguments of the hook ([call_fmt]) out again, so that it does
      not depend on the translation of the functions.
    - The symbol is bound when the program is linked. [Link] takes the
      symbols a build needs from the extern blocks that its [cfg]
      attributes keep ([Items]) and the definitions from the other
      crates ([Upstream]); [link] gives the world of the linked program
      or the error.

    ** Files, in dependency order

    - [Prelude] (this file): bytes and text, the option-monad notation of
      scope [fail_scope], the tactic [fuel_sum] and the hint database
      [fail], and slices of lists.
    - [Uint]: machine integers and their decimal form, with the round
      trip [of_dec_to_dec] and the length bound [to_dec_uint_length].
    - [StaticMem]: static memory, slices, C strings and their reference
      definition [c_strlen].
    - [Fmt]: the formatter, with the round trip [unparse_parse_fmt].
    - [Effects]: events, worlds, the interpreter [run] and its theory:
      monotonicity in fuel ([run_mono]), determinism ([run_det]),
      sequencing ([run_bind]) and invariance under strong bisimulation
      ([run_eq_itree], registered as a [Proper] instance) and, up to
      fuel, under weak bisimulation ([run_eutt], [ends_in_Proper]); the
      same
      semantics one node at a time ([step], [steps]) and their agreement
      ([run_steps]); the contract of the hook as the classes [Diverges]
      and [Lawful]; worlds up to [world_eq], which [run] respects.
    - [CStr]: the conversion of C strings: on a terminated string it
      returns the slice [c_strlen] describes ([run_c_str_then]), on an
      unterminated one it faults at the end of the segment
      ([run_c_str_fault_then]); on every pointer it ends, and ends as
      the reference [convert] says ([run_c_str_convert]).
    - [Spec]: the state machine and its theory (determinism, termination
      in three steps, no way back to [Idle], [complete_run_raise], and
      [steps_split], which cuts a run where its signals are).
    - [Failure]: the functions of [failure.rs] and the theorems about
      each of them.
    - [Boundary]: the canonical form and the reference of the four call
      shapes, and the theorems about all of them at once.
    - [Simulation]: the steps of a lang item against the steps of the
      machine.
    - [Threads]: pools of threads that raise failures, interleaved
      step by step under an arbitrary schedule.
    - [Items]: the items of [failure.rs] with their attributes
      ([#[cfg]], [#[lang]], [#[link_name]], [#[cold]], [#[inline(never)]])
      and the selection of items by a build configuration.
    - [Link]: the linking of a build against the crates that define the
      hook.
    - [Program]: the threads of a linked build.
    - [Scenarios]: the scenarios of the specification, each run through
      linking, the lang item and the abstraction, and proved by
      evaluation.

    ** What the theorems of [Failure] show

    - Functional behaviour, for every world and on every branch:
      [fail_run], [fail_bounds_check_run], [stage0_fail_run],
      [stage0_fail_bounds_check_run] and [begin_unwind_run] give the run
      of each function: which symbol is called, with which arguments, and
      that the abort follows exactly when the hook returns; an unbound
      symbol ends the run before any call.
    - Messages: the lemmas [write_fail_args] and [write_bounds_args]
      give the text the hook reads from the arguments it receives.
    - Refinement: [fail_refines] and [fail_bounds_check_refines] show
      that a run, read through [abs_run], is a complete run of the state
      machine for the failure raised; [enter_refines] of [Boundary] has
      the same for every call shape.
    - Safety: [enter_well_ended] shows for all four call shapes
      ([Entry], [enter]) that the run exists and ends in order, after
      one call and at most one abort, and [lawful_never_aborts] that no
      abort is reached in a world whose hooks keep their contract (the
      classes [Diverges] and [Lawful] of [Effects]). Both are instances
      of one rule, [enter_total].
    - Round trips and bounds: [stage0_location_roundtrip] (a name laid
      out as a C string is the name the hook receives),
      [bounds_message_roundtrip] (the numbers can be read back from the
      message by [read_bounds]) and [bounds_message_fits] (the message
      has at most 90 bytes).
    - Errors: [stage0_fail_unterminated] and
      [stage0_fail_bounds_check_unterminated] show that a string without
      terminator faults before the hook is called.
    - Termination: [enter_well_ended] includes that the run of each of
      the four call shapes exists at fuel [stage0_fuel w]: the scans of
      stage0 end in every well-formed world.

    ** What the theorems of [Boundary] show

    - Equivalence with the reference: [enter_reference] gives the run of
      every entry, in every well-formed world and on every argument, as
      [reference] computes it from the canonical form: a fault at the
      first address read outside the segment, or one call of the symbol
      of the stage and the abort if the hook returns. It rests on
      [run_c_str_convert] for the conversions.
    - Equivalence of the stages: [enter_as_current] shows that an entry
      runs like the current entry of its canonical form, up to the name
      of the symbol.
    - Refinement: [enter_refines] shows for every entry that stands for
      a failure ([failure_of]) that its run is a complete run of the
      machine for that failure.
    - Bounds: [stage0_slices_valid] shows of every run of a stage0 lang
      item that the file name the hook receives is a C string of the
      static segment without its terminator, and
      [width_independent] that a 32-bit and a 64-bit target have the
      same runs in a world that is well-formed for both: no addition of
      a scan wraps.
    - Locality: [enter_frame] shows that a call whose conversions
      succeed has the same run in every larger segment that starts with
      the same bytes.

    ** What the theorems of [Simulation] show

    [Boundary] compares complete runs. [Simulation] compares steps: the
    relation [sim n s p] holds between a status [s] of the
    implementation and a phase [p] of the machine when [s] has ended
    exactly if [p] is the terminal phase of its outcome, and the rest of
    the run of [s], which takes at most [n] steps, is a run of the
    machine from [p].

    - [sim_step] is the simulation diagram: a step of the implementation
      from [sim (S n)] is answered by steps of the machine with the same
      signals and leads to [sim n]. The index is the measure that bounds
      the steps the machine does not answer, the loads of a stage0 scan
      and the silent steps of the tree.
    - [sim_enter]: a lang item called on arguments that stand for a
      failure starts in [sim (stage0_fuel w)] with the machine at
      [Idle].
    - [enter_simulated]: hence a lang item stopped after any number of
      steps has done what the machine does on a run from [Idle], and it
      has ended when the machine is in a terminal phase.

    ** What the theorems of [Link] and [Program] show

    - [link_resolve] (a lemma): a build links exactly when the symbol
      of its stage is defined once; no definition and two definitions
      are errors.
    - [linked_never_unresolved]: in a linked program a lang item that
      the build compiles never meets an unresolved symbol: it calls the
      symbol that the build declares or faults before any call.
    - [linked_failure_dispatched]: the composition of all parts. In a
      program linked against crates whose hooks keep their contract
      ([link_lawful] discharges the class [Lawful]), a lang item that
      the build compiles, called on arguments that stand for a failure,
      dispatches the message and location of that failure once and ends
      [Halted].
    - [linked_process_dispatches] of [Program]: the same for a process.
      With one thread per failure and a schedule that is fair to all,
      every thread ends [Halted] and the process has one event per
      thread, the dispatch of the failure of that thread.

    ** What the theorems of [Items] show

    A [Config] says which [cfg] names a build sets; [crate v] is the list
    of items compiled in the build [v]. Every build is one of four
    ([crate_build]), by [test] and [stage0].

    - [lang_item_defined_once] and [lang_item_form]: a build that is
      not a test build has one [fail_] and one [fail_bounds_check], in
      the form of its stage; a test build has none.
    - [extern_resolved]: the extern a build declares is the symbol
      [extern_begin_unwind] of the model, which ties the boolean [stage0]
      of [Failure] to the [cfg] attributes.
    - [documented_interface]: the wrapper and the externs have the
      signature that the documentation of the module states, but for the
      lifetime of [file].
    - [refs_resolved] and [imports_used]: names are resolved in every
      build, and imports are used except for [intrinsics] in a test
      build.
    - [inline_never_only_fail] and [public_surface]: every function is
      cold, only [fail_] is never inlined, and only [begin_unwind] is
      public.

    ** What the theorems of [Threads] show

    [failure.rs] shares no state between threads; what threads share is
    the process. In the model the hook ends the thread that called it and
    the abort ends the process: [exec] runs a schedule, a list of thread
    numbers, on a pool, and a pool in which a thread has aborted does
    not move.

    A [process] has one thread per entry, at any of the four call
    shapes; a thread at a stage0 lang item takes a step per byte it
    scans, and the steps of the other threads fall in between.

    - [threads_dispatch_at_most_once]: under every schedule a thread
      contributes a prefix of its own call and abort ([exec_local], the
      general form, holds for every pool of trees).
    - [exec_abort_last] (a lemma on every pool): an abort is the last
      event of a process.
    - [fair_schedule_dispatches_all]: when the hooks keep their
      contract, every thread whose conversions succeed and that gets
      its turns dispatches its failure.
    - [fair_schedule_events]: every fair schedule then leaves each
      thread ended as its reference says, and the events of the process
      are the events of the references of its threads up to their order
      ([trace_views]: a trace is a permutation of the views of its
      threads).
    - [every_order_reachable]: and every order of the threads is the
      order of the events under some schedule, the one that runs the
      threads one after the other in that order ([blocks]).

    ** Fuel and bounds

    [run] uses one unit of fuel per node of the tree. A current lang item
    needs 2 (the call and the abort). A scan over a string of [n] bytes
    needs [scan_fuel n = 2 * n + 1] (a load and a loop step per byte, and
    the load of the terminator); a stage0 lang item needs the fuel of its
    scans and 2 more, and [stage0_fuel w], two scans of the whole segment
    and 2, suffices in the world [w]. All theorems hold from their bound
    on for every larger fuel, and [run_mono] shows that more fuel never
    changes a result. A schedule is [fair] to a thread when it gives it
    [stage0_fuel w] turns, one per unit of fuel, and the index of [sim]
    counts the same steps. [to_dec] runs on
    [DEC_BUF = 64] digits of fuel, more than the 20 digits a 64-bit
    [uint] has ([to_dec_uint_length]).
    [wf_world] asks that the static segment is smaller than the address
    space, so that no address inside it wraps.

    ** Not modelled

    - The body of the hook ([std]'s [begin_unwind] and the unwinder): it
      is an oracle that says for each call whether it returns. [Link]
      models which hook is bound, not what it does.
    - The linker beyond the one symbol: object files, other symbols and
      the order of crates are not modelled.
    - What a compiler that trusts [-> !] makes of the code after the
      call: the model takes the source at its word, and a hook that
      returns lets the next statement run.
    - Undefined behaviour: a load outside the static segment is the
      outcome [Fault] of the model, where the source has no defined
      behaviour at all.
    - What the attributes [#[cold]] and [#[inline(never)]] do to the
      generated code: [Items] records where they stand, not their effect.
    - Escapes and format specifications of format strings, which
      [failure.rs] does not use; UTF-8 validity of strings.
    - Hooks with state: the hook is a function of its arguments, so a
      hook that counts its calls or synchronises threads is outside the
      model.
    - The lifetime of the [fmt::Arguments] value: in the source it lives
      in the frame of [format_args!] and the closure borrows it for the
      call of [begin_unwind]; the model hands it over by value, so a
      hook that keeps the reference after the call cannot be written
      down. *)

From Stdlib Require Import ZArith List Ascii Bool Lia.
From Stdlib Require String.
Import ListNotations.
Export String.StringSyntax.
Delimit Scope string_scope with string.

(** ** Bytes and text

    A byte is an [ascii] (eight bits); text is a list of bytes. A Rust
    [&str] denotes such a list; [u8] literals are written with [B]. *)

Definition bytes : Type := list ascii.

Definition NUL : ascii := Ascii.zero.

Definition B (s : String.string) : bytes := String.list_ascii_of_string s.
Arguments B s%_string.

(** ** Notation *)

Declare Scope fail_scope.
Delimit Scope fail_scope with fail.

Notation "x <-? e ;; k" :=
  (match e with Some x => k | None => None end)
  (at level 20, e at level 100, k at level 200) : fail_scope.

(** ** Tactics and hint databases *)

Create HintDb fail discriminated.

(** [fuel_sum H] turns a lower bound [H : k <= fuel] on the fuel into
    [fuel = k + n]: theorems are stated with the bound, lemmas on runs
    with the sum. *)
Ltac fuel_sum H :=
  let n := fresh "n" in
  match type of H with
  | (?k <= ?fuel)%nat =>
      assert (exists n, fuel = (k + n)%nat) as [n ->] by (exists (fuel - k)%nat; lia)
  end.

(** ** Slices of a list

    [slice p n l] is the [n] elements of [l] from index [p] on: what a fat
    pointer [(p, n)] into [l] denotes. *)

Definition slice {A : Type} (p n : nat) (l : list A) : list A :=
  firstn n (skipn p l).

Lemma length_slice {A : Type} (p n : nat) (l : list A) :
  p + n <= length l -> length (slice p n l) = n.
Proof.
  intros H. unfold slice. rewrite length_firstn, length_skipn. lia.
Qed.

(** A slice of a list is a slice of every extension of the list. *)
Lemma slice_app {A : Type} (p n : nat) (l l' : list A) :
  p + n <= length l -> slice p n (l ++ l') = slice p n l.
Proof.
  intros H. unfold slice. rewrite skipn_app, firstn_app, length_skipn.
  replace (p - length l) with 0 by lia. replace (n - (length l - p)) with 0 by lia.
  cbn [skipn firstn]. apply app_nil_r.
Qed.
