(* ===== verification/Uint.v ===== *)
(** * Uint: the machine's unsigned word and its decimal rendering

    [failure.rs] passes three kinds of [uint] around: the line number of a
    location, and the index and the length of a failed bounds check. A
    [uint] is as wide as a pointer, 32 or 64 bits, which the class [Target]
    fixes. This file holds

    - the word: [is_uint], [wrap] and the wrapping addition [uint_add];
    - the decimal rendering [to_dec] that the formatter applies to a
      [uint] argument of a [{}] placeholder, written as the digit loop
      that fills a buffer of [DEC_BUF] bytes from its end, and the reader
      [of_dec] that inverts it;
    - their theory: the round trip, injectivity, the digits and the length
      of a rendering.

    The formatter is not part of the repository; it is modelled from the
    specification, which asks for "literal numeric substitution". *)

From Stdlib Require Import ZArith List Ascii Bool Lia.
From S2P Require Import Prelude.
Import ListNotations.
#[local] Open Scope Z_scope.
#[local] Open Scope fail_scope.

(** ** The word *)

Class Target : Type := {
  uint_bits : Z;
  uint_bits_cases : uint_bits = 32 \/ uint_bits = 64
}.

Definition target32 : Target :=
  {| uint_bits := 32; uint_bits_cases := or_introl eq_refl |}.

Definition target64 : Target :=
  {| uint_bits := 64; uint_bits_cases := or_intror eq_refl |}.

Section Word.
Context {T : Target}.

Definition uint_modulus : Z := 2 ^ uint_bits.

Definition is_uint (n : Z) : Prop := 0 <= n < uint_modulus.

Definition is_uintb (n : Z) : bool := (0 <=? n) && (n <? uint_modulus).

Definition wrap (n : Z) : Z := n mod uint_modulus.

Definition uint_add (a b : Z) : Z := wrap (a + b).

Lemma uint_modulus_cases : uint_modulus = 2 ^ 32 \/ uint_modulus = 2 ^ 64.
Proof.
  unfold uint_modulus. destruct uint_bits_cases as [-> | ->]; auto.
Qed.

Lemma uint_modulus_pos : 0 < uint_modulus.
Proof. destruct uint_modulus_cases as [-> | ->]; reflexivity. Qed.

Lemma uint_modulus_le : uint_modulus <= 2 ^ 64.
Proof. destruct uint_modulus_cases as [-> | ->]; [discriminate | reflexivity]. Qed.

Lemma is_uintb_spec (n : Z) : reflect (is_uint n) (is_uintb n).
Proof.
  unfold is_uint, is_uintb.
  destruct (Z.leb_spec0 0 n), (Z.ltb_spec0 n uint_modulus);
    constructor; lia.
Qed.

Lemma wrap_is_uint (n : Z) : is_uint (wrap n).
Proof. apply Z.mod_pos_bound, uint_modulus_pos. Qed.

Lemma wrap_small (n : Z) : is_uint n -> wrap n = n.
Proof. apply Z.mod_small. Qed.

Lemma uint_add_nowrap (a b : Z) :
  0 <= a -> 0 <= b -> a + b < uint_modulus -> uint_add a b = a + b.
Proof. intros. apply wrap_small. unfold is_uint. lia. Qed.

Lemma uint_add_is_uint (a b : Z) : is_uint (uint_add a b).
Proof. apply wrap_is_uint. Qed.

End Word.

#[export] Hint Resolve wrap_is_uint uint_add_is_uint uint_modulus_pos : fail.

(** ** Decimal digits *)

Definition digit_char (d : Z) : ascii := ascii_of_nat (48 + Z.to_nat d).

Definition digit_of (c : ascii) : option Z :=
  let k := Z.of_nat (nat_of_ascii c) in
  if (48 <=? k) && (k <=? 57) then Some (k - 48) else None.

Definition is_digit (c : ascii) : Prop := exists d, 0 <= d < 10 /\ c = digit_char d.

(** The formatter's buffer: digits are stored from its last byte down. *)
Definition DEC_BUF : nat := 64.

Fixpoint to_dec_go (fuel : nat) (n : Z) (acc : bytes) : bytes :=
  match fuel with
  | O => acc
  | S fuel' =>
      let acc' := digit_char (n mod 10) :: acc in
      if n / 10 =? 0 then acc' else to_dec_go fuel' (n / 10) acc'
  end.

Definition to_dec (n : Z) : bytes := to_dec_go DEC_BUF n [].

Arguments to_dec_go : simpl never.

Fixpoint dec_value_go (s : bytes) (acc : Z) : option Z :=
  match s with
  | [] => Some acc
  | c :: s' => d <-? digit_of c ;; dec_value_go s' (10 * acc + d)
  end.

Definition of_dec (s : bytes) : option Z :=
  match s with
  | [] => None
  | _ :: _ => dec_value_go s 0
  end.

(** ** Induction on the digits of a number *)

Lemma dec_ind (P : Z -> Prop) :
  (forall n, 0 <= n < 10 -> P n) ->
  (forall n, 10 <= n -> P (n / 10) -> P n) ->
  forall n, 0 <= n -> P n.
Proof.
  intros Hsmall Hstep. apply Zlt_0_ind. intros x IH Hx.
  destruct (Z_lt_le_dec x 10) as [Hlt | Hge]; [apply Hsmall; lia |].
  apply Hstep; [exact Hge |]. apply IH. split.
  - apply Z.div_pos; lia.
  - apply Z.div_lt; lia.
Qed.

Lemma pow10_succ (k : nat) : 10 ^ Z.of_nat (S k) = 10 * 10 ^ Z.of_nat k.
Proof. rewrite Nat2Z.inj_succ. apply Z.pow_succ_r. lia. Qed.

Lemma pow10_pos (k : nat) : 0 < 10 ^ Z.of_nat k.
Proof. apply Z.pow_pos_nonneg; lia. Qed.

Lemma div10_lt_pow10 (n : Z) (k : nat) :
  0 <= n < 10 ^ Z.of_nat (S k) -> 0 <= n / 10 < 10 ^ Z.of_nat k.
Proof.
  rewrite pow10_succ. intros [H0 H1]. split.
  - apply Z.div_pos; lia.
  - apply Z.div_lt_upper_bound; lia.
Qed.

Lemma pow10_mono (j k : nat) : (j <= k)%nat -> 10 ^ Z.of_nat j <= 10 ^ Z.of_nat k.
Proof. intros H. apply Z.pow_le_mono_r; lia. Qed.

(** ** The digit loop *)

Lemma digit_of_digit_char (d : Z) : 0 <= d < 10 -> digit_of (digit_char d) = Some d.
Proof.
  intros H.
  assert (d = 0 \/ d = 1 \/ d = 2 \/ d = 3 \/ d = 4 \/
          d = 5 \/ d = 6 \/ d = 7 \/ d = 8 \/ d = 9) as Hd by lia.
  repeat (destruct Hd as [-> | Hd]; [reflexivity |]). subst d. reflexivity.
Qed.

Lemma digit_char_inj (d e : Z) :
  0 <= d < 10 -> 0 <= e < 10 -> digit_char d = digit_char e -> d = e.
Proof.
  intros Hd He Heq. apply (f_equal digit_of) in Heq.
  rewrite !digit_of_digit_char in Heq by assumption. congruence.
Qed.

(** Digits are handled through the two lemmas above; their code points
    are not unfolded on symbolic numbers. *)
#[global] Opaque digit_char digit_of.

Lemma mod10_digit (n : Z) : 0 <= n mod 10 < 10.
Proof. apply Z.mod_pos_bound. lia. Qed.

#[export] Hint Resolve mod10_digit pow10_pos : fail.

Lemma to_dec_go_O (n : Z) (acc : bytes) : to_dec_go 0 n acc = acc.
Proof. reflexivity. Qed.

Lemma to_dec_go_S (fuel : nat) (n : Z) (acc : bytes) :
  to_dec_go (S fuel) n acc =
  if n / 10 =? 0 then digit_char (n mod 10) :: acc
  else to_dec_go fuel (n / 10) (digit_char (n mod 10) :: acc).
Proof. reflexivity. Qed.

Lemma to_dec_unfold (n : Z) :
  to_dec n =
  if n / 10 =? 0 then [digit_char (n mod 10)]
  else to_dec_go (pred DEC_BUF) (n / 10) [digit_char (n mod 10)].
Proof. reflexivity. Qed.

(** From here on the loop is reasoned about through these two equations:
    unfolding [DEC_BUF] iterations on a symbolic number is hopeless. *)
#[global] Opaque to_dec_go.

Lemma to_dec_go_acc (fuel : nat) (n : Z) (acc : bytes) :
  to_dec_go fuel n acc = to_dec_go fuel n [] ++ acc.
Proof.
  revert n acc. induction fuel as [|fuel IH]; intros n acc.
  { rewrite !to_dec_go_O. reflexivity. }
  rewrite !to_dec_go_S. destruct (n / 10 =? 0); [reflexivity |].
  rewrite IH, (IH _ [_]), <- app_assoc. reflexivity.
Qed.

Lemma to_dec_go_fuel (f f' : nat) (n : Z) (acc : bytes) :
  (1 <= f <= f')%nat -> 0 <= n < 10 ^ Z.of_nat f ->
  to_dec_go f' n acc = to_dec_go f n acc.
Proof.
  revert f' n acc. induction f as [|f IH]; intros f' n acc Hf Hn; [lia |].
  destruct f' as [|f']; [lia |]. rewrite !to_dec_go_S.
  destruct (Z.eqb_spec (n / 10) 0) as [|Hne]; [reflexivity |].
  apply div10_lt_pow10 in Hn.
  assert (f <> O) by (intros ->; simpl in Hn; lia).
  apply IH; [lia | exact Hn].
Qed.

Lemma to_dec_small (n : Z) : 0 <= n < 10 -> to_dec n = [digit_char n].
Proof.
  intros H. rewrite to_dec_unfold.
  rewrite Z.div_small, Z.mod_small by lia. reflexivity.
Qed.

Lemma to_dec_step (n : Z) :
  10 <= n < 10 ^ Z.of_nat DEC_BUF ->
  to_dec n = to_dec (n / 10) ++ [digit_char (n mod 10)].
Proof.
  intros [Hlo Hhi]. rewrite to_dec_unfold.
  destruct (Z.eqb_spec (n / 10) 0) as [Hz | _].
  - pose proof (Z.div_mod n 10). pose proof (Z.mod_pos_bound n 10). lia.
  - rewrite to_dec_go_acc.
    rewrite <- (to_dec_go_fuel (pred DEC_BUF) DEC_BUF (n / 10) []);
      [reflexivity | cbv; lia |].
    apply div10_lt_pow10. split; [lia | exact Hhi].
Qed.

(** ** Reading a rendering back *)

Lemma dec_value_go_app (s t : bytes) (acc : Z) :
  dec_value_go (s ++ t) acc = (v <-? dec_value_go s acc ;; dec_value_go t v).
Proof.
  revert acc. induction s as [|c s IH]; intros acc; [reflexivity |].
  cbn [dec_value_go app]. destruct (digit_of c); [apply IH | reflexivity].
Qed.

Lemma dec_value_to_dec (n : Z) :
  0 <= n < 10 ^ Z.of_nat DEC_BUF -> dec_value_go (to_dec n) 0 = Some n.
Proof.
  intros [Hn Hhi]. revert Hhi. pattern n. apply dec_ind; [| |exact Hn]; clear n Hn.
  - intros n Hn _. rewrite to_dec_small by exact Hn. cbn [dec_value_go].
    rewrite digit_of_digit_char by exact Hn. f_equal; lia.
  - intros n Hn IH Hhi. rewrite to_dec_step by lia.
    rewrite dec_value_go_app, IH.
    + cbn [dec_value_go]. rewrite digit_of_digit_char by auto with fail.
      pose proof (Z.div_mod n 10). f_equal; lia.
    + pose proof (Z.div_lt n 10). lia.
Qed.

Lemma to_dec_nonempty (n : Z) : to_dec n <> [].
Proof.
  rewrite to_dec_unfold.
  destruct (n / 10 =? 0); [discriminate |].
  rewrite to_dec_go_acc. intros H. apply app_eq_nil in H. destruct H; discriminate.
Qed.

Lemma of_dec_to_dec (n : Z) :
  0 <= n < 10 ^ Z.of_nat DEC_BUF -> of_dec (to_dec n) = Some n.
Proof.
  intros H. pose proof (to_dec_nonempty n) as Hne. unfold of_dec.
  destruct (to_dec n) eqn:E; [contradiction |]. rewrite <- E.
  apply dec_value_to_dec, H.
Qed.

Lemma to_dec_inj (n m : Z) :
  0 <= n < 10 ^ Z.of_nat DEC_BUF -> 0 <= m < 10 ^ Z.of_nat DEC_BUF ->
  to_dec n = to_dec m -> n = m.
Proof.
  intros Hn Hm Heq. apply (f_equal of_dec) in Heq.
  rewrite !of_dec_to_dec in Heq by assumption. congruence.
Qed.

(** ** Shape of a rendering *)

Lemma to_dec_digits (n : Z) :
  0 <= n < 10 ^ Z.of_nat DEC_BUF -> Forall is_digit (to_dec n).
Proof.
  intros [Hn Hhi]. revert Hhi. pattern n. apply dec_ind; [| |exact Hn]; clear n Hn.
  - intros n Hn _. rewrite to_dec_small by exact Hn.
    repeat constructor. exists n. auto.
  - intros n Hn IH Hhi. rewrite to_dec_step by lia. apply Forall_app. split.
    + apply IH. pose proof (Z.div_lt n 10). lia.
    + repeat constructor. exists (n mod 10). auto with fail.
Qed.

Lemma to_dec_length (n : Z) (k : nat) :
  (1 <= k <= DEC_BUF)%nat -> 0 <= n < 10 ^ Z.of_nat k ->
  (1 <= length (to_dec n) <= k)%nat.
Proof.
  intros Hk [Hn Hhi]. revert k Hk Hhi. pattern n.
  apply dec_ind; [| |exact Hn]; clear n Hn.
  - intros n Hn k Hk _. rewrite to_dec_small by exact Hn. simpl. lia.
  - intros n Hn IH k Hk Hhi. destruct k as [|k]; [lia |].
    pose proof (pow10_mono (S k) DEC_BUF ltac:(lia)).
    rewrite to_dec_step, length_app by lia. simpl.
    assert (k <> O) by (intros ->; simpl in Hhi; lia).
    destruct (IH k) as [_ Hle]; [lia | apply div10_lt_pow10; lia | lia].
Qed.

(** ** Words fit the buffer *)

Lemma is_uint_fits {T : Target} (n : Z) : is_uint n -> 0 <= n < 10 ^ 20.
Proof.
  unfold is_uint. pose proof uint_modulus_le.
  assert (2 ^ 64 < 10 ^ 20) by reflexivity. lia.
Qed.

Lemma is_uint_dec_buf {T : Target} (n : Z) :
  is_uint n -> 0 <= n < 10 ^ Z.of_nat DEC_BUF.
Proof.
  intros H. apply is_uint_fits in H.
  pose proof (pow10_mono 20 DEC_BUF ltac:(unfold DEC_BUF; lia)).
  change (Z.of_nat 20) with 20 in *. lia.
Qed.

Lemma to_dec_uint_length {T : Target} (n : Z) :
  is_uint n -> (1 <= length (to_dec n) <= 20)%nat.
Proof.
  intros H. apply is_uint_fits in H.
  apply to_dec_length; [unfold DEC_BUF; lia | exact H].
Qed.

Lemma to_dec_uint_inj {T : Target} (n m : Z) :
  is_uint n -> is_uint m -> to_dec n = to_dec m -> n = m.
Proof. intros Hn Hm. apply to_dec_inj; apply is_uint_dec_buf; assumption. Qed.

#[export] Hint Resolve is_uint_dec_buf : fail.
