(* ===== verification/StaticMem.v ===== *)
(** * StaticMem: static storage, string slices and C strings

    The file names and messages that reach [failure.rs] live in static,
    program-lifetime storage. The current toolchain stage passes them as
    [&'static str], a pointer with a length; stage0 passes [*u8], a pointer
    to bytes that a zero byte ends. This file holds

    - [Mem], the static data segment as the list of its bytes, an address
      being an offset into it, and [load], which has no answer outside it;
    - [str], the fat pointer with the fields [data] and [len] of Rust's
      [raw::Slice], its validity and the bytes it denotes ([str_bytes]);
    - [strlen] and [c_strlen], the reference definition of the length of a
      C string: the offset of the first zero byte, if the segment has one
      from the pointer on.

    Nothing here writes to memory: the segment is never passed back by an
    operation, which is how the model states that locations are immutable
    for the whole failure path. *)

From Stdlib Require Import ZArith List Ascii Bool Lia.
From S2P Require Import Prelude.
Import ListNotations.
#[local] Open Scope Z_scope.
#[local] Open Scope fail_scope.

(** ** Memory and slices *)

Definition Mem : Type := bytes.

Record str : Type := Slice { data : Z; len : Z }.

Definition load (m : Mem) (a : Z) : option ascii :=
  if a <? 0 then None else nth_error m (Z.to_nat a).

Definition valid_strb (m : Mem) (s : str) : bool :=
  (0 <=? data s) && (0 <=? len s) && (data s + len s <=? Z.of_nat (length m)).

Definition valid_str (m : Mem) (s : str) : Prop :=
  0 <= data s /\ 0 <= len s /\ data s + len s <= Z.of_nat (length m).

Definition str_bytes (m : Mem) (s : str) : option bytes :=
  if valid_strb m s
  then Some (slice (Z.to_nat (data s)) (Z.to_nat (len s)) m)
  else None.

(** ** C strings: the reference definition *)

Fixpoint strlen (l : bytes) : option nat :=
  match l with
  | [] => None
  | c :: l' => if Ascii.eqb c NUL then Some O else option_map S (strlen l')
  end.

Definition c_strlen (m : Mem) (p : Z) : option Z :=
  if p <? 0 then None
  else option_map Z.of_nat (strlen (skipn (Z.to_nat p) m)).

(** [is_c_str m p n]: the [n] bytes at [p] are not zero and the next is. *)
Definition is_c_str (m : Mem) (p n : Z) : Prop :=
  0 <= p /\ 0 <= n /\ load m (p + n) = Some NUL /\
  forall i, 0 <= i < n -> exists c, load m (p + i) = Some c /\ c <> NUL.

(** ** Loads *)

Lemma load_nat (m : Mem) (i : nat) : load m (Z.of_nat i) = nth_error m i.
Proof.
  unfold load. destruct (Z.ltb_spec (Z.of_nat i) 0) as [Hi | Hi]; [lia |].
  rewrite Nat2Z.id. reflexivity.
Qed.

Lemma load_range (m : Mem) (a : Z) (c : ascii) :
  load m a = Some c -> 0 <= a < Z.of_nat (length m).
Proof.
  unfold load. destruct (Z.ltb_spec a 0) as [Ha | Ha]; [discriminate |].
  intros H. assert (nth_error m (Z.to_nat a) <> None) as Hn by congruence.
  apply nth_error_Some in Hn. lia.
Qed.

Lemma load_outside (m : Mem) (a : Z) :
  a < 0 \/ Z.of_nat (length m) <= a -> load m a = None.
Proof.
  unfold load. intros H. destruct (Z.ltb_spec a 0) as [Ha | Ha]; [reflexivity |].
  apply nth_error_None. lia.
Qed.

(** The bytes from [p] on, read by offset. *)
Lemma load_skipn (m : Mem) (p : Z) (i : nat) :
  0 <= p -> nth_error (skipn (Z.to_nat p) m) i = load m (p + Z.of_nat i).
Proof.
  intros Hp. rewrite nth_error_skipn, <- load_nat. f_equal. lia.
Qed.

(** ** Slices *)

Lemma valid_strb_spec (m : Mem) (s : str) : reflect (valid_str m s) (valid_strb m s).
Proof.
  unfold valid_str, valid_strb.
  destruct (Z.leb_spec0 0 (data s)), (Z.leb_spec0 0 (len s)),
    (Z.leb_spec0 (data s + len s) (Z.of_nat (length m)));
    constructor; lia.
Qed.

Lemma str_bytes_valid (m : Mem) (s : str) :
  valid_str m s ->
  str_bytes m s = Some (slice (Z.to_nat (data s)) (Z.to_nat (len s)) m).
Proof.
  intros H. unfold str_bytes.
  destruct (valid_strb_spec m s); [reflexivity | contradiction].
Qed.

Lemma str_bytes_Some (m : Mem) (s : str) (b : bytes) :
  str_bytes m s = Some b -> valid_str m s /\ Z.of_nat (length b) = len s.
Proof.
  unfold str_bytes. destruct (valid_strb_spec m s) as [Hv | _]; [| discriminate].
  intros [= <-]. split; [exact Hv |]. destruct Hv as (? & ? & ?).
  rewrite length_slice; lia.
Qed.

Lemma str_bytes_load (m : Mem) (s : str) (b : bytes) (i : nat) :
  str_bytes m s = Some b -> (i < length b)%nat ->
  load m (data s + Z.of_nat i) = nth_error b i.
Proof.
  intros Hb Hi. destruct (str_bytes_Some _ _ _ Hb) as [Hv Hlen].
  rewrite (str_bytes_valid _ _ Hv) in Hb. injection Hb as <-.
  destruct Hv as (? & ? & ?). unfold slice.
  rewrite nth_error_firstn, load_skipn by lia.
  destruct (Nat.ltb_spec i (Z.to_nat (len s))); [reflexivity | lia].
Qed.

(** ** The length of a C string *)

(** [first_nul l n]: [n] is the index of the first zero byte of [l]. *)
Definition first_nul (l : bytes) (n : nat) : Prop :=
  nth_error l n = Some NUL /\
  forall i, (i < n)%nat -> exists c, nth_error l i = Some c /\ c <> NUL.

Lemma first_nul_here (l : bytes) (n : nat) : first_nul (NUL :: l) n <-> n = O.
Proof.
  split; [| intros ->; split; [reflexivity | lia]].
  intros [_ Hlt]. destruct n as [|n]; [reflexivity |].
  destruct (Hlt O) as (c & [= <-] & Hne); [lia | contradiction].
Qed.

Lemma first_nul_later (c : ascii) (l : bytes) (n : nat) :
  c <> NUL -> first_nul (c :: l) n <-> exists k, n = S k /\ first_nul l k.
Proof.
  intros Hc. split.
  - intros [H0 H1]. destruct n as [|n]; [injection H0 as ->; contradiction |].
    exists n. split; [reflexivity |]. split; [exact H0 |].
    intros i Hi. apply (H1 (S i)). lia.
  - intros (k & -> & H0 & H1). split; [exact H0 |].
    intros [|i] Hi; [exists c; auto |]. apply H1. lia.
Qed.

Lemma strlen_Some (l : bytes) (n : nat) : strlen l = Some n <-> first_nul l n.
Proof.
  revert n. induction l as [|c l IH]; intros n; cbn [strlen].
  - split; [discriminate | intros [H _]; destruct n; discriminate].
  - destruct (Ascii.eqb_spec c NUL) as [-> | Hc].
    + rewrite first_nul_here. split; congruence.
    + rewrite (first_nul_later _ _ _ Hc). destruct (strlen l) as [k|]; cbn [option_map].
      * split; [intros [= <-]; exists k; split; [reflexivity | apply IH; reflexivity] |].
        intros (j & -> & Hj). apply IH in Hj. congruence.
      * split; [discriminate |]. intros (j & -> & Hj). apply IH in Hj. discriminate.
Qed.

Lemma strlen_app (s rest : bytes) :
  ~ In NUL s -> strlen (s ++ NUL :: rest) = Some (length s).
Proof.
  induction s as [|c s IH]; intros Hnin; cbn [strlen app length];
    [reflexivity |].
  destruct (Ascii.eqb_spec c NUL) as [-> | _]; [exfalso; apply Hnin; left; reflexivity |].
  rewrite IH; [reflexivity |]. intros H. apply Hnin. right. exact H.
Qed.

Lemma strlen_None (l : bytes) : strlen l = None <-> ~ In NUL l.
Proof.
  induction l as [|c l IH]; cbn [strlen In]; [tauto |].
  destruct (Ascii.eqb_spec c NUL) as [-> | Hc]; [split; [discriminate | tauto] |].
  destruct (strlen l); cbn [option_map].
  - split; [discriminate |]. intros H. exfalso.
    assert (@Some nat n = None) by (apply IH; tauto). discriminate.
  - split; [| reflexivity]. intros _ [Heq | Hin]; [congruence | tauto].
Qed.

Lemma strlen_lt (l : bytes) (n : nat) : strlen l = Some n -> (n < length l)%nat.
Proof.
  intros H. apply strlen_Some in H. destruct H as [H _].
  apply nth_error_Some. congruence.
Qed.

Lemma is_c_str_first_nul (m : Mem) (p n : Z) :
  is_c_str m p n <->
  0 <= p /\ 0 <= n /\ first_nul (skipn (Z.to_nat p) m) (Z.to_nat n).
Proof.
  unfold is_c_str, first_nul. split.
  - intros (Hp & Hn & Hnul & Hpre). repeat split; try assumption.
    + rewrite load_skipn, Z2Nat.id by assumption. exact Hnul.
    + intros i Hi. rewrite load_skipn by assumption. apply Hpre. lia.
  - intros (Hp & Hn & Hnul & Hpre). repeat split; try assumption.
    + rewrite load_skipn, Z2Nat.id in Hnul by assumption. exact Hnul.
    + intros i Hi. specialize (Hpre (Z.to_nat i)).
      rewrite load_skipn, Z2Nat.id in Hpre by lia. apply Hpre. lia.
Qed.

Lemma c_strlen_Some (m : Mem) (p n : Z) :
  c_strlen m p = Some n <-> is_c_str m p n.
Proof.
  rewrite is_c_str_first_nul, <- strlen_Some. unfold c_strlen.
  destruct (Z.ltb_spec p 0) as [Hp | Hp]; [split; [discriminate | lia] |].
  destruct (strlen (skipn (Z.to_nat p) m)) as [k|]; cbn [option_map].
  - split; [intros [= <-]; rewrite Nat2Z.id; repeat split; lia |].
    intros (_ & Hn & [= ->]). f_equal. lia.
  - split; [discriminate | intros (_ & _ & [=])].
Qed.

Lemma is_c_str_unique (m : Mem) (p n n' : Z) :
  is_c_str m p n -> is_c_str m p n' -> n = n'.
Proof. rewrite <- !c_strlen_Some. congruence. Qed.

(** The slice over a C string lies in the segment and holds no zero byte. *)
Lemma is_c_str_valid (m : Mem) (p n : Z) :
  is_c_str m p n -> valid_str m (Slice p n).
Proof.
  intros (Hp & Hn & Hnul & _). apply load_range in Hnul.
  unfold valid_str. cbn [data len]. lia.
Qed.

Lemma is_c_str_bytes (m : Mem) (p n : Z) (b : bytes) :
  is_c_str m p n -> str_bytes m (Slice p n) = Some b -> ~ In NUL b.
Proof.
  intros (Hp & Hn & _ & Hpre) Hb Hin. apply In_nth_error in Hin.
  destruct Hin as [i Hi]. assert (i < length b)%nat as Hlt
    by (apply nth_error_Some; congruence).
  rewrite <- (str_bytes_load _ _ _ _ Hb Hlt) in Hi. cbn [data] in Hi.
  apply str_bytes_Some in Hb. cbn [len] in Hb.
  destruct (Hpre (Z.of_nat i)) as (c & Hc & Hne); [lia | congruence].
Qed.

(** A string laid out in a segment, followed by its terminator. *)
Lemma is_c_str_layout (pre s post : bytes) :
  ~ In NUL s ->
  is_c_str (pre ++ s ++ NUL :: post) (Z.of_nat (length pre)) (Z.of_nat (length s)).
Proof.
  intros Hs. apply c_strlen_Some. unfold c_strlen.
  destruct (Z.ltb_spec (Z.of_nat (length pre)) 0) as [Hp | Hp]; [lia |].
  rewrite Nat2Z.id, skipn_app, skipn_all, Nat.sub_diag. cbn [skipn app].
  rewrite (strlen_app _ _ Hs). reflexivity.
Qed.

Lemma str_bytes_layout (pre s post : bytes) :
  str_bytes (pre ++ s ++ post) (Slice (Z.of_nat (length pre)) (Z.of_nat (length s))) = Some s.
Proof.
  unfold str_bytes, valid_strb, slice. cbn [data len]. rewrite !length_app, !Nat2Z.id.
  rewrite skipn_app, skipn_all, Nat.sub_diag. cbn [skipn app].
  rewrite firstn_app, firstn_all, Nat.sub_diag. cbn [firstn]. rewrite app_nil_r.
  destruct (Z.leb_spec 0 (Z.of_nat (length pre))); [| lia].
  destruct (Z.leb_spec 0 (Z.of_nat (length s))); [| lia].
  destruct (Z.leb_spec (Z.of_nat (length pre) + Z.of_nat (length s))
              (Z.of_nat (length pre + (length s + length post)))); [reflexivity | lia].
Qed.

(** ** Extending the segment

    What a slice holds and where a C string ends depend on the bytes of
    the string alone: bytes added behind the segment change neither. *)

Lemma str_bytes_frame (m m' : Mem) (s : str) (b : bytes) :
  str_bytes m s = Some b -> str_bytes (m ++ m') s = Some b.
Proof.
  intros H. destruct (str_bytes_Some _ _ _ H) as [(Hd & Hl & Hle) _].
  rewrite (str_bytes_valid _ _ (conj Hd (conj Hl Hle))) in H. injection H as <-.
  rewrite str_bytes_valid by (unfold valid_str; rewrite length_app; lia).
  rewrite slice_app by lia. reflexivity.
Qed.

Lemma strlen_frame (l l' : bytes) (n : nat) : strlen l = Some n -> strlen (l ++ l') = Some n.
Proof.
  revert n. induction l as [|c l IH]; intros n; cbn [strlen app]; [discriminate |].
  destruct (Ascii.eqb c NUL); [auto |].
  destruct (strlen l) as [k|]; [| discriminate]. rewrite (IH k eq_refl). auto.
Qed.

Lemma c_strlen_frame (m m' : Mem) (p n : Z) :
  c_strlen m p = Some n -> c_strlen (m ++ m') p = Some n.
Proof.
  unfold c_strlen. destruct (p <? 0); [discriminate |].
  destruct (strlen (skipn (Z.to_nat p) m)) as [k|] eqn:E; [| discriminate]. intros H.
  pose proof (strlen_lt _ _ E) as Hlt. rewrite length_skipn in Hlt.
  rewrite skipn_app. replace (Z.to_nat p - length m)%nat with 0%nat by lia.
  cbn [skipn]. rewrite (strlen_frame _ _ _ E). exact H.
Qed.

(** A C string ends inside the segment. *)
Lemma is_c_str_lt (m : Mem) (p n : Z) :
  is_c_str m p n -> 0 <= p /\ 0 <= n /\ p + n < Z.of_nat (length m).
Proof. intros (Hp & Hn & Hnul & _). apply load_range in Hnul. lia. Qed.

#[export] Hint Resolve is_c_str_valid : fail.
