(* ===== verification/Fmt.v ===== *)
(** * Fmt: the message formatter the failure path consumes

    [failure.rs] builds its messages with [format_args!]: a format string,
    checked when the program is compiled, and the arguments that fill its
    [{}] placeholders. The macro hands a [fmt::Arguments] value to a
    closure and never allocates; the text is only produced when the
    receiver writes the arguments out. The formatter is outside the
    repository and is modelled from the specification:

    - [Piece], [Arg] and [Arguments]: a parsed format string is a list of
      literal pieces and holes, an argument a string slice or a [uint];
    - [parse_fmt], the macro's reading of a format string, and [unparse],
      its inverse;
    - [Show], the trait an argument type implements to be formatted, with
      its instances for string slices and [uint];
    - [format_args], the macro: it builds the [Arguments] and calls the
      closure on it;
    - [show] and [write], the rendering of one argument and of a whole
      [Arguments] value against the static memory the slices point into.

    The theory: reading and printing a format string are inverse
    ([unparse_parse_fmt]), rendering distributes over concatenation
    ([write_go_app]), and well-formed arguments over valid slices always
    render ([write_defined]).

    Escapes and format specifications inside braces are not modelled: the
    two format strings of [failure.rs] have none. *)

From Stdlib Require Import ZArith List Ascii Bool Lia.
From S2P Require Import Prelude Uint StaticMem.
Import ListNotations.
#[local] Open Scope Z_scope.
#[local] Open Scope fail_scope.

(** ** Data *)

Inductive Piece : Type :=
| Lit (s : bytes)
| Hole.

Inductive Arg : Type :=
| ArgStr (s : str)
| ArgUint (n : Z).

Record Arguments : Type := MkArguments { pieces : list Piece; args : list Arg }.

Class Show (A : Type) : Type := argument : A -> Arg.

#[export] Instance Show_str : Show str := ArgStr.

#[export] Instance Show_uint : Show Z := ArgUint.

(** ** Reading a format string *)

Definition flush (lit : bytes) (rest : list Piece) : list Piece :=
  match lit with
  | [] => rest
  | _ :: _ => Lit lit :: rest
  end.

Definition is_open (c : ascii) : bool := Ascii.eqb c "{"%char.

Definition is_close (c : ascii) : bool := Ascii.eqb c "}"%char.

Fixpoint parse_go (s : bytes) (lit : bytes) : list Piece :=
  match s with
  | [] => flush lit []
  | c :: s' =>
      match s' with
      | d :: s'' =>
          if is_open c && is_close d
          then flush lit (Hole :: parse_go s'' [])
          else parse_go s' (lit ++ [c])
      | [] => flush (lit ++ [c]) []
      end
  end.

Definition parse_fmt (s : bytes) : list Piece := parse_go s [].

Definition unparse_piece (p : Piece) : bytes :=
  match p with
  | Lit s => s
  | Hole => B "{}"
  end.

Definition unparse (ps : list Piece) : bytes := concat (map unparse_piece ps).

Fixpoint holes (ps : list Piece) : nat :=
  match ps with
  | [] => O
  | Lit _ :: ps' => holes ps'
  | Hole :: ps' => S (holes ps')
  end.

(** ** The macro *)

Definition format_args {R : Type} (f : Arguments -> R) (fmt : bytes) (xs : list Arg) : R :=
  f (MkArguments (parse_fmt fmt) xs).

Definition wf_arguments (a : Arguments) : Prop := holes (pieces a) = length (args a).

(** ** Rendering *)

Definition show (m : Mem) (x : Arg) : option bytes :=
  match x with
  | ArgStr s => str_bytes m s
  | ArgUint n => Some (to_dec n)
  end.

Fixpoint write_go (m : Mem) (ps : list Piece) (xs : list Arg) : option bytes :=
  match ps with
  | [] => Some []
  | Lit s :: ps' => r <-? write_go m ps' xs ;; Some (s ++ r)
  | Hole :: ps' =>
      match xs with
      | [] => None
      | x :: xs' =>
          b <-? show m x ;; r <-? write_go m ps' xs' ;; Some (b ++ r)
      end
  end.

Definition write (m : Mem) (a : Arguments) : option bytes :=
  write_go m (pieces a) (args a).

(** ** Parsing and printing are inverse *)

Lemma unparse_flush (lit : bytes) (rest : list Piece) :
  unparse (flush lit rest) = lit ++ unparse rest.
Proof. destruct lit; reflexivity. Qed.

Lemma parse_go_nil (lit : bytes) : parse_go [] lit = flush lit [].
Proof. reflexivity. Qed.

Lemma parse_go_one (c : ascii) (lit : bytes) :
  parse_go [c] lit = flush (lit ++ [c]) [].
Proof. reflexivity. Qed.

Lemma parse_go_two (c d : ascii) (s lit : bytes) :
  parse_go (c :: d :: s) lit =
  if is_open c && is_close d
  then flush lit (Hole :: parse_go s [])
  else parse_go (d :: s) (lit ++ [c]).
Proof. reflexivity. Qed.

Lemma unparse_cons (p : Piece) (ps : list Piece) :
  unparse (p :: ps) = unparse_piece p ++ unparse ps.
Proof. reflexivity. Qed.

Lemma unparse_parse_go (n : nat) (s lit : bytes) :
  (length s <= n)%nat -> unparse (parse_go s lit) = lit ++ s.
Proof.
  revert s lit. induction n as [|n IH]; intros [|c [|d s]] lit Hn;
    cbn [length] in Hn; try lia;
    rewrite ?parse_go_nil, ?parse_go_one, ?parse_go_two;
    try (rewrite unparse_flush, ?app_nil_r, <- ?app_assoc; reflexivity).
  destruct (is_open c && is_close d) eqn:E.
  - apply andb_prop in E. destruct E as [Hc Hd].
    apply Ascii.eqb_eq in Hc, Hd. subst c d.
    rewrite unparse_flush, unparse_cons, IH by lia. reflexivity.
  - rewrite IH by (cbn [length]; lia). rewrite <- app_assoc. reflexivity.
Qed.

Lemma unparse_parse_fmt (s : bytes) : unparse (parse_fmt s) = s.
Proof. apply (unparse_parse_go (length s)). lia. Qed.

Lemma parse_fmt_inj (s t : bytes) : parse_fmt s = parse_fmt t -> s = t.
Proof.
  intros H. apply (f_equal unparse) in H. rewrite !unparse_parse_fmt in H. exact H.
Qed.

(** ** Rendering *)

Lemma write_go_app (m : Mem) (ps qs : list Piece) (xs ys : list Arg) :
  holes ps = length xs ->
  write_go m (ps ++ qs) (xs ++ ys) =
  (a <-? write_go m ps xs ;; b <-? write_go m qs ys ;; Some (a ++ b)).
Proof.
  revert xs. induction ps as [|[s|] ps IH]; intros xs Hh; cbn [holes] in Hh.
  - destruct xs; [| discriminate]. cbn. destruct (write_go m qs ys); reflexivity.
  - cbn [app write_go]. rewrite (IH xs Hh).
    destruct (write_go m ps xs); [| reflexivity].
    destruct (write_go m qs ys); [| reflexivity]. rewrite app_assoc. reflexivity.
  - destruct xs as [|x xs]; [discriminate |]. injection Hh as Hh.
    cbn [app write_go]. rewrite (IH xs Hh). destruct (show m x); [| reflexivity].
    destruct (write_go m ps xs); [| reflexivity].
    destruct (write_go m qs ys); [| reflexivity]. rewrite app_assoc. reflexivity.
Qed.

Lemma write_go_length (m : Mem) (ps : list Piece) (xs : list Arg) (r : bytes) :
  write_go m ps xs = Some r -> (holes ps <= length xs)%nat.
Proof.
  revert xs r. induction ps as [|[s|] ps IH]; intros xs r; cbn [write_go holes].
  - lia.
  - destruct (write_go m ps xs) eqn:E; [| discriminate]. intros _. eapply IH, E.
  - destruct xs as [|x xs]; [discriminate |]. destruct (show m x); [| discriminate].
    destruct (write_go m ps xs) eqn:E; [| discriminate].
    intros _. cbn [length]. apply le_n_S. eapply IH, E.
Qed.

(** Well-formed arguments whose slices are valid always render: the
    macro has checked that no placeholder lacks its argument. *)
Lemma write_defined (m : Mem) (a : Arguments) :
  wf_arguments a -> Forall (fun x => show m x <> None) (args a) -> write m a <> None.
Proof.
  unfold wf_arguments, write. destruct a as [ps xs]. cbn [pieces args]. revert xs.
  induction ps as [|[s|] ps IH]; intros xs Hh Hx; cbn [write_go holes] in *.
  - discriminate.
  - specialize (IH xs Hh Hx). destruct (write_go m ps xs); [discriminate | contradiction].
  - destruct xs as [|x xs]; [discriminate |]. injection Hh as Hh.
    apply Forall_cons_iff in Hx. destruct Hx as [Hx Hxs]. specialize (IH xs Hh Hxs).
    destruct (show m x); [| contradiction].
    destruct (write_go m ps xs); [discriminate | contradiction].
Qed.

Lemma show_uint_length {T : Target} (m : Mem) (n : Z) (b : bytes) :
  is_uint n -> show m (ArgUint n) = Some b -> (1 <= length b <= 20)%nat.
Proof. intros Hn [= <-]. apply to_dec_uint_length, Hn. Qed.
