(* ===== verification/Effects.v ===== *)
(** * Effects: what the failure path does to the world, and how it runs

    The functions of [failure.rs] have three effects: stage0 reads static
    memory to find the end of a C string, every path calls the externally
    defined [begin_unwind], and the lang items end in [intrinsics::abort].
    Programs are interaction trees over these events; this file gives the
    events, the world that answers them, and an executable interpreter.

    - [memE], [externE], [abortE]: the events. [Abort] is answered in
      [void]: nothing follows it. [Extern] is answered in [unit]: the
      symbol is declared [-> !], but it is defined by another crate and
      bound when the program is linked, so the model lets it return and
      makes the caller's next statement reachable.
    - [Symbol]: how the extern is named, by link name or as a lang item.
    - [World]: the static memory and the hook linked under each symbol;
      a [Hook] says for each call whether it returns.
    - [run]: the interpreter, by recursion on fuel. It yields the
      [Outcome] of the run and the trace of observable events, or [None]
      when the fuel does not suffice. One unit of fuel is used per node of
      the tree, so a tree without loops runs in fuel equal to its depth.
    - the theory of [run]: more fuel changes nothing ([run_mono]), runs of
      a sequence compose ([run_bind], [run_bind_ended]), and [run] cannot
      tell strongly bisimilar trees apart ([run_eq_itree]); weakly
      bisimilar trees, which differ in silent steps only, end alike given
      enough fuel ([run_eutt], [ends_in_Proper]).
    - [step] and [steps]: the same semantics one node at a time, for the
      interleaving of threads; [run_steps] shows that [run] is [steps]
      that reached an outcome, and [step_abort] that a step emits the
      abort exactly when it ends in [Aborted].
    - [Diverges] and [Lawful]: the contract of the hook, as classes.
    - [world_eq]: worlds with the same memory and hooks that answer
      alike; [run] and [Lawful] respect it ([run_world_Proper],
      [Lawful_Proper]). *)

From Stdlib Require Import ZArith List Ascii Bool Lia Morphisms.
From Paco Require Import paco.
From ITree Require Import ITree ITreeFacts.
From S2P Require Import Prelude Uint StaticMem Fmt.
Import ListNotations ITreeNotations.
#[local] Open Scope itree_scope.

(** ** Events *)

Inductive Symbol : Type :=
| LinkName (name : bytes)
| LangItem (name : bytes).

Variant memE : Type -> Type :=
| Load (a : Z) : memE ascii.

Variant externE : Type -> Type :=
| Extern (sym : Symbol) (fmt : Arguments) (file : str) (line : Z) : externE unit.

Variant abortE : Type -> Type :=
| Abort : abortE void.

Definition failE : Type -> Type := memE +' externE +' abortE.

(** ** The world *)

Inductive HookResult : Type :=
| NeverReturns
| Returns.

Definition Hook : Type := Arguments -> str -> Z -> HookResult.

Record World : Type := MkWorld { mem : Mem; linked : Symbol -> option Hook }.

(** ** Runs *)

Inductive End : Type :=
| Halted
| Aborted
| Fault (a : Z)
| Unresolved (sym : Symbol).

Inductive Outcome (R : Type) : Type :=
| Returned (r : R)
| Ended (e : End).
Arguments Returned {R} r.
Arguments Ended {R} e.

Inductive Obs : Type :=
| ObsCall (sym : Symbol) (fmt : Arguments) (file : str) (line : Z)
| ObsAbort.

Definition Run (R : Type) : Type := option (Outcome R * list Obs).

Definition observed {R : Type} (o : Obs) (r : Run R) : Run R :=
  option_map (fun '(out, tr) => (out, o :: tr)) r.

Definition run_load {R : Type} (w : World) (a : Z) (k : ascii -> Run R) : Run R :=
  match load (mem w) a with
  | Some c => k c
  | None => Some (Ended (Fault a), [])
  end.

Definition run_extern {R : Type} (w : World) (sym : Symbol) (fmt : Arguments)
    (file : str) (line : Z) (k : unit -> Run R) : Run R :=
  match linked w sym with
  | None => Some (Ended (Unresolved sym), [])
  | Some h =>
      match h fmt file line with
      | NeverReturns => Some (Ended Halted, [ObsCall sym fmt file line])
      | Returns => observed (ObsCall sym fmt file line) (k tt)
      end
  end.

Definition run_event {R X : Type} (w : World) (e : failE X) : (X -> Run R) -> Run R :=
  match e with
  | inl1 m => match m in memE X' return (X' -> Run R) -> Run R with
              | Load a => run_load w a
              end
  | inr1 (inl1 x) => match x in externE X' return (X' -> Run R) -> Run R with
                     | Extern sym fmt file line => run_extern w sym fmt file line
                     end
  | inr1 (inr1 a) => match a in abortE X' return (X' -> Run R) -> Run R with
                     | Abort => fun _ => Some (Ended Aborted, [ObsAbort])
                     end
  end.

Fixpoint run {R : Type} (fuel : nat) (w : World) (t : itree failE R) : Run R :=
  match fuel with
  | O => None
  | S n =>
      match observe t with
      | RetF r => Some (Returned r, [])
      | TauF t' => run n w t'
      | VisF e k => run_event w e (fun x => run n w (k x))
      end
  end.

(** The run of a sequence: the trace of the first part, then the second. *)
Definition then_run {R S : Type} (r : Run R) (k : R -> Run S) : Run S :=
  match r with
  | None => None
  | Some (Returned x, tr) =>
      option_map (fun '(out, tr') => (out, tr ++ tr')) (k x)
  | Some (Ended e, tr) => Some (Ended e, tr)
  end.

(** ** Unfolding *)

Lemma run_S {R : Type} (n : nat) (w : World) (t : itree failE R) :
  run (S n) w t =
  match observe t with
  | RetF r => Some (Returned r, [])
  | TauF t' => run n w t'
  | VisF e k => run_event w e (fun x => run n w (k x))
  end.
Proof. reflexivity. Qed.

Lemma run_tau {R : Type} (n : nat) (w : World) (t : itree failE R) :
  run (S n) w (Tau t) = run n w t.
Proof. reflexivity. Qed.

(** ** Lifting a relation on runs through an event

    Every property of [run] below is proved by the same case analysis on
    the event at the root: a relation that holds of equal ended runs and
    survives [observed] lifts from the continuations to [run_event]. *)

Section Lift.
Context {R S : Type} (Q : Run R -> Run S -> Prop).
Hypothesis Q_ended : forall e tr, Q (Some (Ended e, tr)) (Some (Ended e, tr)).
Hypothesis Q_observed : forall o r s, Q r s -> Q (observed o r) (observed o s).

Lemma run_event_lift {X : Type} (w : World) (e : failE X)
    (k : X -> Run R) (k' : X -> Run S) :
  (forall x, Q (k x) (k' x)) -> Q (run_event w e k) (run_event w e k').
Proof.
  revert k k'. destruct e as [[a] | [[sym fmt file line] | []]]; intros k k' H; cbn.
  - unfold run_load. destruct (load (mem w) a); [apply H | apply Q_ended].
  - unfold run_extern. destruct (linked w sym) as [h|]; [| apply Q_ended].
    destruct (h fmt file line); [apply Q_ended | apply Q_observed, H].
  - apply Q_ended.
Qed.

End Lift.

(** ** More fuel changes nothing *)

Definition run_le {R : Type} (r r' : Run R) : Prop :=
  forall x, r = Some x -> r' = Some x.

Lemma run_le_refl {R : Type} (r : Run R) : run_le r r.
Proof. intros x H. exact H. Qed.

Lemma run_le_trans {R : Type} (r s t : Run R) : run_le r s -> run_le s t -> run_le r t.
Proof. intros H1 H2 x H. apply H2, H1, H. Qed.

Lemma observed_le {R : Type} (o : Obs) (r r' : Run R) :
  run_le r r' -> run_le (observed o r) (observed o r').
Proof.
  intros H x. destruct r as [y|]; [| discriminate].
  rewrite (H y eq_refl). auto.
Qed.

#[export] Hint Resolve run_le_refl observed_le : fail.

Lemma run_step_le {R : Type} (n : nat) (w : World) (t : itree failE R) :
  run_le (run n w t) (run (S n) w t).
Proof.
  revert t. induction n as [|n IH]; intros t; [intros x; discriminate |].
  rewrite (run_S (S n)), (run_S n). destruct (observe t) as [r | t' | X e k];
    [apply run_le_refl | apply IH |].
  apply (run_event_lift run_le); auto with fail.
Qed.

Lemma run_mono_le {R : Type} (n m : nat) (w : World) (t : itree failE R) :
  (n <= m)%nat -> run_le (run n w t) (run m w t).
Proof.
  intros Hle. induction Hle as [|m Hle IH]; [apply run_le_refl |].
  eapply run_le_trans; [exact IH | apply run_step_le].
Qed.

Lemma run_mono {R : Type} (n m : nat) (w : World) (t : itree failE R)
    (x : Outcome R * list Obs) :
  (n <= m)%nat -> run n w t = Some x -> run m w t = Some x.
Proof. intros Hle. apply run_mono_le, Hle. Qed.

(** A run, once it has a result, has only that one. *)
Lemma run_det {R : Type} (n m : nat) (w : World) (t : itree failE R)
    (x y : Outcome R * list Obs) :
  run n w t = Some x -> run m w t = Some y -> x = y.
Proof.
  intros Hx Hy. apply (run_mono n (max n m)) in Hx; [| lia].
  apply (run_mono m (max n m)) in Hy; [| lia]. congruence.
Qed.

(** ** Sequences *)

Lemma then_run_observed {R S : Type} (o : Obs) (r : Run R) (f : R -> Run S) :
  then_run (observed o r) f = observed o (then_run r f).
Proof.
  destruct r as [[[x | e] tr] |]; cbn; [| reflexivity | reflexivity].
  destruct (f x) as [[out tr'] |]; reflexivity.
Qed.

Lemma run_bind_le {R S : Type} (n m : nat) (w : World)
    (t : itree failE R) (k : R -> itree failE S) :
  run_le (then_run (run n w t) (fun x => run m w (k x)))
         (run (n + m) w (ITree.bind t k)).
Proof.
  revert t. induction n as [|n IH]; intros t; [intros x; discriminate |].
  cbn [Nat.add]. rewrite !run_S, observe_bind.
  destruct (observe t) as [r | t' | X e h]; cbn [observe _observe].
  - cbn [then_run]. rewrite <- run_S. intros [out tr] H.
    apply (run_mono m); [lia |]. destruct (run m w (k r)) as [[out' tr'] |];
      [| discriminate]. cbn in H. congruence.
  - apply IH.
  - apply (run_event_lift (fun r s =>
      run_le (then_run r (fun x => run m w (k x))) s)).
    + intros. apply run_le_refl.
    + intros o r s H. rewrite then_run_observed. apply observed_le, H.
    + intros x. apply IH.
Qed.

Lemma run_bind {R S : Type} (n m : nat) (w : World) (t : itree failE R)
    (k : R -> itree failE S) (r : R) (out : Outcome S) (tr tr' : list Obs) :
  run n w t = Some (Returned r, tr) -> run m w (k r) = Some (out, tr') ->
  run (n + m) w (ITree.bind t k) = Some (out, tr ++ tr').
Proof.
  intros Ht Hk. apply (run_bind_le n m). rewrite Ht. cbn [then_run].
  rewrite Hk. reflexivity.
Qed.

Lemma run_bind_ended {R S : Type} (n : nat) (w : World) (t : itree failE R)
    (k : R -> itree failE S) (e : End) (tr : list Obs) :
  run n w t = Some (Ended e, tr) -> run n w (ITree.bind t k) = Some (Ended e, tr).
Proof.
  intros Ht. rewrite <- (Nat.add_0_r n) at 1. apply (run_bind_le n 0).
  rewrite Ht. reflexivity.
Qed.

(** ** Strongly bisimilar trees run alike *)

Lemma run_eq_itree {R : Type} (n : nat) (w : World) (t t' : itree failE R) :
  t ≅ t' -> run n w t = run n w t'.
Proof.
  revert t t'. induction n as [|n IH]; intros t t' H; [reflexivity |].
  rewrite !run_S. apply eqit_inv in H. unfold observe. cbn in H.
  destruct (_observe t) as [r | u | X e k], (_observe t') as [r' | u' | X' e' k'];
    try contradiction.
  - congruence.
  - apply IH, H.
  - destruct H as (p & He & Hk). destruct p. cbn in He, Hk. subst e'.
    apply (run_event_lift eq); [reflexivity | congruence |].
    intros x. apply IH, Hk.
Qed.

#[export] Instance run_Proper {R : Type} (n : nat) (w : World) :
  Proper (eq_itree eq ==> eq) (@run R n w).
Proof. intros t t' H. apply run_eq_itree, H. Qed.

(** ** Weakly bisimilar trees end alike *)

(** [ends_in w t r]: the run of [t] in [w] ends in [r], given enough
    fuel. Silent steps use fuel, so weakly bisimilar trees need not end
    on the same fuel; they end in the same outcome and trace. *)
Definition ends_in {R : Type} (w : World) (t : itree failE R) (r : Outcome R * list Obs) : Prop :=
  exists n, run n w t = Some r.

Lemma ends_in_tau {R : Type} (w : World) (t u : itree failE R) (r : Outcome R * list Obs) :
  observe t = TauF u -> ends_in w u r -> ends_in w t r.
Proof. intros Eo [m Hm]. exists (S m). rewrite run_S, Eo. exact Hm. Qed.

Lemma observed_Some {R : Type} (o : Obs) (x : Run R) (r : Outcome R * list Obs) :
  observed o x = Some r -> exists out tr, x = Some (out, tr) /\ r = (out, o :: tr).
Proof. destruct x as [[out tr]|]; cbn; [intros [= <-]; eauto | discriminate]. Qed.

Lemma run_event_ends {R X : Type} (w : World) (e : failE X) (k k' : X -> itree failE R)
    (n : nat) (r : Outcome R * list Obs) :
  (forall x r', run n w (k x) = Some r' -> ends_in w (k' x) r') ->
  run_event w e (fun x => run n w (k x)) = Some r ->
  exists m, run_event w e (fun x => run m w (k' x)) = Some r.
Proof.
  revert k k'. destruct e as [[a] | [[sym fmt file line] | []]]; intros k k' Hk; cbn.
  - unfold run_load. destruct (load (mem w) a) as [c|]; [apply Hk | exists O; assumption].
  - unfold run_extern. destruct (linked w sym) as [h|]; [| exists O; assumption].
    destruct (h fmt file line); [exists O; assumption |]. intros H.
    apply observed_Some in H as (out & tr & H & ->). destruct (Hk _ _ H) as [m Hm].
    exists m. rewrite Hm. reflexivity.
  - exists O. assumption.
Qed.

Lemma run_eutt {R : Type} (w : World) (n : nat) (t t' : itree failE R)
    (r : Outcome R * list Obs) :
  t ≈ t' -> run n w t = Some r -> ends_in w t' r.
Proof.
  revert t t' r. induction n as [|n IH]; intros t t' r H Hr; [discriminate |].
  rewrite run_S in Hr. punfold H. red in H.
  remember (observe t) as ot eqn:Eo. remember (observe t') as ot' eqn:Eo'.
  revert t t' Eo Eo' Hr.
  induction H as [x y Hxy | m1 m2 Hm | X e k1 k2 Hk | t1 ot2 _ _ IHt | ot1 t2 _ _ IHt];
    intros t t' Eo Eo' Hr.
  - subst y. exists 1%nat. rewrite run_S, <- Eo'. exact Hr.
  - pclearbot. exact (ends_in_tau w t' m2 r (eq_sym Eo') (IH _ _ _ Hm Hr)).
  - apply (run_event_ends w e k1 k2) in Hr as [m Hr'].
    + exists (S m). rewrite run_S, <- Eo'. exact Hr'.
    + intros x r' Hx. specialize (Hk x). pclearbot. exact (IH _ _ _ Hk Hx).
  - apply (IHt t1 t' eq_refl Eo'). rewrite <- run_S. apply (run_mono n); [lia | exact Hr].
  - exact (ends_in_tau w t' t2 r (eq_sym Eo') (IHt t t2 Eo eq_refl Hr)).
Qed.

#[export] Instance ends_in_Proper {R : Type} (w : World) :
  Proper (eutt eq ==> eq ==> iff) (@ends_in R w).
Proof.
  intros t t' H r r' <-. split; intros [n Hn]; [| symmetry in H]; exact (run_eutt w n _ _ r H Hn).
Qed.

(** ** The abort intrinsic and single events *)

Definition abort {E : Type -> Type} `{abortE -< E} : itree E void :=
  ITree.bind (trigger Abort) (fun v : void => match v with end).

Lemma run_abort (n : nat) (w : World) :
  run (S n) w abort = Some (Ended Aborted, [ObsAbort]).
Proof. reflexivity. Qed.

Lemma run_trigger_load {R : Type} (n : nat) (w : World) (a : Z) (k : ascii -> itree failE R) :
  run (S n) w (ITree.bind (trigger (Load a)) k) =
  run_load w a (fun c => run n w (k c)).
Proof.
  rewrite run_S, observe_bind. cbn. unfold run_load.
  destruct (load (mem w) a) as [c|]; [| reflexivity].
  destruct n as [|n]; [reflexivity |]. rewrite !run_S, observe_bind. reflexivity.
Qed.

Lemma run_trigger_extern {R : Type} (n : nat) (w : World) (sym : Symbol)
    (fmt : Arguments) (file : str) (line : Z) (k : unit -> itree failE R) :
  run (S n) w (ITree.bind (trigger (Extern sym fmt file line)) k) =
  run_extern w sym fmt file line (fun x => run n w (k x)).
Proof.
  rewrite run_S, observe_bind. cbn. unfold run_extern.
  destruct (linked w sym) as [h|]; [| reflexivity].
  destruct (h fmt file line); [reflexivity |]. f_equal.
  destruct n as [|n]; [reflexivity |]. rewrite !run_S, observe_bind. reflexivity.
Qed.

(** ** One step at a time

    [step] runs one node of a tree; [steps n] runs [n] of them. [run] is
    [steps] that reached an outcome ([run_steps]). Several threads are
    interleaved step by step in [Threads]. *)

Inductive Status (R : Type) : Type :=
| Running (t : itree failE R)
| Done (o : Outcome R).
Arguments Running {R} t.
Arguments Done {R} o.

Definition step_load {R : Type} (w : World) (a : Z) (k : ascii -> itree failE R) :
    Status R * list Obs :=
  match load (mem w) a with
  | Some c => (Running (k c), [])
  | None => (Done (Ended (Fault a)), [])
  end.

Definition step_extern {R : Type} (w : World) (sym : Symbol) (fmt : Arguments)
    (file : str) (line : Z) (k : unit -> itree failE R) : Status R * list Obs :=
  match linked w sym with
  | None => (Done (Ended (Unresolved sym)), [])
  | Some h =>
      match h fmt file line with
      | NeverReturns => (Done (Ended Halted), [ObsCall sym fmt file line])
      | Returns => (Running (k tt), [ObsCall sym fmt file line])
      end
  end.

Definition step_event {R X : Type} (w : World) (e : failE X) :
    (X -> itree failE R) -> Status R * list Obs :=
  match e with
  | inl1 m => match m in memE X' return (X' -> itree failE R) -> Status R * list Obs with
              | Load a => step_load w a
              end
  | inr1 (inl1 x) =>
      match x in externE X' return (X' -> itree failE R) -> Status R * list Obs with
      | Extern sym fmt file line => step_extern w sym fmt file line
      end
  | inr1 (inr1 a) =>
      match a in abortE X' return (X' -> itree failE R) -> Status R * list Obs with
      | Abort => fun _ => (Done (Ended Aborted), [ObsAbort])
      end
  end.

Definition step {R : Type} (w : World) (t : itree failE R) : Status R * list Obs :=
  match observe t with
  | RetF r => (Done (Returned r), [])
  | TauF t' => (Running t', [])
  | VisF e k => step_event w e k
  end.

(** [after tr x] puts the trace [tr] before the trace of [x]. *)
Definition after {A : Type} (tr : list Obs) (x : A * list Obs) : A * list Obs :=
  (fst x, tr ++ snd x).

Definition step_status {R : Type} (w : World) (s : Status R) : Status R * list Obs :=
  match s with
  | Running t => step w t
  | Done o => (Done o, [])
  end.

Fixpoint steps {R : Type} (n : nat) (w : World) (s : Status R) : Status R * list Obs :=
  match n with
  | O => (s, [])
  | S n' => let x := step_status w s in after (snd x) (steps n' w (fst x))
  end.

Definition finished {R : Type} (x : Status R * list Obs) : Run R :=
  match fst x with
  | Done o => Some (o, snd x)
  | Running _ => None
  end.

Lemma after_nil {A : Type} (x : A * list Obs) : after [] x = x.
Proof. destruct x. reflexivity. Qed.

Lemma after_after {A : Type} (tr tr' : list Obs) (x : A * list Obs) :
  after tr (after tr' x) = after (tr ++ tr') x.
Proof. unfold after. cbn [fst snd]. rewrite app_assoc. reflexivity. Qed.

Lemma finished_after {R : Type} (o : Obs) (x : Status R * list Obs) :
  finished (after [o] x) = observed o (finished x).
Proof. destruct x as [[t | out] tr]; reflexivity. Qed.

Lemma steps_done {R : Type} (n : nat) (w : World) (o : Outcome R) :
  steps n w (Done o) = (Done o, []).
Proof.
  induction n as [|n IH]; [reflexivity |].
  cbn [steps step_status fst snd]. rewrite IH. reflexivity.
Qed.

Lemma steps_add {R : Type} (n m : nat) (w : World) (s : Status R) :
  steps (n + m) w s = after (snd (steps n w s)) (steps m w (fst (steps n w s))).
Proof.
  revert s. induction n as [|n IH]; intros s; cbn [Nat.add steps fst snd].
  - rewrite after_nil. reflexivity.
  - rewrite IH. unfold after at 3. cbn [fst snd]. rewrite after_after. reflexivity.
Qed.

(** [run] is [steps] that reached an outcome. *)
Lemma run_steps {R : Type} (n : nat) (w : World) (t : itree failE R) :
  run n w t = finished (steps n w (Running t)).
Proof.
  revert t. induction n as [|n IH]; intros t; [reflexivity |].
  rewrite run_S. cbn [steps step_status]. unfold step.
  destruct (observe t) as [r | t' | X e k]; cbn [fst snd].
  - rewrite steps_done. reflexivity.
  - rewrite after_nil. apply IH.
  - revert k. destruct e as [[a] | [[sym fmt file line] | []]]; intros k; cbn.
    + unfold run_load, step_load. destruct (load (mem w) a); cbn [fst snd].
      * rewrite after_nil. apply IH.
      * rewrite steps_done. reflexivity.
    + unfold run_extern, step_extern. destruct (linked w sym) as [h|]; cbn [fst snd];
        [| rewrite steps_done; reflexivity].
      destruct (h fmt file line); cbn [fst snd]; [rewrite steps_done; reflexivity |].
      rewrite finished_after, IH. reflexivity.
    + rewrite steps_done. reflexivity.
Qed.

(** ** Where the abort can stand

    A step emits at most one event, and it emits [ObsAbort] exactly when
    it ends in [Aborted]. *)

Definition is_aborted {R : Type} (s : Status R) : bool :=
  match s with
  | Done (Ended Aborted) => true
  | _ => false
  end.

Definition is_abort (o : Obs) : bool :=
  match o with
  | ObsAbort => true
  | ObsCall _ _ _ _ => false
  end.

Lemma step_abort {R : Type} (w : World) (t : itree failE R) :
  (is_aborted (fst (step w t)) = true /\ snd (step w t) = [ObsAbort]) \/
  (is_aborted (fst (step w t)) = false /\ existsb is_abort (snd (step w t)) = false).
Proof.
  unfold step. destruct (observe t) as [r | t' | X e k]; [right; auto | right; auto |].
  revert k. destruct e as [[a] | [[sym fmt file line] | []]]; intros k; cbn.
  - unfold step_load. destruct (load (mem w) a); right; auto.
  - unfold step_extern. destruct (linked w sym) as [h|]; [| right; auto].
    destruct (h fmt file line); right; auto.
  - left. auto.
Qed.

(** ** The contract of the hook

    The symbol is declared [-> !]: the crate that defines it promises
    that it does not return. The promise is a class, so that theorems
    about lawful worlds are stated against it and the worlds that keep
    it are its instances. *)

Class Diverges (h : Hook) : Prop :=
  hook_diverges : forall fmt file line, h fmt file line = NeverReturns.

Class Lawful (w : World) : Prop :=
  lawful_hook : forall sym h, linked w sym = Some h -> Diverges h.

#[export] Instance never_returns_Diverges : Diverges (fun _ _ _ => NeverReturns).
Proof. intros fmt file line. reflexivity. Qed.

(** ** Worlds that cannot be told apart

    Two worlds are equivalent when they have the same memory and bind
    the same symbols to hooks that answer alike. *)

Definition hook_eq (o o' : option Hook) : Prop :=
  match o, o' with
  | Some h, Some h' => forall fmt file line, h fmt file line = h' fmt file line
  | None, None => True
  | _, _ => False
  end.

Definition world_eq (w w' : World) : Prop :=
  mem w = mem w' /\ forall sym, hook_eq (linked w sym) (linked w' sym).

#[export] Instance hook_eq_Equivalence : Equivalence hook_eq.
Proof.
  split.
  - intros [h|]; cbn; auto.
  - intros [h|] [h'|]; cbn; auto.
  - intros [h|] [h'|] [h''|]; cbn; try tauto. intros H H' fmt file line.
    rewrite H. apply H'.
Qed.

#[export] Instance world_eq_Equivalence : Equivalence world_eq.
Proof.
  split.
  - intros w. split; [reflexivity | intros sym; reflexivity].
  - intros w w' [Hm Hl]. split; [symmetry; exact Hm | intros sym; symmetry; apply Hl].
  - intros w w' w'' [Hm Hl] [Hm' Hl'].
    split; [congruence | intros sym; etransitivity; [apply Hl | apply Hl']].
Qed.

Lemma run_event_world {R X : Type} (w w' : World) (e : failE X) (k k' : X -> Run R) :
  world_eq w w' -> (forall x, k x = k' x) -> run_event w e k = run_event w' e k'.
Proof.
  intros [Hm Hl] Hk. revert k k' Hk.
  destruct e as [[a] | [[sym fmt file line] | []]]; intros k k' Hk; cbn.
  - unfold run_load. rewrite <- Hm. destruct (load (mem w) a); [apply Hk | reflexivity].
  - unfold run_extern. specialize (Hl sym).
    destruct (linked w sym) as [h|], (linked w' sym) as [h'|]; cbn in Hl;
      try contradiction; [| reflexivity].
    rewrite <- Hl. destruct (h fmt file line); [reflexivity | f_equal; apply Hk].
  - reflexivity.
Qed.

#[export] Instance run_world_Proper {R : Type} (n : nat) :
  Proper (world_eq ==> eq ==> eq) (@run R n).
Proof.
  intros w w' Hw t t' <-. revert t. induction n as [|n IH]; intros t; [reflexivity |].
  rewrite !run_S. destruct (observe t) as [r | u | X e k]; [reflexivity | apply IH |].
  apply run_event_world; [exact Hw | intros x; apply IH].
Qed.

#[export] Instance Lawful_Proper : Proper (world_eq ==> iff) Lawful.
Proof.
  enough (forall w w', world_eq w w' -> Lawful w -> Lawful w') as H
    by (intros w w' Hw; split; apply H; [exact Hw | symmetry; exact Hw]).
  intros w w' [_ Hl] Hlaw sym h' Hs fmt file line. specialize (Hl sym). rewrite Hs in Hl.
  destruct (linked w sym) as [h|] eqn:E; cbn in Hl; [| contradiction].
  rewrite <- Hl. apply (Hlaw sym h E).
Qed.
