(* ===== verification/CStr.v ===== *)
(** * CStr: converting a C string to a static slice

    The stage0 lang items receive file names and messages as [*u8] and turn
    them into [&'static str] with [str::raw::c_str_to_static_slice] before
    anything else happens. That function is outside the repository; it is
    modelled from the specification: scan forward from the pointer until a
    zero byte is found, then build a slice over the same bytes, with no
    copy and no bound on the scan.

    - [scan_step] and [c_str_to_static_slice]: the loop, one [Load] per
      byte, with the length counted in a [uint];
    - [wf_world]: the static segment is smaller than the address space, so
      that no address inside it wraps around;
    - the theory: the loop skips bytes that are not zero at two units of
      fuel each ([run_scan_skip]); on a terminated string it returns the
      slice that the reference [c_strlen] describes ([run_c_str_then]); on
      a string that runs to the end of the segment it faults at the first
      address outside ([run_c_str_fault_then]);
    - [convert]: the reference of the conversion on every pointer, a
      slice or the address of the fault; in every world the loop ends
      within [scan_fuel] of the size of the segment and ends as [convert]
      says ([run_c_str_convert]), so that any postcondition that faults
      satisfy holds of it ([run_c_str_total]).

    Reading outside the static segment is undefined behaviour in the
    source; the model gives it a value, the outcome [Fault], so that the
    theorems can say what has and has not happened before it. *)

From Stdlib Require Import ZArith List Ascii Bool Lia Morphisms.
From ITree Require Import ITree ITreeFacts.
From S2P Require Import Prelude Uint StaticMem Fmt Effects.
Import ListNotations ITreeNotations.
#[local] Open Scope itree_scope.
#[local] Open Scope Z_scope.

Section Scan.
Context {T : Target} {E : Type -> Type} `{memE -< E}.

Definition scan_step (s len : Z) : itree E (Z + Z) :=
  c <- trigger (Load (uint_add s len)) ;;
  if Ascii.eqb c NUL then Ret (inr len) else Ret (inl (uint_add len 1)).

Definition c_str_to_static_slice (s : Z) : itree E str :=
  len <- ITree.iter (scan_step s) 0 ;;
  Ret (Slice s len).

End Scan.

Definition wf_world {T : Target} (w : World) : Prop :=
  Z.of_nat (length (mem w)) < uint_modulus.

(** [nonzero_run m a d]: the [d] bytes of [m] from address [a] on exist
    and none is zero. *)
Definition nonzero_run (m : Mem) (a : Z) (d : nat) : Prop :=
  forall x, 0 <= x < Z.of_nat d -> exists c, load m (a + x) = Some c /\ c <> NUL.

(** [unterminated m p]: from [p] to the end of the segment no byte is zero. *)
Definition unterminated (m : Mem) (p : Z) : Prop :=
  0 <= p <= Z.of_nat (length m) /\ nonzero_run m p (length m - Z.to_nat p).

Section ScanTheory.
Context {T : Target}.

(** ** One iteration *)

Lemma run_scan_iter {R : Type} (n : nat) (w : World) (s i : Z) (k : Z -> itree failE R) :
  run (S n) w (ITree.bind (ITree.iter (scan_step s) i) k) =
  run_load w (uint_add s i) (fun c =>
    run n w (if Ascii.eqb c NUL then k i
             else Tau (ITree.bind (ITree.iter (scan_step s) (uint_add i 1)) k))).
Proof.
  rewrite unfold_iter. unfold scan_step at 1. rewrite !bind_bind, run_trigger_load.
  unfold run_load. destruct (load (mem w) (uint_add s i)) as [c|]; [| reflexivity].
  apply run_eq_itree. destruct (Ascii.eqb c NUL); rewrite !bind_ret_l.
  - reflexivity.
  - rewrite bind_tau. reflexivity.
Qed.

Lemma nonzero_run_S (m : Mem) (a : Z) (d : nat) :
  nonzero_run m a (S d) ->
  (exists c, load m a = Some c /\ c <> NUL) /\ nonzero_run m (a + 1) d.
Proof.
  intros H. split.
  - destruct (H 0) as (c & Hc & Hne); [lia |]. rewrite Z.add_0_r in Hc. eauto.
  - intros x Hx. destruct (H (1 + x)) as (c & Hc & Hne); [lia |].
    rewrite Z.add_assoc in Hc. eauto.
Qed.

(** ** Skipping bytes that are not zero *)

Lemma run_scan_skip {R : Type} (w : World) (s i : Z) (d f : nat) (k : Z -> itree failE R) :
  0 <= s -> 0 <= i -> s + i + Z.of_nat d < uint_modulus ->
  nonzero_run (mem w) (s + i) d ->
  run (2 * d + f) w (ITree.bind (ITree.iter (scan_step s) i) k) =
  run f w (ITree.bind (ITree.iter (scan_step s) (i + Z.of_nat d)) k).
Proof.
  revert i. induction d as [|d IH]; intros i Hs Hi Hlt Hnz.
  { cbn [Nat.mul Nat.add Z.of_nat]. rewrite Z.add_0_r. reflexivity. }
  apply nonzero_run_S in Hnz. destruct Hnz as [(c & Hc & Hne) Hnz].
  replace (2 * S d + f)%nat with (S (S (2 * d + f))) by lia.
  rewrite run_scan_iter, !uint_add_nowrap by lia. unfold run_load. rewrite Hc.
  apply Ascii.eqb_neq in Hne. rewrite Hne, run_tau, IH; try lia.
  - f_equal. f_equal. f_equal. lia.
  - replace (s + (i + 1)) with (s + i + 1) by lia. exact Hnz.
Qed.

(** ** The two ends of a scan *)

Lemma run_scan_nul {R : Type} (n : nat) (w : World) (s i : Z) (k : Z -> itree failE R) :
  0 <= s -> 0 <= i -> s + i < uint_modulus ->
  load (mem w) (s + i) = Some NUL ->
  run (S n) w (ITree.bind (ITree.iter (scan_step s) i) k) = run n w (k i).
Proof.
  intros Hs Hi Hlt Hnul. rewrite run_scan_iter, uint_add_nowrap by lia.
  unfold run_load. rewrite Hnul. reflexivity.
Qed.

Lemma run_scan_outside {R : Type} (n : nat) (w : World) (s i : Z) (k : Z -> itree failE R) :
  0 <= s -> 0 <= i -> s + i < uint_modulus ->
  load (mem w) (s + i) = None ->
  run (S n) w (ITree.bind (ITree.iter (scan_step s) i) k) =
  Some (Ended (Fault (s + i)), []).
Proof.
  intros Hs Hi Hlt Hnone. rewrite run_scan_iter, uint_add_nowrap by lia.
  unfold run_load. rewrite Hnone. reflexivity.
Qed.

(** ** The whole conversion, followed by the rest of the caller *)

Definition scan_fuel (n : Z) : nat := 2 * Z.to_nat n + 1.

Lemma is_c_str_nonzero_run (m : Mem) (p n : Z) :
  is_c_str m p n -> nonzero_run m p (Z.to_nat n).
Proof. intros (_ & Hn & _ & Hpre) x Hx. apply Hpre. lia. Qed.

Lemma run_c_str_then {R : Type} (w : World) (p n : Z) (f : nat) (k : str -> itree failE R) :
  wf_world w -> is_c_str (mem w) p n ->
  run (scan_fuel n + f) w (ITree.bind (c_str_to_static_slice p) k) =
  run f w (k (Slice p n)).
Proof.
  intros Hw Hc. pose proof (is_c_str_nonzero_run _ _ _ Hc) as Hnz.
  destruct Hc as (Hp & Hn & Hnul & _). pose proof (load_range _ _ _ Hnul) as Hr.
  unfold wf_world in Hw. unfold c_str_to_static_slice, scan_fuel.
  rewrite bind_bind.
  replace (2 * Z.to_nat n + 1 + f)%nat with (2 * Z.to_nat n + S f)%nat by lia.
  rewrite run_scan_skip by (rewrite ?Z.add_0_r; first [lia | exact Hnz]).
  rewrite Z.add_0_l, Z2Nat.id by lia. rewrite run_scan_nul by first [lia | exact Hnul].
  apply run_eq_itree. rewrite bind_ret_l. reflexivity.
Qed.

Lemma run_c_str_fault_then {R : Type} (w : World) (p : Z) (f : nat) (k : str -> itree failE R) :
  wf_world w -> unterminated (mem w) p ->
  run (scan_fuel (Z.of_nat (length (mem w)) - p) + f) w
      (ITree.bind (c_str_to_static_slice p) k) =
  Some (Ended (Fault (Z.of_nat (length (mem w)))), []).
Proof.
  intros Hw [Hp Hnz]. unfold wf_world in Hw. unfold c_str_to_static_slice, scan_fuel.
  rewrite bind_bind.
  replace (Z.to_nat (Z.of_nat (length (mem w)) - p))
    with (length (mem w) - Z.to_nat p)%nat by lia.
  replace (2 * (length (mem w) - Z.to_nat p) + 1 + f)%nat
    with (2 * (length (mem w) - Z.to_nat p) + S f)%nat by lia.
  rewrite run_scan_skip by (rewrite ?Z.add_0_r; first [lia | exact Hnz]).
  rewrite run_scan_outside; [f_equal; f_equal; f_equal; f_equal; lia | lia | lia | lia |].
  apply load_outside. lia.
Qed.

Lemma run_c_str_outside_then {R : Type} (w : World) (p : Z) (f : nat)
    (k : str -> itree failE R) :
  is_uint p -> Z.of_nat (length (mem w)) <= p ->
  run (S f) w (ITree.bind (c_str_to_static_slice p) k) = Some (Ended (Fault p), []).
Proof.
  intros [Hp Hlt] Hout. unfold c_str_to_static_slice. rewrite bind_bind.
  rewrite run_scan_outside; rewrite ?Z.add_0_r; try lia; [reflexivity |].
  apply load_outside. lia.
Qed.

End ScanTheory.

(** ** A string is terminated or it is not *)

Lemma nonzero_run_strlen (m : Mem) (p : Z) :
  0 <= p <= Z.of_nat (length m) ->
  strlen (skipn (Z.to_nat p) m) = None -> nonzero_run m p (length m - Z.to_nat p).
Proof.
  intros Hp Hnone x Hx. apply strlen_None in Hnone.
  destruct (nth_error (skipn (Z.to_nat p) m) (Z.to_nat x)) as [c|] eqn:E.
  - exists c. split; [rewrite load_skipn, Z2Nat.id in E by lia; exact E |].
    intros ->. apply Hnone. eapply nth_error_In, E.
  - apply nth_error_None in E. rewrite length_skipn in E. lia.
Qed.

Lemma c_strlen_None (m : Mem) (p : Z) :
  0 <= p <= Z.of_nat (length m) -> c_strlen m p = None -> unterminated m p.
Proof.
  intros Hp E. split; [exact Hp |]. apply nonzero_run_strlen; [exact Hp |].
  unfold c_strlen in E. destruct (Z.ltb_spec p 0); [lia |].
  destruct (strlen (skipn (Z.to_nat p) m)); [discriminate | reflexivity].
Qed.

Lemma c_str_cases (m : Mem) (p : Z) :
  0 <= p <= Z.of_nat (length m) ->
  (exists n, is_c_str m p n) \/ unterminated m p.
Proof.
  intros Hp. destruct (c_strlen m p) as [n|] eqn:E.
  - left. exists n. apply c_strlen_Some, E.
  - right. apply c_strlen_None; assumption.
Qed.

(** ** The conversion always ends *)

Lemma scan_fuel_mono (n m : Z) : n <= m -> (scan_fuel n <= scan_fuel m)%nat.
Proof. unfold scan_fuel. lia. Qed.

Lemma is_c_str_terminated (m : Mem) (p n : Z) : is_c_str m p n -> ~ unterminated m p.
Proof.
  intros Hc [Hp Hnz]. pose proof (is_c_str_lt _ _ _ Hc) as Hlt.
  destruct Hc as (_ & Hn & Hnul & _). destruct (Hnz n) as (c & Hc & Hne); [lia | congruence].
Qed.

(** With fuel for the whole segment, an unterminated string faults. *)
Lemma run_c_str_fault_ge {T : Target} {R : Type} (w : World) (p : Z) (f : nat)
    (k : str -> itree failE R) :
  wf_world w -> unterminated (mem w) p ->
  (scan_fuel (Z.of_nat (length (mem w)) - p) <= f)%nat ->
  run f w (ITree.bind (c_str_to_static_slice p) k) =
  Some (Ended (Fault (Z.of_nat (length (mem w)))), []).
Proof.
  intros Hw Hu Hf. fuel_sum Hf.
  apply run_c_str_fault_then; assumption.
Qed.

(** ** The conversion against its reference

    [convert m p] says what the conversion of [p] gives in the segment
    [m]: the slice up to the first zero byte, or a fault at the first
    address that the scan reads outside the segment. [converted] is the
    run of a conversion followed by [k], by that reference. *)

Definition convert (m : Mem) (p : Z) : Z + str :=
  match c_strlen m p with
  | Some n => inr (Slice p n)
  | None => inl (Z.max p (Z.of_nat (length m)))
  end.

Definition converted {R : Type} (m : Mem) (p : Z) (k : str -> Run R) : Run R :=
  match convert m p with
  | inr s => k s
  | inl a => Some (Ended (Fault a), [])
  end.

Lemma convert_c_str (m : Mem) (p n : Z) : is_c_str m p n -> convert m p = inr (Slice p n).
Proof. intros H. apply c_strlen_Some in H. unfold convert. rewrite H. reflexivity. Qed.

Lemma convert_unterminated (m : Mem) (p : Z) :
  unterminated m p -> convert m p = inl (Z.of_nat (length m)).
Proof.
  intros Hu. unfold convert. destruct (c_strlen m p) as [n|] eqn:E.
  - apply c_strlen_Some in E. destruct (is_c_str_terminated _ _ _ E Hu).
  - destruct Hu as [Hp _]. f_equal. lia.
Qed.

Lemma convert_outside (m : Mem) (p : Z) :
  Z.of_nat (length m) <= p -> convert m p = inl p.
Proof.
  intros Hp. unfold convert. destruct (c_strlen m p) as [n|] eqn:E.
  - apply c_strlen_Some, is_c_str_lt in E. lia.
  - f_equal. lia.
Qed.

(** Whatever the pointer, the conversion ends within the fuel of a scan
    of the whole segment, and it ends as [convert] says. *)
Lemma run_c_str_convert {T : Target} {R : Type} (w : World) (p : Z) (g : nat)
    (k : str -> itree failE R) :
  wf_world w -> is_uint p ->
  run_le (converted (mem w) p (fun s => run g w (k s)))
         (run (scan_fuel (Z.of_nat (length (mem w))) + g) w
            (ITree.bind (c_str_to_static_slice p) k)).
Proof.
  intros Hw Hp. unfold converted.
  destruct (Z.le_gt_cases p (Z.of_nat (length (mem w)))) as [Hle | Hgt].
  - destruct (c_str_cases (mem w) p) as [[n Hc] | Hu]; [destruct Hp; lia | |].
    + rewrite (convert_c_str _ _ _ Hc), <- (run_c_str_then w p n g k Hw Hc).
      apply run_mono_le, Nat.add_le_mono_r, scan_fuel_mono.
      apply is_c_str_lt in Hc. lia.
    + rewrite (convert_unterminated _ _ Hu). intros x [= <-].
      apply run_c_str_fault_ge; [assumption | assumption |].
      etransitivity; [apply scan_fuel_mono | apply Nat.le_add_r]. destruct Hp. lia.
  - rewrite convert_outside by lia. intros x [= <-].
    apply (run_mono 1); [unfold scan_fuel; lia |].
    apply run_c_str_outside_then; [exact Hp | lia].
Qed.

(** What holds of every fault before any call and of every run of the
    rest holds of the whole. *)
Lemma run_c_str_total {T : Target} {R : Type} (Q : Outcome R * list Obs -> Prop)
    (w : World) (p : Z) (g : nat) (k : str -> itree failE R) :
  wf_world w -> is_uint p ->
  (forall a, Q (Ended (Fault a), [])) ->
  (forall s, exists r, run g w (k s) = Some r /\ Q r) ->
  exists r, run (scan_fuel (Z.of_nat (length (mem w))) + g) w
              (ITree.bind (c_str_to_static_slice p) k) = Some r /\ Q r.
Proof.
  intros Hw Hp HQ Hk. pose proof (run_c_str_convert w p g k Hw Hp) as H.
  unfold converted in H. destruct (convert (mem w) p) as [a | s].
  - eexists. split; [apply H; reflexivity | apply HQ].
  - destruct (Hk s) as (r & Hr & Hq). exists r. split; [apply H, Hr | exact Hq].
Qed.
