(* ===== verification/Spec.v ===== *)
(** * Spec: what the failure boundary promises

    The abstract side of the development, written from the specification
    alone and independent of how [failure.rs] is coded.

    - [Location] and [Failure]: a failure is explicit, with a message, or
      a bounds violation, with the index and the length; both carry the
      file and line they were raised at. [message_of] is the text the
      dispatch hook must receive.
    - [Signal]: what the boundary does that can be observed: it hands a
      message and a location to the dispatch hook, and it invokes the
      abort primitive.
    - [Machine]: the state machine of one failure call,
      [Idle -> Formatting -> Dispatching -> Halted | Aborted], as a
      labelled step relation, with its executable summary [Machine.raise]
      and its theory: determinism, termination in three steps, terminal
      states without successor, no way back to [Idle], one dispatch per
      call and the abort only after a hook that returned. A step emits at
      most one signal: the dispatch on entering [Dispatching], the abort
      on leaving it for [Aborted]; [steps_split] cuts a run at any
      signal.
    - [abs_obs], [abs_trace], [abs_end] and [abs_run]: the abstraction
      function from runs of the implementation (events over pointers into
      static memory) to runs of the machine (signals over texts), and
      [refines], which the refinement theorems of [Failure] state: a run
      refines the machine when its abstraction is a complete run
      ([complete_run]), which is the one [Machine.raise] computes
      ([refines_raise]).
    - [read_bounds]: the reader of a bounds message, inverse to its
      rendering ([read_bounds_message]). *)

From Stdlib Require Import ZArith List Ascii Bool Lia.
From S2P Require Import Prelude Uint StaticMem Fmt Effects.
Import ListNotations.
#[local] Open Scope fail_scope.

(** ** Failures *)

Record Location : Type := MkLocation { loc_file : bytes; loc_line : Z }.

Inductive Failure : Type :=
| ExplicitFailure (message : bytes) (loc : Location)
| BoundsViolation (loc : Location) (index len : Z).

Definition location_of (f : Failure) : Location :=
  match f with
  | ExplicitFailure _ loc => loc
  | BoundsViolation loc _ _ => loc
  end.

Definition bounds_message (index len : Z) : bytes :=
  B "index out of bounds: the len is " ++ to_dec len ++
  B " but the index is " ++ to_dec index.

Definition message_of (f : Failure) : bytes :=
  match f with
  | ExplicitFailure message _ => message
  | BoundsViolation _ index len => bounds_message index len
  end.

(** Reading a bounds message back: what a reader of the diagnostics can
    recover from the text. *)
Fixpoint strip_prefix (p s : bytes) : option bytes :=
  match p, s with
  | [], _ => Some s
  | c :: p', d :: s' => if Ascii.eqb c d then strip_prefix p' s' else None
  | _ :: _, [] => None
  end.

Fixpoint span_digits (s : bytes) : bytes * bytes :=
  match s with
  | [] => ([], [])
  | c :: s' =>
      match digit_of c with
      | Some _ => (c :: fst (span_digits s'), snd (span_digits s'))
      | None => ([], s)
      end
  end.

Definition read_bounds (s : bytes) : option (Z * Z) :=
  r1 <-? strip_prefix (B "index out of bounds: the len is ") s ;;
  r2 <-? strip_prefix (B " but the index is ") (snd (span_digits r1)) ;;
  len <-? of_dec (fst (span_digits r1)) ;;
  index <-? of_dec r2 ;;
  Some (index, len).

Inductive Signal : Type :=
| Dispatched (message : bytes) (loc : Location)
| AbortInvoked.

(** ** The state machine of a failure call *)

Module Machine.

Inductive Phase : Type :=
| Idle
| Formatting
| Dispatching
| Halted
| Aborted.

Definition dispatch (f : Failure) : Signal := Dispatched (message_of f) (location_of f).

Section Call.
Context (returns : bool) (f : Failure).

(** The hook is invoked on entering [Dispatching], and the phase lasts
    while the hook runs: the call ends there, or the hook returns and
    the abort is invoked. *)
Inductive step : Phase -> list Signal -> Phase -> Prop :=
| step_enter : step Idle [] Formatting
| step_format : step Formatting [dispatch f] Dispatching
| step_halt : returns = false -> step Dispatching [] Halted
| step_abort : returns = true -> step Dispatching [AbortInvoked] Aborted.

Inductive steps : Phase -> list Signal -> Phase -> Prop :=
| steps_refl p : steps p [] p
| steps_step p l q l' r : step p l q -> steps q l' r -> steps p (l ++ l') r.

Definition next (p : Phase) : option (list Signal * Phase) :=
  match p with
  | Idle => Some ([], Formatting)
  | Formatting => Some ([dispatch f], Dispatching)
  | Dispatching => if returns then Some ([AbortInvoked], Aborted) else Some ([], Halted)
  | Halted | Aborted => None
  end.

Definition raise : Phase * list Signal :=
  if returns then (Aborted, [dispatch f; AbortInvoked]) else (Halted, [dispatch f]).

End Call.

Definition terminal (p : Phase) : Prop := p = Halted \/ p = Aborted.

(** A complete run of the machine: from [Idle] to a terminal phase. *)
Definition complete_run (returns : bool) (f : Failure) (x : Phase * list Signal) : Prop :=
  steps returns f Idle (snd x) (fst x) /\ terminal (fst x).

Definition rank (p : Phase) : nat :=
  match p with
  | Idle => 3
  | Formatting => 2
  | Dispatching => 1
  | Halted | Aborted => 0
  end.

End Machine.

(** ** From runs of the implementation to runs of the machine *)

Definition abs_obs (m : Mem) (o : Obs) : option Signal :=
  match o with
  | ObsCall _ fmt file line =>
      message <-? write m fmt ;;
      name <-? str_bytes m file ;;
      Some (Dispatched message (MkLocation name line))
  | ObsAbort => Some AbortInvoked
  end.

Fixpoint abs_trace (m : Mem) (tr : list Obs) : option (list Signal) :=
  match tr with
  | [] => Some []
  | o :: tr' => s <-? abs_obs m o ;; l <-? abs_trace m tr' ;; Some (s :: l)
  end.

Definition abs_end (e : End) : option Machine.Phase :=
  match e with
  | Halted => Some Machine.Halted
  | Aborted => Some Machine.Aborted
  | Fault _ | Unresolved _ => None
  end.

Definition abs_outcome {R : Type} (o : Outcome R) : option Machine.Phase :=
  match o with
  | Ended e => abs_end e
  | Returned _ => None
  end.

Definition abs_run {R : Type} (m : Mem) (r : Run R) : option (Machine.Phase * list Signal) :=
  x <-? r ;; p <-? abs_outcome (fst x) ;; l <-? abs_trace m (snd x) ;; Some (p, l).

Definition returns_of (r : HookResult) : bool :=
  match r with
  | NeverReturns => false
  | Returns => true
  end.

(** [refines m r returns f]: the run [r] of the implementation, read
    through the abstraction, is a complete run of the machine for the
    failure [f] and a hook that returns or not as [returns] says. *)
Definition refines {R : Type} (m : Mem) (r : Run R) (returns : bool) (f : Failure) : Prop :=
  exists x, abs_run m r = Some x /\ Machine.complete_run returns f x.

(** ** Reading a bounds message *)

Lemma strip_prefix_app (p r : bytes) : strip_prefix p (p ++ r) = Some r.
Proof.
  induction p as [|c p IH]; [destruct r; reflexivity |].
  cbn [app strip_prefix]. rewrite Ascii.eqb_refl. exact IH.
Qed.

Lemma span_digits_app (l r : bytes) (c : ascii) :
  Forall is_digit l -> digit_of c = None -> span_digits (l ++ c :: r) = (l, c :: r).
Proof.
  intros Hl Hc. induction Hl as [|d l (k & Hk & ->) _ IH]; cbn [app span_digits].
  - rewrite Hc. reflexivity.
  - rewrite digit_of_digit_char, IH by exact Hk. reflexivity.
Qed.

Lemma span_digits_to_dec (n : Z) (r : bytes) :
  (0 <= n < 10 ^ Z.of_nat DEC_BUF)%Z ->
  span_digits (to_dec n ++ B " but the index is " ++ r) =
  (to_dec n, B " but the index is " ++ r).
Proof.
  intros Hn. apply (span_digits_app _ (B "but the index is " ++ r) " "%char).
  - apply to_dec_digits, Hn.
  - vm_compute. reflexivity.
Qed.

Lemma read_bounds_message (index len : Z) :
  (0 <= index < 10 ^ Z.of_nat DEC_BUF)%Z -> (0 <= len < 10 ^ Z.of_nat DEC_BUF)%Z ->
  read_bounds (bounds_message index len) = Some (index, len).
Proof.
  intros Hi Hl. unfold read_bounds, bounds_message.
  rewrite strip_prefix_app, span_digits_to_dec by exact Hl. cbn [fst snd].
  rewrite strip_prefix_app, !of_dec_to_dec by assumption. reflexivity.
Qed.

Lemma length_bounds_message {T : Target} (index len : Z) :
  is_uint index -> is_uint len ->
  (52 <= length (bounds_message index len) <= 90)%nat.
Proof.
  intros Hi Hl. unfold bounds_message. rewrite !length_app.
  pose proof (to_dec_uint_length _ Hi). pose proof (to_dec_uint_length _ Hl).
  change (length (B "index out of bounds: the len is ")) with 32%nat.
  change (length (B " but the index is ")) with 18%nat. lia.
Qed.

(** ** Theory of the machine *)

Section MachineTheory.
Import Machine.
Context (returns : bool) (f : Failure).

Lemma step_next (p q : Phase) (l : list Signal) :
  step returns f p l q <-> next returns f p = Some (l, q).
Proof.
  split.
  - intros []; cbn; try reflexivity; subst returns; reflexivity.
  - destruct p; cbn; try discriminate; try (intros [= <- <-]; constructor).
    destruct returns eqn:E; intros [= <- <-]; constructor; reflexivity.
Qed.

Lemma step_deterministic (p q q' : Phase) (l l' : list Signal) :
  step returns f p l q -> step returns f p l' q' -> l = l' /\ q = q'.
Proof. rewrite !step_next. intros H H'. split; congruence. Qed.

Lemma step_rank (p q : Phase) (l : list Signal) :
  step returns f p l q -> rank p = S (rank q).
Proof. intros []; reflexivity. Qed.

Lemma terminal_irreducible (p q : Phase) (l : list Signal) :
  terminal p -> ~ step returns f p l q.
Proof. intros [-> | ->] H; inversion H. Qed.

Lemma irreducible_terminal (p : Phase) :
  (forall l q, ~ step returns f p l q) -> terminal p.
Proof.
  intros H. destruct p; try (left; reflexivity); try (right; reflexivity); exfalso.
  - exact (H _ _ (step_enter _ _)).
  - exact (H _ _ (step_format _ _)).
  - destruct (next returns f Dispatching) as [[l q]|] eqn:E.
    + apply step_next in E. exact (H _ _ E).
    + cbn in E. destruct returns; discriminate.
Qed.

Lemma no_step_to_idle (p : Phase) (l : list Signal) : ~ step returns f p l Idle.
Proof. intros H. inversion H. Qed.

Lemma steps_trans (p q r : Phase) (l l' : list Signal) :
  steps returns f p l q -> steps returns f q l' r -> steps returns f p (l ++ l') r.
Proof.
  induction 1 as [|p l0 q l1 r0 Hs Hss IH]; intros H; [exact H |].
  rewrite <- app_assoc. econstructor; [exact Hs | apply IH, H].
Qed.

Lemma steps_rank (p q : Phase) (l : list Signal) :
  steps returns f p l q -> (rank q <= rank p)%nat.
Proof.
  induction 1 as [|p l0 q l1 r Hs Hss IH]; [lia |].
  apply step_rank in Hs. lia.
Qed.

Lemma no_return_to_idle (p : Phase) (l : list Signal) :
  p <> Idle -> ~ steps returns f p l Idle.
Proof.
  intros Hp H. apply steps_rank in H. destruct p; cbn in H; try lia. congruence.
Qed.

Lemma steps_one (p q : Phase) (l : list Signal) : step returns f p l q -> steps returns f p l q.
Proof.
  intros H. rewrite <- (app_nil_r l). exact (steps_step _ _ _ _ _ _ _ H (steps_refl _ _ _)).
Qed.

Lemma steps_through (l : list Signal) (q : Phase) :
  step returns f Dispatching l q -> steps returns f Idle (dispatch f :: l) q.
Proof.
  intros H. apply (steps_step _ _ Idle [] Formatting); [constructor |].
  apply (steps_step _ _ Formatting [dispatch f] Dispatching); [constructor |].
  apply steps_one, H.
Qed.

Lemma raise_steps :
  steps returns f Idle (snd (raise returns f)) (fst (raise returns f)).
Proof.
  pose proof (steps_through (tl (snd (raise returns f))) (fst (raise returns f))) as H.
  revert H. unfold raise. destruct returns; cbn [fst snd tl]; intros H; apply H;
    constructor; reflexivity.
Qed.

Lemma raise_terminal : terminal (fst (raise returns f)).
Proof. unfold raise, terminal. destruct returns; auto. Qed.

Lemma steps_deterministic (p q q' : Phase) (l l' : list Signal) :
  steps returns f p l q -> terminal q ->
  steps returns f p l' q' -> terminal q' -> l = l' /\ q = q'.
Proof.
  intros H. revert l' q'.
  induction H as [|p l0 q l1 r Hs Hss IH]; intros l' q' Hq H' Hq'.
  - inversion H' as [|? ? ? ? ? Hs']; subst; [auto |].
    exfalso. exact (terminal_irreducible _ _ _ Hq Hs').
  - inversion H' as [|? l2 q2 l3 ? Hs' Hss']; subst.
    + exfalso. exact (terminal_irreducible _ _ _ Hq' Hs).
    + destruct (step_deterministic _ _ _ _ _ Hs Hs') as [-> ->].
      destruct (IH _ _ Hq Hss' Hq') as [-> ->]. auto.
Qed.

(** A step emits at most one signal, so a run can be cut wherever its
    signals are. *)
Lemma step_label (p q : Phase) (l : list Signal) :
  step returns f p l q -> l = [] \/ exists s, l = [s].
Proof. intros []; eauto. Qed.

Lemma steps_split (p q : Phase) (l : list Signal) :
  steps returns f p l q ->
  forall l1 l2, l = l1 ++ l2 -> exists p', steps returns f p l1 p' /\ steps returns f p' l2 q.
Proof.
  induction 1 as [p | p a q l' r Hs Hss IH]; intros l1 l2 E.
  - symmetry in E. apply app_eq_nil in E as [-> ->]. exists p. split; constructor.
  - destruct (step_label _ _ _ Hs) as [-> | [s ->]]; [| destruct l1 as [|s' l1]].
    + destruct (IH _ _ E) as (p' & H1 & H2). exists p'. split; [| exact H2].
      exact (steps_step _ _ _ [] _ _ _ Hs H1).
    + exists p. split; [constructor |]. cbn [app] in E. rewrite <- E.
      exact (steps_step _ _ _ _ _ _ _ Hs Hss).
    + injection E as <- E. destruct (IH _ _ E) as (p' & H1 & H2). exists p'.
      split; [| exact H2]. exact (steps_step _ _ _ [s] _ _ _ Hs H1).
Qed.

Lemma steps_terminal (p q : Phase) (l : list Signal) :
  terminal p -> steps returns f p l q -> l = [] /\ q = p.
Proof.
  intros Hp H. destruct H as [p | p a q l' r Hs _]; [auto |].
  exfalso. exact (terminal_irreducible _ _ _ Hp Hs).
Qed.

(** Every complete run of the machine is the one [raise] computes. *)
Lemma steps_raise (q : Phase) (l : list Signal) :
  steps returns f Idle l q -> terminal q -> (q, l) = raise returns f.
Proof.
  intros H Hq.
  destruct (steps_deterministic _ _ _ _ _ H Hq raise_steps raise_terminal) as [-> ->].
  destruct (raise returns f); reflexivity.
Qed.

Lemma complete_run_raise (x : Phase * list Signal) :
  complete_run returns f x <-> x = raise returns f.
Proof.
  split.
  - intros [H Ht]. destruct x as [p l]. apply steps_raise; assumption.
  - intros ->. split; [apply raise_steps | apply raise_terminal].
Qed.

End MachineTheory.

(** ** Theory of the abstraction *)

Lemma abs_trace_app (m : Mem) (tr tr' : list Obs) :
  abs_trace m (tr ++ tr') =
  (l <-? abs_trace m tr ;; l' <-? abs_trace m tr' ;; Some (l ++ l')).
Proof.
  induction tr as [|o tr IH]; cbn [app abs_trace].
  - destruct (abs_trace m tr'); reflexivity.
  - destruct (abs_obs m o); [| reflexivity]. rewrite IH.
    destruct (abs_trace m tr); [| reflexivity].
    destruct (abs_trace m tr'); reflexivity.
Qed.

Lemma refines_raise {R : Type} (m : Mem) (r : Run R) (returns : bool) (f : Failure) :
  refines m r returns f <-> abs_run m r = Some (Machine.raise returns f).
Proof.
  unfold refines. split.
  - intros (x & Hx & Hc). apply complete_run_raise in Hc. congruence.
  - intros H. exists (Machine.raise returns f). split; [exact H |].
    apply complete_run_raise. reflexivity.
Qed.

Lemma abs_trace_length (m : Mem) (tr : list Obs) (l : list Signal) :
  abs_trace m tr = Some l -> length l = length tr.
Proof.
  revert l. induction tr as [|o tr IH]; intros l; cbn [abs_trace].
  - intros [= <-]. reflexivity.
  - destruct (abs_obs m o); [| discriminate].
    destruct (abs_trace m tr) as [l'|]; [| discriminate].
    intros [= <-]. cbn [length]. f_equal. apply IH. reflexivity.
Qed.
