(* ===== verification/Failure.v ===== *)
(** * Failure: the functions of [src/src/libcore/failure.rs]

    The translation of the source, function by function, and the theorems
    about it.

    - [extern_begin_unwind] and [begin_unwind]: the one function every
      failure goes through. It calls a symbol that another crate defines;
      stage0 binds it by the link name [rust_begin_unwind], later stages as
      the lang item [begin_unwind].
    - [Current.fail_] and [Current.fail_bounds_check]: the lang items of
      the current stage, which take [&'static str].
    - [Stage0.fail_] and [Stage0.fail_bounds_check]: the lang items of
      stage0, which take [*u8] and convert first.
    - [FAIL_FMT] and [BOUNDS_FMT]: the two format strings.

    Each function is an interaction tree over the events of [Effects]; the
    lang items have the result type [void], as the source has [!].
    [Entry] and [enter] gather the four call shapes in one type.

    The theorems give, for every world, the run of each function: which
    symbol is called with which arguments, and what follows when the hook
    returns ([fail_run], [fail_bounds_check_run], [begin_unwind_run],
    [stage0_fail_run], [stage0_fail_bounds_check_run]); that the bounds
    message can be read back and is bounded ([bounds_message_roundtrip],
    [bounds_message_fits]); that the runs
    refine the machine of [Spec] ([fail_refines] and the like); that
    unterminated strings fault before any call; and that every run ends,
    and ends in order ([enter_total], [enter_well_ended],
    [lawful_never_aborts]). [Boundary] states the four call shapes
    against one reference and compares the stages.

    The proofs run a lang item with the tactic [run_lang_item], which
    rests on three lemmas: [run_c_str_then] of [CStr] for the
    conversions, [fail_fmt_parsed] and [bounds_fmt_parsed] for the format
    strings, and [run_unwind_abort] for the call and the abort. *)

From Stdlib Require Import ZArith List Ascii Bool Lia.
From ITree Require Import ITree ITreeFacts.
From S2P Require Import Prelude Uint StaticMem Fmt Effects CStr Spec.
Import ListNotations ITreeNotations.
#[local] Open Scope itree_scope.
#[local] Open Scope Z_scope.

(** ** The source *)

Definition extern_begin_unwind (stage0 : bool) : Symbol :=
  if stage0 then LinkName (B "rust_begin_unwind") else LangItem (B "begin_unwind").

Definition FAIL_FMT : bytes := B "{}".

Definition BOUNDS_FMT : bytes :=
  B "index out of bounds: the len is {} but the index is {}".

Section BeginUnwind.
Context {E : Type -> Type} `{externE -< E}.

Definition begin_unwind (stage0 : bool) (fmt : Arguments) (file : str) (line : Z) :
    itree E unit :=
  trigger (Extern (extern_begin_unwind stage0) fmt file line).

End BeginUnwind.

Module Current.
Section Items.
Context {E : Type -> Type} `{externE -< E} `{abortE -< E}.

Definition fail_ (expr file : str) (line : Z) : itree E void :=
  format_args (fun args => begin_unwind false args file line)
    FAIL_FMT [argument expr] ;;
  abort.

Definition fail_bounds_check (file : str) (line index len : Z) : itree E void :=
  format_args (fun args => begin_unwind false args file line)
    BOUNDS_FMT [argument len; argument index] ;;
  abort.

End Items.
End Current.

Module Stage0.
Section Items.
Context {T : Target} {E : Type -> Type} `{memE -< E} `{externE -< E} `{abortE -< E}.

Definition fail_ (expr file : Z) (line : Z) : itree E void :=
  expr <- c_str_to_static_slice expr ;;
  file <- c_str_to_static_slice file ;;
  format_args (fun args => begin_unwind true args file line)
    FAIL_FMT [argument expr] ;;
  abort.

Definition fail_bounds_check (file : Z) (line index len : Z) : itree E void :=
  file <- c_str_to_static_slice file ;;
  format_args (fun args => begin_unwind true args file line)
    BOUNDS_FMT [argument len; argument index] ;;
  abort.

End Items.
End Stage0.

(** The four call shapes, as one type. *)
Inductive Entry : Type :=
| CurrentFail (expr file : str) (line : Z)
| CurrentBounds (file : str) (line index len : Z)
| Stage0Fail (expr file line : Z)
| Stage0Bounds (file line index len : Z).

Definition enter {T : Target} (e : Entry) : itree failE void :=
  match e with
  | CurrentFail expr file line => Current.fail_ expr file line
  | CurrentBounds file line index len => Current.fail_bounds_check file line index len
  | Stage0Fail expr file line => Stage0.fail_ expr file line
  | Stage0Bounds file line index len => Stage0.fail_bounds_check file line index len
  end.

(** The pointers of a stage0 call are machine words. *)
Definition entry_ok {T : Target} (e : Entry) : Prop :=
  match e with
  | Stage0Fail expr file _ => is_uint expr /\ is_uint file
  | Stage0Bounds file _ _ _ => is_uint file
  | CurrentFail _ _ _ | CurrentBounds _ _ _ _ => True
  end.

(** ** What a run of a lang item must be

    [dispatched w sym fmt file line] is the run in which [sym] is called
    once with [fmt], [file] and [line], and the abort follows if and only
    if the hook returns. *)

Definition dispatched (w : World) (sym : Symbol) (fmt : Arguments) (file : str) (line : Z) :
    Outcome void * list Obs :=
  match linked w sym with
  | None => (Ended (Unresolved sym), [])
  | Some h =>
      match h fmt file line with
      | NeverReturns => (Ended Halted, [ObsCall sym fmt file line])
      | Returns => (Ended Aborted, [ObsCall sym fmt file line; ObsAbort])
      end
  end.

(** [unwound w sym fmt file line] is the run of the call alone: it comes
    back to the caller if the hook returns. *)
Definition unwound (w : World) (sym : Symbol) (fmt : Arguments) (file : str) (line : Z) :
    Outcome unit * list Obs :=
  match linked w sym with
  | None => (Ended (Unresolved sym), [])
  | Some h =>
      match h fmt file line with
      | NeverReturns => (Ended Halted, [ObsCall sym fmt file line])
      | Returns => (Returned tt, [ObsCall sym fmt file line])
      end
  end.

(** How often a trace calls the hook, and how often it aborts. *)
Definition calls (tr : list Obs) : nat :=
  length (filter (fun o => match o with ObsCall _ _ _ _ => true | ObsAbort => false end) tr).

Definition aborts (tr : list Obs) : nat :=
  length (filter (fun o => match o with ObsAbort => true | ObsCall _ _ _ _ => false end) tr).

(** A run that ended in order: one call if the hook was reached and none
    otherwise, and the abort exactly in a run that ended [Aborted]. *)
Definition well_ended (r : Outcome void * list Obs) : Prop :=
  match fst r with
  | Ended Halted => calls (snd r) = 1%nat /\ aborts (snd r) = 0%nat
  | Ended Aborted => calls (snd r) = 1%nat /\ aborts (snd r) = 1%nat
  | Ended (Fault _) | Ended (Unresolved _) => snd r = []
  | Returned _ => False
  end.

(** A run in a world that keeps the contract: no abort. *)
Definition unaborted (r : Outcome void * list Obs) : Prop :=
  fst r <> Ended Aborted /\ aborts (snd r) = 0%nat.

(** What a run looks like when the name of the symbol is forgotten. *)
Definition call_of (o : Obs) : option (Arguments * str * Z) :=
  match o with
  | ObsCall _ fmt file line => Some (fmt, file, line)
  | ObsAbort => None
  end.

Definition shape {R : Type} (r : Run R) :
    option (option Machine.Phase * list (option (Arguments * str * Z))) :=
  option_map (fun x => (abs_outcome (fst x), List.map call_of (snd x))) r.

(** Fuel that suffices for a stage0 lang item in the world [w]: two scans
    of the whole segment, the call and the abort. *)
Definition stage0_fuel (w : World) : nat :=
  scan_fuel (Z.of_nat (length (mem w))) + (scan_fuel (Z.of_nat (length (mem w))) + 2).

(** The arguments the two format strings produce. *)
Definition fail_args (expr : str) : Arguments :=
  MkArguments [Hole] [ArgStr expr].

Definition bounds_args (index len : Z) : Arguments :=
  MkArguments
    [Lit (B "index out of bounds: the len is "); Hole;
     Lit (B " but the index is "); Hole]
    [ArgUint len; ArgUint index].

(** Two worlds for examples: in the first every symbol is bound to a hook
    that honours its contract, in the second to one that returns, the
    test double of the specification. *)
Definition world_unwinding (m : Mem) : World :=
  MkWorld m (fun _ => Some (fun _ _ _ => NeverReturns)).

Definition world_returning (m : Mem) : World :=
  MkWorld m (fun _ => Some (fun _ _ _ => Returns)).

#[export] Instance world_unwinding_Lawful (m : Mem) : Lawful (world_unwinding m).
Proof. intros sym h [= <-]. apply never_returns_Diverges. Qed.

(** A static segment for examples: two C strings, and a third without
    its terminator. *)
Definition demo_mem : Mem := B "oops" ++ NUL :: B "main.rs" ++ NUL :: B "tail".

(** ** Lemmas shared by the theorems *)

Lemma fail_fmt_parsed (R : Type) (f : Arguments -> R) (expr : str) :
  format_args f FAIL_FMT [argument expr] = f (fail_args expr).
Proof. reflexivity. Qed.

Lemma bounds_fmt_parsed (R : Type) (f : Arguments -> R) (index len : Z) :
  format_args f BOUNDS_FMT [argument len; argument index] = f (bounds_args index len).
Proof. reflexivity. Qed.

(** The tail every lang item ends with: call the extern, then abort. *)
Lemma run_unwind_abort (n : nat) (w : World) (stage0 : bool)
    (fmt : Arguments) (file : str) (line : Z) :
  run (2 + n) w (begin_unwind stage0 fmt file line ;; abort) =
  Some (dispatched w (extern_begin_unwind stage0) fmt file line).
Proof.
  cbn [Nat.add]. unfold begin_unwind. rewrite run_trigger_extern. unfold run_extern, dispatched.
  destruct (linked w _) as [h|]; [| reflexivity].
  destruct (h fmt file line); [reflexivity |]. rewrite run_abort. reflexivity.
Qed.

(** [run_lang_item] runs a lang item to its end: it unfolds the item,
    passes the conversions of C strings that the context proves
    terminated, reads the format string and runs the tail. It expects
    the fuel as a sum, as [fuel_sum] leaves it. *)
Ltac run_lang_item :=
  unfold Stage0.fail_, Stage0.fail_bounds_check, Current.fail_, Current.fail_bounds_check;
  rewrite <- ?Nat.add_assoc; rewrite ?run_c_str_then by assumption;
  rewrite ?fail_fmt_parsed, ?bounds_fmt_parsed, ?run_unwind_abort.

(** ** The runs of the current lang items *)

(** C1. [fail_] calls the lang item [begin_unwind] once, with the
    arguments that render [expr] and with [file] and [line] unchanged;
    the run ends there if the hook does not return, and in the abort if
    it does. No other run exists, whatever the world. *)
Theorem fail_run (w : World) (expr file : str) (line : Z) (fuel : nat) :
  (2 <= fuel)%nat ->
  run fuel w (Current.fail_ expr file line) =
  Some (dispatched w (LangItem (B "begin_unwind")) (fail_args expr) file line).
Proof.
  intros Hf. fuel_sum Hf.
  run_lang_item. reflexivity.
Qed.

Lemma fail_run_witness :
  run 2 (world_returning (B "oopslib.rs")) (Current.fail_ (Slice 0 4) (Slice 4 6) 10) =
  Some (Ended Aborted,
        [ObsCall (LangItem (B "begin_unwind")) (fail_args (Slice 0 4)) (Slice 4 6) 10;
         ObsAbort]).
Proof.
  exact (fail_run (world_returning (B "oopslib.rs")) (Slice 0 4) (Slice 4 6) 10 2 (le_n 2)).
Defined.

(** C2. [fail_bounds_check] calls the lang item [begin_unwind] once, with
    the template of the bounds message filled with [len] first and
    [index] second, and aborts if the hook returns. *)
Theorem fail_bounds_check_run (w : World) (file : str) (line index len : Z) (fuel : nat) :
  (2 <= fuel)%nat ->
  run fuel w (Current.fail_bounds_check file line index len) =
  Some (dispatched w (LangItem (B "begin_unwind")) (bounds_args index len) file line).
Proof.
  intros Hf. fuel_sum Hf.
  run_lang_item. reflexivity.
Qed.

Lemma fail_bounds_check_run_witness :
  run 2 (world_unwinding (B "vec.rs")) (Current.fail_bounds_check (Slice 0 6) 42 5 3) =
  Some (Ended Halted,
        [ObsCall (LangItem (B "begin_unwind")) (bounds_args 5 3) (Slice 0 6) 42]).
Proof.
  exact (fail_bounds_check_run (world_unwinding (B "vec.rs")) (Slice 0 6) 42 5 3 2 (le_n 2)).
Defined.

(** ** The wrapper alone *)

Lemma run_unwind (n : nat) (w : World) (stage0 : bool)
    (fmt : Arguments) (file : str) (line : Z) :
  run (2 + n) w (begin_unwind stage0 fmt file line) =
  Some (unwound w (extern_begin_unwind stage0) fmt file line).
Proof.
  cbn [Nat.add]. unfold begin_unwind. rewrite <- (bind_ret_r (trigger _)), run_trigger_extern.
  unfold run_extern, unwound. destruct (linked w _) as [h|]; [| reflexivity].
  destruct (h fmt file line); reflexivity.
Qed.

(** C7. [begin_unwind] forwards its three arguments unchanged, once, to
    the link name [rust_begin_unwind] at stage0 and to the lang item
    [begin_unwind] otherwise. It is declared [-> !], but when the hook
    returns it returns too: the abort is in the lang items, not here. *)
Theorem begin_unwind_run (w : World) (stage0 : bool) (fmt : Arguments) (file : str)
    (line : Z) (fuel : nat) :
  (2 <= fuel)%nat ->
  run fuel w (begin_unwind stage0 fmt file line) =
  Some (unwound w (if stage0 then LinkName (B "rust_begin_unwind")
                   else LangItem (B "begin_unwind")) fmt file line).
Proof. intros Hf. fuel_sum Hf. apply run_unwind. Qed.

Lemma begin_unwind_run_witness :
  run 2 (world_returning (B "lib.rs")) (begin_unwind true (fail_args (Slice 0 3)) (Slice 0 6) 7) =
  Some (Returned tt,
        [ObsCall (LinkName (B "rust_begin_unwind")) (fail_args (Slice 0 3)) (Slice 0 6) 7]).
Proof.
  exact (begin_unwind_run (world_returning (B "lib.rs")) true (fail_args (Slice 0 3))
           (Slice 0 6) 7 2 (le_n 2)).
Defined.

(** ** What the hook reads *)

Lemma write_fail_args (m : Mem) (expr : str) (message : bytes) :
  str_bytes m expr = Some message -> write m (fail_args expr) = Some message.
Proof.
  intros H. unfold write, fail_args. cbn [pieces args write_go show]. rewrite H.
  rewrite app_nil_r. reflexivity.
Qed.

Lemma write_bounds_args (m : Mem) (index len : Z) :
  write m (bounds_args index len) = Some (bounds_message index len).
Proof.
  unfold write, bounds_args, bounds_message. cbn [pieces args write_go show].
  rewrite app_nil_r. reflexivity.
Qed.

(** C27. From the text the hook reads, the index and the length can be
    read back: two bounds violations with different numbers never give
    the same message. *)
Theorem bounds_message_roundtrip {T : Target} (m : Mem) (index len : Z) :
  is_uint index -> is_uint len ->
  match format_args (write m) BOUNDS_FMT [argument len; argument index] with
  | Some message => read_bounds message
  | None => None
  end = Some (index, len).
Proof.
  intros Hi Hl. rewrite bounds_fmt_parsed, write_bounds_args.
  apply read_bounds_message; apply is_uint_dec_buf; assumption.
Qed.

Lemma bounds_message_roundtrip_witness :
  match format_args (write []) BOUNDS_FMT [argument 3; argument 18446744073709551615] with
  | Some message => read_bounds message
  | None => None
  end = Some (18446744073709551615, 3).
Proof.
  apply (bounds_message_roundtrip (T := target64) [] 18446744073709551615 3);
    vm_compute; split; (reflexivity || discriminate).
Defined.

(** C28. The bounds message of two machine words is between 52 and 90
    bytes long: a buffer of 90 bytes holds every bounds message. *)
Theorem bounds_message_fits {T : Target} (m : Mem) (index len : Z) (message : bytes) :
  is_uint index -> is_uint len ->
  format_args (write m) BOUNDS_FMT [argument len; argument index] = Some message ->
  (52 <= length message <= 90)%nat.
Proof.
  intros Hi Hl. rewrite bounds_fmt_parsed, write_bounds_args. intros [= <-].
  apply length_bounds_message; assumption.
Qed.

Lemma bounds_message_fits_witness :
  (52 <= length (B "index out of bounds: the len is 3 but the index is 5") <= 90)%nat.
Proof.
  apply (bounds_message_fits (T := target64) [] 5 3);
    [| | reflexivity]; vm_compute; split; (reflexivity || discriminate).
Defined.

(** ** The lang items refine the machine *)

Lemma abs_run_dispatched (w : World) (sym : Symbol) (fmt : Arguments) (file : str)
    (line : Z) (h : Hook) (f : Failure) :
  linked w sym = Some h ->
  abs_obs (mem w) (ObsCall sym fmt file line) = Some (Machine.dispatch f) ->
  abs_run (mem w) (Some (dispatched w sym fmt file line)) =
  Some (Machine.raise (returns_of (h fmt file line)) f).
Proof.
  intros Hl Ho. unfold dispatched. rewrite Hl.
  destruct (h fmt file line); cbn [abs_run abs_outcome abs_end fst snd abs_trace returns_of];
    rewrite Ho; reflexivity.
Qed.

Lemma abs_obs_call (m : Mem) (sym : Symbol) (fmt : Arguments) (file : str) (line : Z)
    (message name : bytes) :
  write m fmt = Some message -> str_bytes m file = Some name ->
  abs_obs m (ObsCall sym fmt file line) = Some (Dispatched message (MkLocation name line)).
Proof. intros Hw Hf. cbn [abs_obs]. rewrite Hw, Hf. reflexivity. Qed.

(** C5. A run of [fail_] is a complete run of the machine for the
    explicit failure with the bytes of [expr] as message and the bytes of
    [file] with [line] as location: one dispatch, then [Halted], or
    [Aborted] after the abort signal if the hook returned. *)
Theorem fail_refines (w : World) (expr file : str) (line : Z) (h : Hook)
    (message name : bytes) (fuel : nat) :
  (2 <= fuel)%nat ->
  linked w (LangItem (B "begin_unwind")) = Some h ->
  str_bytes (mem w) expr = Some message ->
  str_bytes (mem w) file = Some name ->
  refines (mem w) (run fuel w (Current.fail_ expr file line))
    (returns_of (h (fail_args expr) file line))
    (ExplicitFailure message (MkLocation name line)).
Proof.
  intros Hf Hl He Hn. fuel_sum Hf. apply refines_raise.
  run_lang_item. apply abs_run_dispatched; [exact Hl |].
  apply abs_obs_call; [apply write_fail_args, He | exact Hn].
Qed.

Lemma fail_refines_witness :
  refines (B "assertion failedlib.rs")
    (run 2 (world_returning (B "assertion failedlib.rs"))
       (Current.fail_ (Slice 0 16) (Slice 16 6) 10))
    true (ExplicitFailure (B "assertion failed") (MkLocation (B "lib.rs") 10)).
Proof.
  exact (fail_refines (world_returning (B "assertion failedlib.rs")) (Slice 0 16)
           (Slice 16 6) 10 (fun _ _ _ => Returns) _ _ 2 (le_n 2) eq_refl eq_refl eq_refl).
Defined.

(** C6. A run of [fail_bounds_check] is a complete run of the machine
    for the bounds violation with [index] and [len]: the hook receives
    the bounds message with both numbers in decimal and the location. *)
Theorem fail_bounds_check_refines (w : World) (file : str) (line index len : Z)
    (h : Hook) (name : bytes) (fuel : nat) :
  (2 <= fuel)%nat ->
  linked w (LangItem (B "begin_unwind")) = Some h ->
  str_bytes (mem w) file = Some name ->
  refines (mem w) (run fuel w (Current.fail_bounds_check file line index len))
    (returns_of (h (bounds_args index len) file line))
    (BoundsViolation (MkLocation name line) index len).
Proof.
  intros Hf Hl Hn. fuel_sum Hf. apply refines_raise.
  run_lang_item. apply abs_run_dispatched; [exact Hl |].
  apply abs_obs_call; [apply write_bounds_args | exact Hn].
Qed.

Lemma fail_bounds_check_refines_witness :
  refines (B "vec.rs")
    (run 2 (world_unwinding (B "vec.rs")) (Current.fail_bounds_check (Slice 0 6) 42 5 3))
    false (BoundsViolation (MkLocation (B "vec.rs") 42) 5 3).
Proof.
  exact (fail_bounds_check_refines (world_unwinding (B "vec.rs")) (Slice 0 6) 42 5 3
           (fun _ _ _ => NeverReturns) _ 2 (le_n 2) eq_refl eq_refl).
Defined.

(** ** The stage0 lang items *)

Section Runs.
Context {T : Target} (w : World) (Hw : wf_world w).

(** C3. On C strings, stage0 [fail_] converts [expr] and then [file] to
    slices over the same bytes and calls the symbol [rust_begin_unwind]
    once with them; it aborts if the hook returns. *)
Theorem stage0_fail_run (expr file line n k : Z) (fuel : nat) :
  is_c_str (mem w) expr n -> is_c_str (mem w) file k ->
  (scan_fuel n + scan_fuel k + 2 <= fuel)%nat ->
  run fuel w (Stage0.fail_ expr file line) =
  Some (dispatched w (LinkName (B "rust_begin_unwind"))
          (fail_args (Slice expr n)) (Slice file k) line).
Proof.
  intros He Hf Hfuel. fuel_sum Hfuel.
  run_lang_item. reflexivity.
Qed.

(** C4. On a C string, stage0 [fail_bounds_check] converts [file] and
    calls [rust_begin_unwind] once with the bounds template filled with
    [len] and [index]; it aborts if the hook returns. *)
Theorem stage0_fail_bounds_check_run (file line index len k : Z) (fuel : nat) :
  is_c_str (mem w) file k ->
  (scan_fuel k + 2 <= fuel)%nat ->
  run fuel w (Stage0.fail_bounds_check file line index len) =
  Some (dispatched w (LinkName (B "rust_begin_unwind"))
          (bounds_args index len) (Slice file k) line).
Proof.
  intros Hf Hfuel. fuel_sum Hfuel.
  run_lang_item. reflexivity.
Qed.

(** ** Strings without terminator *)

(** C18. If [expr] or [file] has no terminator before the end of the
    static segment, stage0 [fail_] faults at the first address outside
    the segment, and the hook is not called. *)
Theorem stage0_fail_unterminated (expr file line : Z) (fuel : nat) :
  0 <= expr <= Z.of_nat (length (mem w)) ->
  unterminated (mem w) expr \/ unterminated (mem w) file ->
  (stage0_fuel w <= fuel)%nat ->
  run fuel w (Stage0.fail_ expr file line) =
  Some (Ended (Fault (Z.of_nat (length (mem w)))), []).
Proof.
  intros He Hu Hfuel. unfold stage0_fuel in Hfuel. unfold Stage0.fail_.
  destruct (c_str_cases (mem w) expr He) as [[n Hc] | Hx].
  - destruct Hu as [Hu | Hu]; [destruct (is_c_str_terminated _ _ _ Hc Hu) |].
    pose proof (is_c_str_lt _ _ _ Hc) as Hlt. pose proof Hu as [Hf _].
    assert (scan_fuel n <= fuel)%nat as Hn by (unfold scan_fuel in *; lia). fuel_sum Hn.
    rewrite run_c_str_then by assumption.
    apply run_c_str_fault_ge; [assumption | assumption | unfold scan_fuel in *; lia].
  - apply run_c_str_fault_ge; [assumption | assumption | unfold scan_fuel in *; lia].
Qed.

(** The same for stage0 [fail_bounds_check] and its one string. *)
Lemma stage0_fail_bounds_check_unterminated (file line index len : Z) (fuel : nat) :
  unterminated (mem w) file ->
  (scan_fuel (Z.of_nat (length (mem w)) - file) <= fuel)%nat ->
  run fuel w (Stage0.fail_bounds_check file line index len) =
  Some (Ended (Fault (Z.of_nat (length (mem w)))), []).
Proof. intros Hu Hfuel. apply run_c_str_fault_ge; assumption. Qed.

(** ** Every run ends

    [enter_total] is the rule for all four call shapes: what holds of
    every fault before any call and of every dispatch holds of the run,
    and the run exists. *)

Lemma unwind_abort_ends (Q : Outcome void * list Obs -> Prop) (stage0 : bool)
    (fmt : Arguments) (file : str) (line : Z) :
  (forall sym fmt file line, Q (dispatched w sym fmt file line)) ->
  exists r, run 2 w (begin_unwind stage0 fmt file line ;; abort) = Some r /\ Q r.
Proof. intros HQ. eexists. split; [apply (run_unwind_abort 0) | apply HQ]. Qed.

Lemma ends_mono {R : Type} (Q : Outcome R * list Obs -> Prop) (n m : nat)
    (t : itree failE R) :
  (n <= m)%nat -> (exists r, run n w t = Some r /\ Q r) ->
  exists r, run m w t = Some r /\ Q r.
Proof.
  intros Hle (r & Hr & Hq). exists r.
  split; [exact (run_mono _ _ _ _ _ Hle Hr) | exact Hq].
Qed.

Lemma enter_total (Q : Outcome void * list Obs -> Prop) (e : Entry) :
  (forall a, Q (Ended (Fault a), [])) ->
  (forall sym fmt file line, Q (dispatched w sym fmt file line)) ->
  entry_ok e ->
  exists r, run (stage0_fuel w) w (enter e) = Some r /\ Q r.
Proof.
  intros Hfault Hdisp He. unfold stage0_fuel.
  destruct e as [expr file line | file line index len | expr file line | file line index len];
    cbn [enter entry_ok] in *.
  - apply (ends_mono Q 2); [lia |]. apply unwind_abort_ends, Hdisp.
  - apply (ends_mono Q 2); [lia |]. apply unwind_abort_ends, Hdisp.
  - destruct He as [He Hf]. unfold Stage0.fail_.
    apply run_c_str_total; [assumption | assumption | assumption | intros s].
    apply run_c_str_total; [assumption | assumption | assumption | intros s'].
    apply unwind_abort_ends, Hdisp.
  - apply (ends_mono Q (scan_fuel (Z.of_nat (length (mem w))) + 2)); [lia |].
    unfold Stage0.fail_bounds_check.
    apply run_c_str_total; [assumption | assumption | assumption | intros s].
    apply unwind_abort_ends, Hdisp.
Qed.

(** ** Every run ends in order *)

Lemma dispatched_well_ended (sym : Symbol) (fmt : Arguments) (file : str) (line : Z) :
  well_ended (dispatched w sym fmt file line).
Proof.
  unfold dispatched, well_ended. destruct (linked w sym) as [h|]; [| reflexivity].
  destruct (h fmt file line); split; reflexivity.
Qed.

Lemma dispatched_unaborted `{!Lawful w} (sym : Symbol) (fmt : Arguments) (file : str)
    (line : Z) :
  unaborted (dispatched w sym fmt file line).
Proof.
  unfold dispatched, unaborted. destruct (linked w sym) as [h|] eqn:E;
    [rewrite (lawful_hook sym h E fmt file line) |]; split; (discriminate || reflexivity).
Qed.

Lemma dispatched_diverges (sym : Symbol) (fmt : Arguments) (file : str) (line : Z)
    (h : Hook) :
  linked w sym = Some h -> Diverges h ->
  dispatched w sym fmt file line = (Ended Halted, [ObsCall sym fmt file line]).
Proof.
  intros Hl Hh. unfold dispatched. rewrite Hl, (hook_diverges fmt file line). reflexivity.
Qed.

(** C10. Each of the four call shapes, in every world and on every
    argument, ends, and ends in order: after exactly one call of the
    hook if the run ended [Halted] or [Aborted], with exactly one abort
    in the second case and none in the first, and without any call if
    it ended in an unbound symbol or a fault. *)
Theorem enter_well_ended (e : Entry) :
  entry_ok e -> exists r, run (stage0_fuel w) w (enter e) = Some r /\ well_ended r.
Proof. apply enter_total; [reflexivity | apply dispatched_well_ended]. Qed.

(** C11. In a world whose hooks keep their contract, none of the four
    call shapes reaches the abort, on any argument. *)
Theorem lawful_never_aborts `{!Lawful w} (e : Entry) :
  entry_ok e -> exists r, run (stage0_fuel w) w (enter e) = Some r /\ unaborted r.
Proof.
  apply enter_total; [split; (discriminate || reflexivity) | apply dispatched_unaborted].
Qed.

End Runs.

(** ** Runs up to the name of the symbol *)

Lemma dispatched_shape (w : World) (sym sym' : Symbol) (fmt : Arguments) (file : str)
    (line : Z) :
  linked w sym = linked w sym' ->
  shape (Some (dispatched w sym fmt file line)) =
  shape (Some (dispatched w sym' fmt file line)).
Proof.
  intros H. unfold dispatched. rewrite H. destruct (linked w sym') as [h|]; [| reflexivity].
  destruct (h fmt file line); reflexivity.
Qed.

(** ** The location that stage0 hands on *)

Section Stage0Location.
Context {T : Target} (w : World) (Hw : wf_world w) (h : Hook).
Hypothesis bound : linked w (LinkName (B "rust_begin_unwind")) = Some h.

(** C26. A file name laid out in static memory as a C string is the
    file name the hook receives: the conversion gives back the bytes
    before the terminator, whatever surrounds them. *)
Theorem stage0_location_roundtrip (pre name post : bytes) (line index len : Z)
    (fuel : nat) :
  mem w = pre ++ name ++ NUL :: post -> ~ In NUL name ->
  (scan_fuel (Z.of_nat (length name)) + 2 <= fuel)%nat ->
  refines (mem w)
    (run fuel w (Stage0.fail_bounds_check (Z.of_nat (length pre)) line index len))
    (returns_of (h (bounds_args index len)
                   (Slice (Z.of_nat (length pre)) (Z.of_nat (length name))) line))
    (BoundsViolation (MkLocation name line) index len).
Proof.
  intros Hm Hn Hfuel. fuel_sum Hfuel. apply refines_raise.
  pose proof (is_c_str_layout pre name post Hn) as Hc. rewrite <- Hm in Hc.
  run_lang_item. apply abs_run_dispatched; [exact bound |].
  apply abs_obs_call; [apply write_bounds_args |]. rewrite Hm. apply str_bytes_layout.
Qed.

End Stage0Location.

(** ** The stage0 theorems at work

    A 64-bit target and the segment [demo_mem]: [oops] at 0, [main.rs] at
    5, both terminated, and [tail] at 13, which runs to the end. *)

Definition demo_world : World := world_returning demo_mem.

Lemma demo_wf : wf_world (T := target64) demo_world.
Proof. reflexivity. Qed.

Lemma demo_expr : is_c_str demo_mem 0 4.
Proof. apply c_strlen_Some. reflexivity. Qed.

Lemma demo_file : is_c_str demo_mem 5 7.
Proof. apply c_strlen_Some. reflexivity. Qed.

Lemma demo_tail : unterminated demo_mem 13.
Proof. apply c_strlen_None; [cbn; lia | reflexivity]. Qed.

Lemma stage0_fail_run_witness :
  run 26 demo_world (Stage0.fail_ (T := target64) 0 5 10) =
  Some (Ended Aborted,
        [ObsCall (LinkName (B "rust_begin_unwind")) (fail_args (Slice 0 4)) (Slice 5 7) 10;
         ObsAbort]).
Proof.
  exact (stage0_fail_run (T := target64) demo_world demo_wf 0 5 10 4 7 26
           demo_expr demo_file (le_n 26)).
Defined.

Lemma stage0_fail_bounds_check_run_witness :
  run 17 demo_world (Stage0.fail_bounds_check (T := target64) 5 42 5 3) =
  Some (Ended Aborted,
        [ObsCall (LinkName (B "rust_begin_unwind")) (bounds_args 5 3) (Slice 5 7) 42;
         ObsAbort]).
Proof.
  exact (stage0_fail_bounds_check_run (T := target64) demo_world demo_wf 5 42 5 3 7 17
           demo_file (le_n 17)).
Defined.

Lemma stage0_fail_unterminated_witness :
  run 72 demo_world (Stage0.fail_ (T := target64) 0 13 10) = Some (Ended (Fault 17), []).
Proof.
  apply (stage0_fail_unterminated (T := target64) demo_world demo_wf 0 13 10 72);
    [cbn; lia | right; exact demo_tail | apply le_n].
Defined.

Lemma enter_well_ended_witness :
  exists r, run 72 demo_world (enter (T := target64) (Stage0Fail 0 13 10)) = Some r /\
            well_ended r.
Proof.
  apply (enter_well_ended (T := target64) demo_world demo_wf (Stage0Fail 0 13 10)).
  vm_compute. repeat split; (reflexivity || discriminate).
Defined.

Lemma lawful_never_aborts_witness :
  exists r, run 72 (world_unwinding demo_mem) (enter (T := target64) (Stage0Bounds 5 42 5 3)) =
              Some r /\ unaborted r.
Proof.
  apply (lawful_never_aborts (T := target64) (world_unwinding demo_mem) demo_wf
           (Stage0Bounds 5 42 5 3)).
  vm_compute. repeat split; (reflexivity || discriminate).
Defined.

Lemma demo_name_clean : ~ In NUL (B "main.rs").
Proof. cbn. intuition discriminate. Qed.

Lemma stage0_location_roundtrip_witness :
  refines demo_mem (run 17 demo_world (Stage0.fail_bounds_check (T := target64) 5 42 5 3))
    true (BoundsViolation (MkLocation (B "main.rs") 42) 5 3).
Proof.
  exact (stage0_location_roundtrip (T := target64) demo_world demo_wf (fun _ _ _ => Returns)
           eq_refl (B "oops" ++ [NUL]) (B "main.rs") (B "tail") 42 5 3 17
           eq_refl demo_name_clean (le_n 17)).
Defined.
