(* ===== verification/Boundary.v ===== *)
(** * Boundary: the four call shapes against one reference

    [failure.rs] offers two entry points in two forms each. The stage0
    forms differ from the current ones in two things only: they convert
    their C strings first, and they reach the hook under another name.
    This file says so once, for all four shapes.

    - [Call]: the canonical form of a call, an explicit failure or a
      bounds violation on slices; [call_fmt], [call_file] and [call_line]
      are what the hook is called with, and [current] the current entry
      of that form.
    - [normalize]: the canonical form of an entry in a static segment, or
      the address of the fault if a conversion leaves the segment. It is
      written with the reference [convert] of [CStr], not with the loop.
    - [reference]: the run of an entry, by its canonical form. The
      name of the symbol of each stage ([stage_symbol]) and the
      arguments of the hook ([call_fmt]) are written out here and not
      taken from [Failure].
    - [c_str_bytes] and [failure_of]: the failure an entry stands for, in
      the terms of [Spec]: the bytes of its slices, or the bytes before
      the terminators of its C strings.

    The theorems show that every entry, in every world, runs as
    [reference] says ([enter_reference]); that an entry runs like the
    current entry of its canonical form, up to the name of the symbol
    ([enter_as_current]); that the run of an entry that stands for a
    failure refines the machine for that failure ([enter_refines]); that
    the width of [uint] does not matter to a well-formed world
    ([width_independent]); that in every run of a stage0 lang item the
    file name the hook receives is a C string of the static segment,
    without its terminator ([stage0_slices_valid]); and
    that a call depends on the bytes of its strings alone
    ([enter_frame]). *)

From Stdlib Require Import ZArith List Ascii Bool Lia.
From ITree Require Import ITree ITreeFacts.
From S2P Require Import Prelude Uint StaticMem Fmt Effects CStr Spec Failure.
Import ListNotations.
#[local] Open Scope Z_scope.
#[local] Open Scope fail_scope.

(** ** The canonical form of a call *)

Inductive Call : Type :=
| Fail (expr file : str) (line : Z)
| Bounds (file : str) (line index len : Z).

(** The arguments of the hook, written out: the reference does not
    read them off the functions of [Failure]. *)
Definition call_fmt (c : Call) : Arguments :=
  match c with
  | Fail expr _ _ => MkArguments [Hole] [ArgStr expr]
  | Bounds _ _ index len =>
      MkArguments
        [Lit (B "index out of bounds: the len is "); Hole;
         Lit (B " but the index is "); Hole]
        [ArgUint len; ArgUint index]
  end.

Definition call_file (c : Call) : str :=
  match c with
  | Fail _ file _ | Bounds file _ _ _ => file
  end.

Definition call_line (c : Call) : Z :=
  match c with
  | Fail _ _ line | Bounds _ line _ _ => line
  end.

Definition current (c : Call) : Entry :=
  match c with
  | Fail expr file line => CurrentFail expr file line
  | Bounds file line index len => CurrentBounds file line index len
  end.

Definition is_stage0 (e : Entry) : bool :=
  match e with
  | Stage0Fail _ _ _ | Stage0Bounds _ _ _ _ => true
  | CurrentFail _ _ _ | CurrentBounds _ _ _ _ => false
  end.

(** [on_slice c k]: [k] on the slice of a conversion, or its fault. *)
Definition on_slice {A : Type} (c : Z + str) (k : str -> Z + A) : Z + A :=
  match c with
  | inl a => inl a
  | inr s => k s
  end.

Definition normalize (m : Mem) (e : Entry) : Z + Call :=
  match e with
  | CurrentFail expr file line => inr (Fail expr file line)
  | CurrentBounds file line index len => inr (Bounds file line index len)
  | Stage0Fail expr file line =>
      on_slice (convert m expr) (fun expr =>
      on_slice (convert m file) (fun file => inr (Fail expr file line)))
  | Stage0Bounds file line index len =>
      on_slice (convert m file) (fun file => inr (Bounds file line index len))
  end.

(** The name under which each stage knows the hook, written out. *)
Definition stage_symbol (stage0 : bool) : Symbol :=
  if stage0 then LinkName (B "rust_begin_unwind") else LangItem (B "begin_unwind").

(** The run in which the symbol of the stage is called once with the
    canonical form [c]. *)
Definition dispatch (w : World) (stage0 : bool) (c : Call) : Outcome void * list Obs :=
  dispatched w (stage_symbol stage0) (call_fmt c) (call_file c) (call_line c).

Definition reference (w : World) (e : Entry) : Outcome void * list Obs :=
  match normalize (mem w) e with
  | inl a => (Ended (Fault a), [])
  | inr c => dispatch w (is_stage0 e) c
  end.

(** ** The failure an entry stands for *)

Definition c_str_bytes (m : Mem) (p : Z) : option bytes :=
  match convert m p with
  | inr s => str_bytes m s
  | inl _ => None
  end.

Definition failure_of (m : Mem) (e : Entry) : option Failure :=
  match e with
  | CurrentFail expr file line =>
      message <-? str_bytes m expr ;; name <-? str_bytes m file ;;
      Some (ExplicitFailure message (MkLocation name line))
  | CurrentBounds file line index len =>
      name <-? str_bytes m file ;;
      Some (BoundsViolation (MkLocation name line) index len)
  | Stage0Fail expr file line =>
      message <-? c_str_bytes m expr ;; name <-? c_str_bytes m file ;;
      Some (ExplicitFailure message (MkLocation name line))
  | Stage0Bounds file line index len =>
      name <-? c_str_bytes m file ;;
      Some (BoundsViolation (MkLocation name line) index len)
  end.

(** ** Every entry runs as its reference says *)

Section Reference.
Context {T : Target} (w : World) (Hw : wf_world w).

(** A conversion followed by [k] runs as [on_slice] says if [k] does. *)
Lemma run_c_str_on_slice {A : Type} (p : Z) (g : nat) (k : str -> itree failE void)
    (f : str -> Z + A) (out : A -> Outcome void * list Obs) :
  is_uint p ->
  (forall s, run g w (k s) =
             Some (match f s with inl a => (Ended (Fault a), []) | inr x => out x end)) ->
  run (scan_fuel (Z.of_nat (length (mem w))) + g) w
      (ITree.bind (c_str_to_static_slice p) k) =
  Some (match on_slice (convert (mem w) p) f with
        | inl a => (Ended (Fault a), [])
        | inr x => out x
        end).
Proof.
  intros Hp Hk. apply (run_c_str_convert w p g k Hw Hp). unfold converted, on_slice.
  destruct (convert (mem w) p) as [a | s]; [reflexivity | apply Hk].
Qed.

Lemma run_enter (e : Entry) :
  entry_ok e -> run (stage0_fuel w) w (enter e) = Some (reference w e).
Proof.
  intros He. unfold reference, stage0_fuel.
  destruct e as [expr file line | file line index len | expr file line | file line index len];
    cbn [enter entry_ok normalize is_stage0] in *.
  - apply (run_mono 2); [lia | apply (run_unwind_abort 0)].
  - apply (run_mono 2); [lia | apply (run_unwind_abort 0)].
  - destruct He as [He Hf]. unfold Stage0.fail_.
    apply (run_c_str_on_slice expr); [exact He | intros expr'].
    apply (run_c_str_on_slice file); [exact Hf | intros file'].
    apply (run_unwind_abort 0).
  - apply (run_mono (scan_fuel (Z.of_nat (length (mem w))) + 2)); [lia |].
    unfold Stage0.fail_bounds_check.
    apply (run_c_str_on_slice file); [exact He | intros file'].
    apply (run_unwind_abort 0).
Qed.

Lemma run_enter_ge (e : Entry) (fuel : nat) :
  entry_ok e -> (stage0_fuel w <= fuel)%nat -> run fuel w (enter e) = Some (reference w e).
Proof. intros He Hf. exact (run_mono _ _ _ _ _ Hf (run_enter e He)). Qed.

Lemma run_current (c : Call) (fuel : nat) :
  (2 <= fuel)%nat -> run fuel w (enter (current c)) = Some (dispatch w false c).
Proof.
  intros Hf. apply (run_mono 2); [exact Hf |].
  destruct c; apply (run_unwind_abort 0).
Qed.

(** C12. Each of the four call shapes, in every well-formed world and on
    every argument, runs as the reference says: after the conversions of
    stage0, which fault at the first address read outside the static
    segment, the symbol of the stage is called once with the arguments
    of the canonical form, and the abort follows if and only if the hook
    returns. *)
Theorem enter_reference (e : Entry) (fuel : nat) :
  entry_ok e -> (stage0_fuel w <= fuel)%nat ->
  run fuel w (enter e) = Some (reference w e).
Proof.
  intros He Hf. apply (run_mono (stage0_fuel w)); [exact Hf |].
  apply run_enter, He.
Qed.

(** ** An entry runs like the current entry of its canonical form *)

(** C21. When one hook is bound under both names, an entry whose
    conversions succeed has the run of the current entry on the slices
    they give, up to the name of the symbol called: stage0 adds the
    conversions and changes the name, and nothing else. *)
Theorem enter_as_current (e : Entry) (c : Call) (fuel fuel' : nat) :
  linked w (LinkName (B "rust_begin_unwind")) = linked w (LangItem (B "begin_unwind")) ->
  entry_ok e -> normalize (mem w) e = inr c ->
  (stage0_fuel w <= fuel)%nat -> (2 <= fuel')%nat ->
  shape (run fuel w (enter e)) = shape (run fuel' w (enter (current c))).
Proof.
  intros Hl He Hc Hf Hf'. rewrite (run_enter_ge e fuel He Hf), (run_current c fuel' Hf').
  unfold reference. rewrite Hc. apply dispatched_shape.
  destruct (is_stage0 e); [exact Hl | reflexivity].
Qed.

End Reference.

(** ** The runs refine the machine *)

Lemma c_str_bytes_Some (m : Mem) (p : Z) (b : bytes) :
  c_str_bytes m p = Some b -> exists s, convert m p = inr s /\ str_bytes m s = Some b.
Proof.
  unfold c_str_bytes. destruct (convert m p) as [a | s]; [discriminate |]. eauto.
Qed.

(** The call of a canonical form whose slices are valid is the dispatch
    of the failure it stands for. *)
Lemma failure_of_current (m : Mem) (c : Call) (f : Failure) (sym : Symbol) :
  failure_of m (current c) = Some f ->
  abs_obs m (ObsCall sym (call_fmt c) (call_file c) (call_line c)) =
  Some (Machine.dispatch f).
Proof.
  destruct c as [expr file line | file line index len]; cbn [current failure_of].
  - destruct (str_bytes m expr) as [message|] eqn:Em; [| discriminate].
    destruct (str_bytes m file) as [name|] eqn:En; [| discriminate]. intros [= <-].
    apply abs_obs_call; [apply write_fail_args, Em | exact En].
  - destruct (str_bytes m file) as [name|] eqn:En; [| discriminate]. intros [= <-].
    apply abs_obs_call; [apply write_bounds_args | exact En].
Qed.

(** An entry that stands for a failure has a canonical form, which
    stands for the same failure. *)
Lemma failure_of_normalize (m : Mem) (e : Entry) (f : Failure) :
  failure_of m e = Some f ->
  exists c, normalize m e = inr c /\ failure_of m (current c) = Some f.
Proof.
  destruct e as [expr file line | file line index len | expr file line | file line index len];
    cbn [failure_of normalize]; [eexists; split; [reflexivity | eassumption] .. | |].
  - destruct (c_str_bytes m expr) as [message|] eqn:Em; [| discriminate].
    destruct (c_str_bytes m file) as [name|] eqn:En; [| discriminate]. intros [= <-].
    apply c_str_bytes_Some in Em as (expr' & -> & Em).
    apply c_str_bytes_Some in En as (file' & -> & En).
    eexists. split; [reflexivity |]. cbn [current failure_of on_slice]. rewrite Em, En.
    reflexivity.
  - destruct (c_str_bytes m file) as [name|] eqn:En; [| discriminate]. intros [= <-].
    apply c_str_bytes_Some in En as (file' & -> & En).
    eexists. split; [reflexivity |]. cbn [current failure_of on_slice]. rewrite En.
    reflexivity.
Qed.

Section Refinement.
Context {T : Target} (w : World) (Hw : wf_world w).

Lemma abs_run_enter (e : Entry) (f : Failure) (c : Call) (h : Hook) (fuel : nat) :
  entry_ok e -> failure_of (mem w) e = Some f -> normalize (mem w) e = inr c ->
  linked w (extern_begin_unwind (is_stage0 e)) = Some h -> (stage0_fuel w <= fuel)%nat ->
  abs_run (mem w) (run fuel w (enter e)) =
  Some (Machine.raise (returns_of (h (call_fmt c) (call_file c) (call_line c))) f).
Proof.
  intros He Hf Hc Hl Hfuel. destruct (failure_of_normalize _ _ _ Hf) as (c' & Hc' & Hfc).
  rewrite Hc in Hc'. injection Hc' as <-.
  rewrite (run_enter_ge w Hw e fuel He Hfuel). unfold reference. rewrite Hc.
  apply abs_run_dispatched; [exact Hl | apply failure_of_current, Hfc].
Qed.

(** C13. The run of an entry that stands for a failure is a complete
    run of the machine for that failure, whatever the shape of the
    entry: one dispatch of the message and the location to the hook
    bound to the symbol of the stage, then [Halted], or [Aborted] after
    the abort signal if the hook returned. *)
Theorem enter_refines (e : Entry) (f : Failure) (h : Hook) (fuel : nat) :
  entry_ok e -> failure_of (mem w) e = Some f ->
  linked w (extern_begin_unwind (is_stage0 e)) = Some h ->
  (stage0_fuel w <= fuel)%nat ->
  exists c, normalize (mem w) e = inr c /\
    refines (mem w) (run fuel w (enter e))
      (returns_of (h (call_fmt c) (call_file c) (call_line c))) f.
Proof.
  intros He Hf Hl Hfuel. destruct (failure_of_normalize _ _ _ Hf) as (c & Hc & Hfc).
  exists c. split; [exact Hc |]. apply refines_raise.
  exact (abs_run_enter e f c h fuel He Hf Hc Hl Hfuel).
Qed.

End Refinement.

Lemma on_slice_inr {A : Type} (c : Z + str) (k : str -> Z + A) (x : A) :
  on_slice c k = inr x -> exists s, c = inr s /\ k s = inr x.
Proof. destruct c as [a | s]; [discriminate | intros H; exists s; auto]. Qed.

(** ** The width of [uint] does not matter *)

(** C20. The lang items behave alike on every target on which the
    static segment and the pointers fit: the additions on addresses and
    lengths in the scans of stage0 are done in [uint] and wrap, but in a
    well-formed world no scan reaches the wrap-around, so a 32-bit and a
    64-bit build have the same runs. *)
Theorem width_independent (T T' : Target) (w : World) (e : Entry) (fuel : nat) :
  wf_world (T := T) w -> wf_world (T := T') w ->
  entry_ok (T := T) e -> entry_ok (T := T') e -> (stage0_fuel w <= fuel)%nat ->
  run fuel w (enter (T := T) e) = run fuel w (enter (T := T') e).
Proof.
  intros Hw Hw' He He' Hf.
  rewrite (run_enter_ge (T := T) w Hw e fuel He Hf).
  rewrite (run_enter_ge (T := T') w Hw' e fuel He' Hf). reflexivity.
Qed.

(** ** What reaches the hook from stage0 lies in the segment *)

Lemma convert_valid (m : Mem) (p : Z) (s : str) :
  convert m p = inr s ->
  is_c_str m (data s) (len s) /\ valid_str m s /\ data s + len s < Z.of_nat (length m) /\
  exists b, str_bytes m s = Some b /\ c_str_bytes m p = Some b.
Proof.
  intros Hc. unfold c_str_bytes. rewrite Hc. unfold convert in Hc.
  destruct (c_strlen m p) as [n|] eqn:E; [| discriminate]. injection Hc as <-.
  apply c_strlen_Some in E. pose proof (is_c_str_valid _ _ _ E) as Hv.
  pose proof (is_c_str_lt _ _ _ E) as Hlt. cbn [data len].
  split; [exact E | split; [exact Hv | split; [lia |]]].
  rewrite (str_bytes_valid _ _ Hv). eauto.
Qed.

(** The canonical form of a stage0 call: the file name is a C string
    of the segment, without its terminator, and the message renders. *)
Lemma normalize_stage0 (m : Mem) (e : Entry) (c : Call) :
  is_stage0 e = true -> normalize m e = inr c ->
  is_c_str m (data (call_file c)) (len (call_file c)) /\
  data (call_file c) + len (call_file c) < Z.of_nat (length m) /\
  (exists message, write m (call_fmt c) = Some message) /\
  (exists f, failure_of m e = Some f).
Proof.
  intros Hs Hc. destruct e as [? ? ? | ? ? ? ? | expr file line | file line index len];
    try discriminate Hs; cbn [normalize failure_of] in *.
  - apply on_slice_inr in Hc as (expr' & He & Hc).
    apply on_slice_inr in Hc as (file' & Hf & [= <-]).
    destruct (convert_valid _ _ _ He) as (_ & _ & _ & message & Hm & ->).
    destruct (convert_valid _ _ _ Hf) as (Hv & _ & Hlt & name & _ & ->).
    cbn [call_file]. split; [exact Hv | split; [exact Hlt | split; [| eauto]]].
    exists message. exact (write_fail_args _ _ _ Hm).
  - apply on_slice_inr in Hc as (file' & Hf & [= <-]).
    destruct (convert_valid _ _ _ Hf) as (Hv & _ & Hlt & name & _ & ->).
    cbn [call_file]. split; [exact Hv | split; [exact Hlt | split; [| eauto]]].
    eexists. exact (write_bounds_args m index len).
Qed.

Lemma dispatched_calls (w : World) (sym : Symbol) (fmt : Arguments) (file : str) (line : Z)
    (o : Obs) :
  In o (snd (dispatched w sym fmt file line)) -> o = ObsCall sym fmt file line \/ o = ObsAbort.
Proof.
  unfold dispatched. destruct (linked w sym) as [h|]; [| intros []].
  destruct (h fmt file line); cbn [snd In]; intuition auto.
Qed.

(** C19. Whatever a stage0 lang item hands to the hook lies inside the
    static segment: in every run in which the hook is called, the file
    name it receives is a C string of the segment without its
    terminator (no byte of the slice is zero, the byte after it is, and
    that byte is still inside the segment), the message renders, and
    the call stands for a failure. A pointer that would give anything
    else faults in the conversion, before the call. *)
Theorem stage0_slices_valid {T : Target} (w : World) (e : Entry) (fuel : nat)
    (out : Outcome void) (tr : list Obs) (sym : Symbol) (fmt : Arguments) (file : str)
    (line : Z) :
  wf_world w -> entry_ok e -> is_stage0 e = true ->
  run fuel w (enter e) = Some (out, tr) -> In (ObsCall sym fmt file line) tr ->
  is_c_str (mem w) (data file) (len file) /\
  data file + len file < Z.of_nat (length (mem w)) /\
  (exists message, write (mem w) fmt = Some message) /\
  (exists f, failure_of (mem w) e = Some f).
Proof.
  intros Hw He Hs Hr Hin.
  pose proof (run_det _ _ _ _ _ _ Hr (run_enter w Hw e He)) as Href.
  unfold reference in Href. destruct (normalize (mem w) e) as [a | c] eqn:Hc.
  - injection Href as _ ->. destruct Hin.
  - unfold dispatch in Href. apply (f_equal snd) in Href. cbn [snd] in Href. subst tr.
    apply dispatched_calls in Hin as [[= -> -> -> ->] | [=]].
    exact (normalize_stage0 _ _ _ Hs Hc).
Qed.

(** ** Locality: the bytes behind the strings do not matter *)

Definition extend (w : World) (m' : Mem) : World := MkWorld (mem w ++ m') (linked w).

Lemma convert_frame (m m' : Mem) (p : Z) (s : str) :
  convert m p = inr s -> convert (m ++ m') p = inr s.
Proof.
  unfold convert. destruct (c_strlen m p) as [n|] eqn:E; [| discriminate].
  rewrite (c_strlen_frame _ m' _ _ E). auto.
Qed.

Lemma c_str_bytes_frame (m m' : Mem) (p : Z) (b : bytes) :
  c_str_bytes m p = Some b -> c_str_bytes (m ++ m') p = Some b.
Proof.
  intros H. apply c_str_bytes_Some in H as (s & Hc & Hb). unfold c_str_bytes.
  rewrite (convert_frame _ m' _ _ Hc). apply str_bytes_frame, Hb.
Qed.

Lemma normalize_frame (m m' : Mem) (e : Entry) (c : Call) :
  normalize m e = inr c -> normalize (m ++ m') e = inr c.
Proof.
  destruct e as [? ? ? | ? ? ? ? | expr file line | file line index len];
    cbn [normalize]; [auto | auto | |]; intros H.
  - apply on_slice_inr in H as (expr' & He & H). apply on_slice_inr in H as (file' & Hf & H).
    rewrite (convert_frame _ m' _ _ He), (convert_frame _ m' _ _ Hf). exact H.
  - apply on_slice_inr in H as (file' & Hf & H).
    rewrite (convert_frame _ m' _ _ Hf). exact H.
Qed.

Lemma failure_of_frame (m m' : Mem) (e : Entry) (f : Failure) :
  failure_of m e = Some f -> failure_of (m ++ m') e = Some f.
Proof.
  destruct e; cbn [failure_of];
    repeat match goal with
    | |- context [str_bytes m ?s] =>
        let E := fresh "E" in
        destruct (str_bytes m s) as [?|] eqn:E;
        [rewrite (str_bytes_frame _ m' _ _ E) | discriminate]
    | |- context [c_str_bytes m ?p] =>
        let E := fresh "E" in
        destruct (c_str_bytes m p) as [?|] eqn:E;
        [rewrite (c_str_bytes_frame _ m' _ _ E) | discriminate]
    end; auto.
Qed.

(** C29. A failure call depends on the bytes of its strings alone: when
    the conversions of an entry succeed in a static segment, the entry
    has the same run in every larger segment that starts with the same
    bytes, and stands for the same failure there. *)
Theorem enter_frame {T : Target} (w : World) (m' : Mem) (e : Entry) (c : Call)
    (fuel fuel' : nat) :
  wf_world (extend w m') -> entry_ok e -> normalize (mem w) e = inr c ->
  (stage0_fuel w <= fuel)%nat -> (stage0_fuel (extend w m') <= fuel')%nat ->
  run fuel' (extend w m') (enter e) = run fuel w (enter e) /\
  (forall f, failure_of (mem w) e = Some f -> failure_of (mem w ++ m') e = Some f).
Proof.
  intros Hw' He Hc Hf Hf'. split; [| intros f; apply failure_of_frame].
  assert (wf_world w) as Hw
    by (unfold wf_world, extend in *; cbn [mem] in Hw'; rewrite length_app in Hw'; lia).
  rewrite (run_enter_ge w Hw e fuel He Hf), (run_enter_ge _ Hw' e fuel' He Hf').
  unfold reference, extend. cbn [mem]. rewrite (normalize_frame _ m' _ _ Hc), Hc. reflexivity.
Qed.

(** ** The theorems at work, on the segment [demo_mem] *)

Lemma demo_entry_ok (expr file line : Z) :
  (0 <=? expr) && (expr <? 100) && (0 <=? file) && (file <? 100) = true ->
  entry_ok (T := target64) (Stage0Fail expr file line).
Proof.
  rewrite !andb_true_iff, !Z.leb_le, !Z.ltb_lt. intros [[[? ?] ?] ?].
  split; split; try assumption; apply Z.lt_trans with 100; (assumption || reflexivity).
Qed.

Lemma demo_entry_ok32 (expr file line : Z) :
  (0 <=? expr) && (expr <? 100) && (0 <=? file) && (file <? 100) = true ->
  entry_ok (T := target32) (Stage0Fail expr file line).
Proof.
  rewrite !andb_true_iff, !Z.leb_le, !Z.ltb_lt. intros [[[? ?] ?] ?].
  split; split; try assumption; apply Z.lt_trans with 100; (assumption || reflexivity).
Qed.

Lemma width_independent_witness :
  run 72 demo_world (enter (T := target32) (Stage0Fail 0 5 10)) =
  run 72 demo_world (enter (T := target64) (Stage0Fail 0 5 10)).
Proof.
  exact (width_independent target32 target64 demo_world (Stage0Fail 0 5 10) 72
           eq_refl eq_refl (demo_entry_ok32 0 5 10 eq_refl) (demo_entry_ok 0 5 10 eq_refl)
           (le_n 72)).
Defined.

Lemma enter_reference_witness :
  run 72 demo_world (enter (T := target64) (Stage0Fail 0 13 10)) =
  Some (Ended (Fault 17), []).
Proof.
  exact (enter_reference (T := target64) demo_world demo_wf (Stage0Fail 0 13 10) 72
           (demo_entry_ok 0 13 10 eq_refl) (le_n 72)).
Defined.

Lemma enter_as_current_witness :
  shape (run 72 demo_world (enter (T := target64) (Stage0Fail 0 5 10))) =
  shape (run 2 demo_world (enter (T := target64) (CurrentFail (Slice 0 4) (Slice 5 7) 10))).
Proof.
  exact (enter_as_current (T := target64) demo_world demo_wf (Stage0Fail 0 5 10)
           (Fail (Slice 0 4) (Slice 5 7) 10) 72 2 eq_refl
           (demo_entry_ok 0 5 10 eq_refl)
           eq_refl (le_n 72) (le_n 2)).
Defined.

Lemma enter_refines_witness :
  exists c, normalize demo_mem (Stage0Fail 0 5 10) = inr c /\
    refines demo_mem (run 72 demo_world (enter (T := target64) (Stage0Fail 0 5 10)))
      (returns_of Returns) (ExplicitFailure (B "oops") (MkLocation (B "main.rs") 10)).
Proof.
  exact (enter_refines (T := target64) demo_world demo_wf (Stage0Fail 0 5 10) _
           (fun _ _ _ => Returns) 72
           (demo_entry_ok 0 5 10 eq_refl)
           eq_refl eq_refl (le_n 72)).
Defined.

Lemma stage0_slices_valid_witness :
  is_c_str demo_mem 5 7 /\ 5 + 7 < 17 /\
  (exists message, write demo_mem (MkArguments [Hole] [ArgStr (Slice 0 4)]) = Some message) /\
  (exists f, failure_of demo_mem (Stage0Fail 0 5 10) = Some f).
Proof.
  apply (stage0_slices_valid (T := target64) demo_world (Stage0Fail 0 5 10) 72
           (Ended Aborted)
           [ObsCall (LinkName (B "rust_begin_unwind")) (MkArguments [Hole] [ArgStr (Slice 0 4)])
              (Slice 5 7) 10; ObsAbort]
           (LinkName (B "rust_begin_unwind")) (MkArguments [Hole] [ArgStr (Slice 0 4)])
           (Slice 5 7) 10 demo_wf (demo_entry_ok 0 5 10 eq_refl) eq_refl);
    [vm_compute; reflexivity | left; reflexivity].
Defined.

Lemma enter_frame_witness :
  run 88 (extend demo_world (B "more")) (enter (T := target64) (Stage0Fail 0 5 10)) =
    run 72 demo_world (enter (T := target64) (Stage0Fail 0 5 10)) /\
  (forall f, failure_of demo_mem (Stage0Fail 0 5 10) = Some f ->
             failure_of (demo_mem ++ B "more") (Stage0Fail 0 5 10) = Some f).
Proof.
  exact (enter_frame (T := target64) demo_world (B "more") (Stage0Fail 0 5 10)
           (Fail (Slice 0 4) (Slice 5 7) 10) 72 88 eq_refl (demo_entry_ok 0 5 10 eq_refl)
           eq_refl (le_n 72) (le_n 88)).
Defined.
