(* ===== verification/Simulation.v ===== *)
(** * Simulation: a failure call, step by step, against the machine

    [Boundary] relates the whole run of a lang item to a complete run of
    the machine of the specification. This file relates them step by
    step: every step of the implementation ([step] of [Effects]) is
    matched by steps of the machine ([Machine.step] of [Spec]) that emit
    the same signals.

    - [matches]: a thread that has ended stands at the terminal phase of
      its outcome, a thread that runs at a phase that is not terminal.
    - [sim n s p]: the status [s] matches the phase [p], it ends within
      [n] steps, and what it still does is what the machine still does
      from [p]. The index is the measure of the diagram: it bounds the
      steps that the machine does not answer, which are the loads of the
      stage0 conversions and the silent steps of the tree.
    - [sim_step]: the diagram. One step of the implementation from a
      status in [sim (S n)] is answered by none, one or several steps of
      the machine with the same signals, and leads to [sim n].
    - [sim_enter]: a lang item called on arguments that stand for a
      failure starts in [sim] with the machine at [Idle].

    [enter_simulated] puts them together: whenever the run of a lang
    item is stopped, what it has done so far is a run of the machine. *)

From Stdlib Require Import ZArith List Ascii Bool Lia.
From ITree Require Import ITree.
From S2P Require Import Prelude Uint StaticMem Fmt Effects CStr Spec Failure Boundary.
Import ListNotations.

(** ** The match relation *)

Definition matches (s : Status void) (p : Machine.Phase) : Prop :=
  match s with
  | Done o => abs_outcome o = Some p
  | Running _ => ~ Machine.terminal p
  end.

Section Simulation.
Context (w : World) (returns : bool) (f : Failure).

Definition sim (n : nat) (s : Status void) (p : Machine.Phase) : Prop :=
  matches s p /\
  exists o tr l q,
    steps n w s = (Done o, tr) /\ abs_outcome o = Some q /\
    abs_trace (mem w) tr = Some l /\ Machine.steps returns f p l q.

(** ** Steps without a signal *)

Lemma abs_outcome_terminal {R : Type} (o : Outcome R) (p : Machine.Phase) :
  abs_outcome o = Some p -> Machine.terminal p.
Proof.
  destruct o as [r | []]; cbn; try discriminate; intros [= <-]; [left | right]; reflexivity.
Qed.

Lemma abs_trace_app_Some (tr tr' : list Obs) (l : list Signal) :
  abs_trace (mem w) (tr ++ tr') = Some l ->
  exists l1 l2, abs_trace (mem w) tr = Some l1 /\ abs_trace (mem w) tr' = Some l2 /\
                l = l1 ++ l2.
Proof.
  rewrite abs_trace_app. destruct (abs_trace (mem w) tr) as [l1|]; [| discriminate].
  destruct (abs_trace (mem w) tr') as [l2|]; [| discriminate].
  intros [= <-]. exists l1, l2. auto.
Qed.

(** A step that emits nothing does not end the call as the machine
    ends: it goes on, or it ends in a fault or an unresolved symbol. *)
Lemma step_silent (t : itree failE void) :
  snd (step w t) = [] ->
  match fst (step w t) with
  | Done o => abs_outcome o = None
  | Running _ => True
  end.
Proof.
  unfold step. destruct (observe t) as [[] | t' | X e k]; [exact (fun _ => I) |].
  revert k. destruct e as [[a] | [[sym fmt file line] | []]]; intros k; cbn.
  - unfold step_load. destruct (load (mem w) a); reflexivity.
  - unfold step_extern. destruct (linked w sym) as [h|]; [| reflexivity].
    destruct (h fmt file line); discriminate.
  - discriminate.
Qed.

Lemma steps_silent (n : nat) (t : itree failE void) (o : Outcome void) :
  steps n w (Running t) = (Done o, []) -> abs_outcome o = None.
Proof.
  revert t. induction n as [|n IH]; intros t; [discriminate |].
  cbn [steps step_status]. unfold after. intros [= Ho Htr].
  apply app_eq_nil in Htr as [Ht Htr]. pose proof (step_silent t Ht) as Hs.
  destruct (fst (step w t)) as [t' | o'].
  - apply (IH t'). rewrite <- Ho, <- Htr. apply surjective_pairing.
  - rewrite steps_done in Ho. injection Ho as <-. exact Hs.
Qed.

(** ** The index *)

Lemma sim_done (n m : nat) (o : Outcome void) (p : Machine.Phase) :
  sim n (Done o) p -> sim m (Done o) p.
Proof. unfold sim. rewrite !steps_done. exact (fun H => H). Qed.

Lemma sim_mono (n k : nat) (s : Status void) (p : Machine.Phase) :
  sim n s p -> sim (k + n) s p.
Proof.
  intros (Hm & o & tr & l & q & Hs & H). split; [exact Hm |]. exists o, tr, l, q.
  split; [| exact H]. rewrite Nat.add_comm, steps_add, Hs. cbn [fst snd]. rewrite steps_done.
  unfold after. cbn [fst snd]. rewrite app_nil_r. reflexivity.
Qed.

Lemma sim_ended (n m : nat) (s : Status void) (p : Machine.Phase) :
  sim n s p -> (n <= m)%nat -> exists o, fst (steps m w s) = Done o.
Proof.
  intros (_ & o & tr & _ & _ & Hs & _) Hle. exists o.
  replace m with (n + (m - n))%nat by lia. rewrite steps_add, Hs. cbn [fst snd].
  rewrite steps_done. reflexivity.
Qed.

(** ** The diagram *)

Lemma sim_after (n : nat) (s : Status void) (p q : Machine.Phase) (o : Outcome void)
    (tr : list Obs) (l : list Signal) :
  steps n w s = (Done o, tr) -> abs_outcome o = Some q ->
  abs_trace (mem w) tr = Some l -> Machine.steps returns f p l q ->
  exists p', Machine.steps returns f p [] p' /\ sim n s p'.
Proof.
  intros Hs Ho Hl Hm. destruct s as [t | o'].
  - destruct (steps_split _ _ _ _ _ Hm [] l eq_refl) as (p' & H1 & H2).
    exists p'. split; [exact H1 |]. split; [| exists o, tr, l, q; auto].
    intros Hp. destruct (steps_terminal _ _ _ _ _ Hp H2) as [-> _].
    apply abs_trace_length in Hl. destruct tr; [| discriminate].
    rewrite (steps_silent n t o Hs) in Ho. discriminate.
  - rewrite steps_done in Hs. injection Hs as <- <-. injection Hl as <-.
    exists q. split; [exact Hm |]. split; [exact Ho |].
    exists o', [], [], q. rewrite steps_done. repeat split; [exact Ho | constructor].
Qed.

Lemma sim_step (n : nat) (t : itree failE void) (p : Machine.Phase) :
  sim (S n) (Running t) p ->
  exists l p', abs_trace (mem w) (snd (step w t)) = Some l /\
               Machine.steps returns f p l p' /\ sim n (fst (step w t)) p'.
Proof.
  intros (_ & o & tr & l & q & Hs & Ho & Hl & Hm). cbn [steps step_status] in Hs.
  unfold after in Hs. injection Hs as Hs Htr. subst tr.
  apply abs_trace_app_Some in Hl as (l1 & l2 & Hl1 & Hl2 & ->).
  destruct (steps_split _ _ _ _ _ Hm l1 l2 eq_refl) as (p1 & H1 & H2).
  destruct (sim_after n (fst (step w t)) p1 q o _ l2
              (eq_trans (surjective_pairing _) (f_equal2 pair Hs eq_refl)) Ho Hl2 H2)
    as (p' & H3 & Hsim).
  exists l1, p'. split; [exact Hl1 |]. split; [| exact Hsim].
  rewrite <- (app_nil_r l1). exact (steps_trans _ _ _ _ _ _ _ H1 H3).
Qed.

Lemma sim_steps (n N : nat) (s : Status void) (p : Machine.Phase) :
  sim (n + N) s p ->
  exists l p', abs_trace (mem w) (snd (steps n w s)) = Some l /\
               Machine.steps returns f p l p' /\ sim N (fst (steps n w s)) p'.
Proof.
  revert s p. induction n as [|n IH]; intros s p H.
  - exists [], p. repeat split; [constructor | apply H | apply H].
  - destruct s as [t | o].
    + destruct (sim_step _ t p H) as (l1 & p1 & Hl1 & H1 & Hsim).
      destruct (IH _ _ Hsim) as (l2 & p2 & Hl2 & H2 & Hsim').
      exists (l1 ++ l2), p2. cbn [steps step_status]. unfold after. cbn [fst snd].
      rewrite abs_trace_app, Hl1, Hl2. repeat split; [| apply Hsim' | apply Hsim'].
      exact (steps_trans _ _ _ _ _ _ _ H1 H2).
    + rewrite steps_done. exists [], p. cbn [fst snd].
      repeat split; [constructor | apply H | apply (sim_done (S n + N)), H].
Qed.

End Simulation.

(** ** The lang items against the machine *)

Section Entry.
Context {T : Target} (w : World) (Hw : wf_world w).
Context (e : Entry) (f : Failure) (c : Call) (h : Hook).
Context (He : entry_ok e) (Hf : failure_of (mem w) e = Some f).
Context (Hc : normalize (mem w) e = inr c).
Context (Hl : linked w (extern_begin_unwind (is_stage0 e)) = Some h).

(** A lang item called on arguments that stand for a failure starts in
    the relation, with the machine at [Idle]. *)
Lemma sim_enter :
  sim w (returns_of (h (call_fmt c) (call_file c) (call_line c))) f
    (stage0_fuel w) (Running (enter e)) Machine.Idle.
Proof.
  pose proof (abs_run_enter w Hw e f c h _ He Hf Hc Hl (le_n _)) as H.
  rewrite run_steps in H. unfold abs_run, finished in H.
  destruct (steps (stage0_fuel w) w (Running (enter e))) as [[t | o] tr] eqn:Hs;
    [discriminate |].
  cbn [fst snd] in H. destruct (abs_outcome o) as [q|] eqn:Ho; [| discriminate].
  destruct (abs_trace (mem w) tr) as [l|] eqn:Htr; [| discriminate]. injection H as H.
  split; [intros [|]; discriminate |]. exists o, tr, l, q.
  split; [exact Hs |]. split; [exact Ho |]. split; [exact Htr |].
  pose proof (raise_steps (returns_of (h (call_fmt c) (call_file c) (call_line c))) f) as R.
  rewrite <- H in R. exact R.
Qed.

(** C14. Stopped after any number of steps, in the middle of a stage0
    scan or between the call of the hook and the abort, a lang item
    called on arguments that stand for a failure has done what the
    machine of the specification does on some run from [Idle]: the
    events so far are the signals of that run, the item has ended
    exactly when the machine is in the terminal phase of its outcome,
    and it has ended once it has taken the steps of a stage0 lang item. *)
Theorem enter_simulated (n : nat) :
  exists l p,
    abs_trace (mem w) (snd (steps n w (Running (enter e)))) = Some l /\
    Machine.steps (returns_of (h (call_fmt c) (call_file c) (call_line c))) f
      Machine.Idle l p /\
    matches (fst (steps n w (Running (enter e)))) p /\
    ((stage0_fuel w <= n)%nat -> Machine.terminal p).
Proof.
  pose proof sim_enter as H0.
  destruct (sim_steps _ _ _ n _ _ _ (sim_mono _ _ _ _ n _ _ H0)) as (l & p & Hl' & Hm & Hs & _).
  exists l, p. split; [exact Hl' |]. split; [exact Hm |]. split; [exact Hs |].
  intros Hn. destruct (sim_ended _ _ _ _ n _ _ H0 Hn) as [o Ho]. rewrite Ho in Hs.
  exact (abs_outcome_terminal o p Hs).
Qed.

End Entry.

(** ** Between the hook and the abort

    The stage0 lang item [fail_] over the segment [demo_mem] of
    [Failure], with a hook that returns: after 25 steps the two strings
    are converted and the hook has been called and has returned, and the
    abort is the next step. The machine is in [Dispatching]. *)

Example hook_returned :
  abs_trace demo_mem
    (snd (steps 25 demo_world (Running (enter (T := target64) (Stage0Fail 0 5 10))))) =
    Some [Dispatched (B "oops") (MkLocation (B "main.rs") 10)] /\
  abs_trace demo_mem
    (snd (steps 26 demo_world (Running (enter (T := target64) (Stage0Fail 0 5 10))))) =
    Some [Dispatched (B "oops") (MkLocation (B "main.rs") 10); AbortInvoked].
Proof. split; vm_compute; reflexivity. Qed.

Lemma enter_simulated_witness :
  exists l p,
    abs_trace demo_mem
      (snd (steps 25 demo_world (Running (enter (T := target64) (Stage0Fail 0 5 10))))) =
      Some l /\
    Machine.steps true (ExplicitFailure (B "oops") (MkLocation (B "main.rs") 10))
      Machine.Idle l p /\
    matches (fst (steps 25 demo_world (Running (enter (T := target64) (Stage0Fail 0 5 10))))) p /\
    ((72 <= 25)%nat -> Machine.terminal p).
Proof.
  exact (enter_simulated (T := target64) demo_world demo_wf (Stage0Fail 0 5 10) _
           (Fail (Slice 0 4) (Slice 5 7) 10) (fun _ _ _ => Returns)
           (demo_entry_ok 0 5 10 eq_refl) eq_refl eq_refl eq_refl 25).
Defined.
