(* ===== verification/Threads.v ===== *)
(** * Threads: several failures at once

    A failure runs on the thread that raised it; [failure.rs] has no
    state that threads share. What threads do share is the process: the
    hook ends the thread that called it, the abort ends them all. This
    file interleaves the steps of a pool of threads under an arbitrary
    schedule.

    - [Pool]: the status of each thread; a pool is [dead] once a thread
      has aborted.
    - [turn] and [exec]: one step of the thread the scheduler picks, and
      a whole schedule; a dead pool does not move.
    - [view]: what one thread contributes to the trace of the process.
    - [process]: a pool with one thread per entry, each at one of the
      four call shapes of [Failure]; a thread at a stage0 lang item
      takes a step for every byte it scans, and the steps of the others
      fall in between.
    - [events]: what a thread does when it runs alone, the events of
      its [reference] of [Boundary].
    - [blocks]: the schedule that runs the threads of a list one after
      the other, each to its end.

    The theorems show that a thread sees nothing of the others until the
    process dies ([exec_local]), that an abort is the last event of a
    process ([exec_abort_last]), that a trace is the interleaving of the
    views of its threads ([trace_views]), and, for threads that raise
    failures, that each calls the hook at most once, that all of them do
    under a fair schedule when the hook keeps its contract
    ([fair_schedule_dispatches_all]), that the events of the process
    are then the events of its threads up to their order
    ([fair_schedule_events]), and that every order is the order of some
    schedule ([every_order_reachable]). *)

From stdpp Require Import base list.
From ITree Require Import ITree.
From S2P Require Import Prelude Uint StaticMem Fmt Effects CStr Failure Boundary.

(** ** Pools and schedules *)

Abbreviation Pool := (list (Status void)).

Definition Event : Type := nat * Obs.

Definition dead (P : Pool) : bool := existsb is_aborted P.

Definition label (i : nat) (tr : list Obs) : list Event := pair i <$> tr.

Definition turn (w : World) (i : nat) (P : Pool) : Pool * list Event :=
  if dead P then (P, [])
  else match P !! i with
       | Some s => (<[i := fst (step_status w s)]> P, label i (snd (step_status w s)))
       | None => (P, [])
       end.

Fixpoint exec (w : World) (sched : list nat) (P : Pool) : Pool * list Event :=
  match sched with
  | [] => (P, [])
  | i :: sched' =>
      let y := turn w i P in
      let x := exec w sched' (fst y) in
      (fst x, snd y ++ snd x)
  end.

Definition view (i : nat) (tr : list Event) : list Obs :=
  snd <$> filter (fun e => fst e = i) tr.

Definition turns (i : nat) (sched : list nat) : nat := length (filter (fun j => j = i) sched).

Definition spawn (ts : list (itree failE void)) : Pool := Running <$> ts.

(** A trace without abort. *)
Definition abort_free (tr : list Event) : Prop :=
  Forall (fun e => is_abort (snd e) = false) tr.

(** ** Dead pools *)

Lemma dead_Forall (P : Pool) : dead P = false <-> Forall (fun s => is_aborted s = false) P.
Proof.
  unfold dead. induction P as [|s P IH]; cbn [existsb].
  - split; [constructor | reflexivity].
  - rewrite orb_false_iff, Forall_cons, IH. reflexivity.
Qed.

Lemma dead_lookup (P : Pool) (i : nat) (s : Status void) :
  dead P = false -> P !! i = Some s -> is_aborted s = false.
Proof. rewrite dead_Forall, Forall_lookup. intros H Hi. exact (H i s Hi). Qed.

Lemma dead_insert (P : Pool) (i : nat) (s : Status void) :
  dead P = false -> i < length P -> dead (<[i := s]> P) = is_aborted s.
Proof.
  intros Hd Hi. destruct (is_aborted s) eqn:E.
  - apply existsb_exists. exists s. split; [| exact E].
    apply list_elem_of_In, list_elem_of_lookup. exists i. by apply list_lookup_insert_eq.
  - apply dead_Forall, Forall_insert; [by apply dead_Forall | exact E].
Qed.

Lemma turn_dead (w : World) (i : nat) (P : Pool) : dead P = true -> turn w i P = (P, []).
Proof. intros H. unfold turn. by rewrite H. Qed.

Lemma exec_dead (w : World) (sched : list nat) (P : Pool) :
  dead P = true -> exec w sched P = (P, []).
Proof.
  intros H. induction sched as [|i sched IH]; [reflexivity |].
  cbn [exec]. rewrite (turn_dead _ _ _ H). cbn [fst snd]. by rewrite IH.
Qed.

(** ** Views *)

Lemma view_app (i : nat) (tr tr' : list Event) : view i (tr ++ tr') = view i tr ++ view i tr'.
Proof. unfold view. by rewrite filter_app, fmap_app. Qed.

Lemma view_label (i j : nat) (tr : list Obs) :
  view i (label j tr) = if decide (j = i) then tr else [].
Proof.
  unfold view, label. destruct (decide (j = i)) as [He | Hne];
    induction tr as [|o tr IH]; try reflexivity; cbn [fmap list_fmap].
  - rewrite filter_cons_True by exact He. cbn [fmap list_fmap snd]. by f_equal.
  - by rewrite filter_cons_False.
Qed.

Lemma turns_cons (i j : nat) (sched : list nat) :
  turns i (j :: sched) = if decide (j = i) then S (turns i sched) else turns i sched.
Proof. unfold turns. rewrite filter_cons. by destruct (decide (j = i)). Qed.

(** ** One turn, seen from one thread *)

Lemma turn_other (w : World) (i j : nat) (P : Pool) :
  j <> i -> fst (turn w j P) !! i = P !! i /\ view i (snd (turn w j P)) = [].
Proof.
  intros Hne. unfold turn. destruct (dead P); [done |].
  destruct (P !! j) as [s|]; [| done]. cbn [fst snd].
  rewrite list_lookup_insert_ne, view_label by done. by rewrite decide_False.
Qed.

Lemma turn_self (w : World) (i : nat) (P : Pool) (s : Status void) :
  dead P = false -> P !! i = Some s ->
  fst (turn w i P) !! i = Some (fst (step_status w s)) /\
  view i (snd (turn w i P)) = snd (step_status w s).
Proof.
  intros Hd Hi. unfold turn. rewrite Hd, Hi. cbn [fst snd].
  rewrite list_lookup_insert_eq, view_label by (by eapply lookup_lt_Some).
  by rewrite decide_True.
Qed.

(** ** A thread sees nothing of the others *)

(** What thread [i] has done after the schedule [sched] is what it does
    alone in some number of steps, at most its turns; and in all its
    turns if the process is still alive. *)
Lemma exec_local (w : World) (sched : list nat) (P : Pool) (i : nat) (s : Status void) :
  P !! i = Some s ->
  exists n, n <= turns i sched /\
    fst (exec w sched P) !! i = Some (fst (steps n w s)) /\
    view i (snd (exec w sched P)) = snd (steps n w s) /\
    (dead (fst (exec w sched P)) = false -> n = turns i sched).
Proof.
  revert P s. induction sched as [|j sched IH]; intros P s Hi.
  { exists 0. by repeat split. }
  destruct (dead P) eqn:Hd.
  { exists 0. rewrite (exec_dead _ _ _ Hd). cbn [fst snd].
    repeat split; [lia | done | congruence]. }
  cbn [exec fst snd]. rewrite view_app, turns_cons. destruct (decide (j = i)) as [-> | Hne].
  - destruct (turn_self w i P s Hd Hi) as [Hl Hv].
    destruct (IH _ _ Hl) as (n & Hn & Hl' & Hv' & Hd'). exists (S n).
    cbn [steps after fst snd]. rewrite Hl', Hv, Hv'. repeat split; [lia | auto].
  - destruct (turn_other w i j P Hne) as [Hl Hv]. rewrite <- Hl in Hi.
    destruct (IH _ _ Hi) as (n & Hn & Hl' & Hv' & Hd'). exists n.
    rewrite Hv. by repeat split.
Qed.

Lemma steps_finished {R : Type} (n m : nat) (w : World) (s : Status R) (o : Outcome R)
    (tr : list Obs) :
  finished (steps n w s) = Some (o, tr) -> n <= m -> steps m w s = (Done o, tr).
Proof.
  intros Hf Hle. replace m with (n + (m - n)) by lia. rewrite steps_add.
  unfold finished in Hf. destruct (steps n w s) as [[t | o'] tr']; [done |].
  cbn [fst snd] in *. injection Hf as -> ->. rewrite steps_done. unfold after.
  cbn [fst snd]. by rewrite app_nil_r.
Qed.

Lemma steps_prefix {R : Type} (n m : nat) (w : World) (s : Status R) :
  n <= m -> snd (steps n w s) `prefix_of` snd (steps m w s).
Proof.
  intros Hle. replace m with (n + (m - n)) by lia. rewrite steps_add.
  cbn [after snd]. by apply prefix_app_r.
Qed.

(** What a thread contributes is a prefix of what it does alone. *)
Lemma exec_view_prefix (w : World) (sched : list nat) (P : Pool) (i fuel : nat)
    (t : itree failE void) (out : Outcome void) (tr : list Obs) :
  P !! i = Some (Running t) -> run fuel w t = Some (out, tr) ->
  view i (snd (exec w sched P)) `prefix_of` tr.
Proof.
  intros Hi Hr. rewrite run_steps in Hr.
  destruct (exec_local w sched P i _ Hi) as (n & _ & _ & -> & _).
  destruct (Nat.le_gt_cases n fuel) as [Hle | Hgt].
  - replace tr with (snd (steps fuel w (Running t))); [by apply steps_prefix |].
    by rewrite (steps_finished _ _ _ _ _ _ Hr (Nat.le_refl _)).
  - rewrite (steps_finished _ n _ _ _ _ Hr); [done | lia].
Qed.

(** ** The abort ends the process *)

Lemma label_abort_free (i : nat) (tr : list Obs) :
  existsb is_abort tr = false -> abort_free (label i tr).
Proof.
  unfold abort_free, label. induction tr as [|o tr IH]; cbn [existsb fmap list_fmap].
  - constructor.
  - rewrite orb_false_iff. intros [Ho Htr]. constructor; [exact Ho | by apply IH].
Qed.

Lemma turn_abort (w : World) (i : nat) (P : Pool) :
  dead P = false ->
  (dead (fst (turn w i P)) = true /\ snd (turn w i P) = [(i, ObsAbort)]) \/
  (dead (fst (turn w i P)) = false /\ abort_free (snd (turn w i P))).
Proof.
  intros Hd. unfold turn. rewrite Hd.
  destruct (P !! i) as [s|] eqn:Hi; [| right; split; [done | constructor]].
  cbn [fst snd]. rewrite dead_insert by (done || by eapply lookup_lt_Some).
  destruct s as [t | o]; cbn [step_status fst snd].
  - destruct (step_abort w t) as [[Ha Htr] | [Ha Htr]]; rewrite Ha; [left | right].
    + by rewrite Htr.
    + split; [done | by apply label_abort_free].
  - right. split; [exact (dead_lookup _ _ _ Hd Hi) | constructor].
Qed.

Lemma exec_abort_last (w : World) (sched : list nat) (P : Pool) :
  dead P = false ->
  (dead (fst (exec w sched P)) = true /\
   exists i tr, snd (exec w sched P) = tr ++ [(i, ObsAbort)] /\ abort_free tr) \/
  (dead (fst (exec w sched P)) = false /\ abort_free (snd (exec w sched P))).
Proof.
  revert P. induction sched as [|j sched IH]; intros P Hd.
  { right. split; [done | constructor]. }
  cbn [exec fst snd]. destruct (turn_abort w j P Hd) as [[Hd' Htr] | [Hd' Htr]].
  - left. rewrite (exec_dead _ _ _ Hd'), Htr. split; [done |].
    exists j, []. split; [done | constructor].
  - destruct (IH _ Hd') as [(Hd'' & k & tr & -> & Hfree) | [Hd'' Hfree]]; [left | right].
    + split; [done |]. exists k, (snd (turn w j P) ++ tr).
      split; [by rewrite app_assoc | by apply Forall_app].
    + split; [done | by apply Forall_app].
Qed.

Lemma spawn_alive (ts : list (itree failE void)) : dead (spawn ts) = false.
Proof. apply dead_Forall, Forall_fmap, Forall_true. done. Qed.

Lemma exec_length (w : World) (sched : list nat) (P : Pool) :
  length (fst (exec w sched P)) = length P.
Proof.
  revert P. induction sched as [|j sched IH]; intros P; [done |].
  cbn [exec fst]. rewrite IH. unfold turn. destruct (dead P); [done |].
  destruct (P !! j); cbn [fst]; [by rewrite length_insert | done].
Qed.

(** ** Pools that stay alive, and fair schedules *)

Lemma alive_run (w : World) (t : itree failE void) (fuel n : nat) (out : Outcome void)
    (tr : list Obs) :
  run fuel w t = Some (out, tr) -> out <> Ended Aborted ->
  is_aborted (fst (steps n w (Running t))) = false.
Proof.
  intros Hr Hne. destruct (is_aborted _) eqn:E; [| done]. exfalso. apply Hne.
  pose proof (run_steps n w t) as Hn. unfold finished in Hn.
  destruct (steps n w (Running t)) as [[t' | [r | []]] tr']; try discriminate E.
  cbn [fst snd] in Hn. by injection (run_det _ _ _ _ _ _ Hr Hn).
Qed.

Lemma exec_alive (w : World) (sched : list nat) (ts : list (itree failE void)) :
  (forall i t, ts !! i = Some t ->
     exists fuel out tr, run fuel w t = Some (out, tr) /\ out <> Ended Aborted) ->
  dead (fst (exec w sched (spawn ts))) = false.
Proof.
  intros Hts. apply dead_Forall, Forall_lookup. intros i s Hi.
  assert (i < length ts) as Hlt
    by (apply lookup_lt_Some in Hi; unfold spawn in Hi; by rewrite exec_length, length_fmap in Hi).
  destruct (lookup_lt_is_Some_2 _ _ Hlt) as [t Ht].
  destruct (Hts i t Ht) as (fuel & out & tr & Hr & Hne).
  destruct (exec_local w sched (spawn ts) i (Running t)) as (n & _ & Hl & _);
    [unfold spawn; by rewrite list_lookup_fmap, Ht |].
  rewrite Hl in Hi. injection Hi as <-. by eapply alive_run.
Qed.

Lemma exec_complete (w : World) (sched : list nat) (ts : list (itree failE void))
    (i fuel : nat) (t : itree failE void) (out : Outcome void) (tr : list Obs) :
  dead (fst (exec w sched (spawn ts))) = false ->
  ts !! i = Some t -> run fuel w t = Some (out, tr) -> fuel <= turns i sched ->
  fst (exec w sched (spawn ts)) !! i = Some (Done out) /\
  view i (snd (exec w sched (spawn ts))) = tr.
Proof.
  intros Hd Ht Hr Hle. rewrite run_steps in Hr.
  destruct (exec_local w sched (spawn ts) i (Running t)) as (n & _ & Hl & Hv & Hn);
    [unfold spawn; by rewrite list_lookup_fmap, Ht |].
  rewrite (Hn Hd) in Hl, Hv. rewrite (steps_finished _ _ _ _ _ _ Hr Hle) in Hl, Hv. done.
Qed.

(** ** A trace is the interleaving of its views *)

Lemma filter_ext_Forall {A : Type} (P Q : A -> Prop) `{!forall x, Decision (P x)}
    `{!forall x, Decision (Q x)} (l : list A) :
  Forall (fun x => P x <-> Q x) l -> filter P l = filter Q l.
Proof.
  induction 1 as [|x l Hx _ IH]; [done |]. rewrite !filter_cons, IH.
  destruct (decide (P x)), (decide (Q x)); tauto.
Qed.

Lemma label_view (i : nat) (tr : list Event) :
  label i (view i tr) = filter (fun e => fst e = i) tr.
Proof.
  unfold label, view. induction tr as [|[j o] tr IH]; [done |].
  rewrite filter_cons. cbn [fst]. destruct (decide (j = i)) as [-> |]; [| done].
  cbn [fmap list_fmap snd]. by f_equal.
Qed.

Lemma view_filter_lt (i n : nat) (tr : list Event) :
  i < n -> view i (filter (fun e => fst e < n) tr) = view i tr.
Proof.
  intros Hi. unfold view. rewrite list_filter_filter. f_equal.
  apply list_filter_iff. intros e. split; [by intros [? _] | intros <-; by split].
Qed.

Lemma trace_views (n : nat) (tr : list Event) :
  Forall (fun e => fst e < n) tr ->
  tr ≡ₚ concat ((fun i => label i (view i tr)) <$> seq 0 n).
Proof.
  revert tr. induction n as [|n IH]; intros tr Htr.
  { destruct tr as [|e tr]; [done |]. apply Forall_cons in Htr as [? _]. lia. }
  rewrite seq_S, fmap_app, concat_app. cbn [fmap list_fmap concat]. rewrite app_nil_r.
  rewrite <- (filter_app_complement (fun e => fst e < n) tr) at 1. apply Permutation_app.
  - rewrite (IH (filter (fun e => fst e < n) tr)) by (apply Forall_forall; intros e;
      by rewrite list_elem_of_filter; intros [? _]).
    rewrite (list_fmap_ext _ (fun i => label i (view i tr)) (seq 0 n)); [done |].
    intros k i Hk. apply lookup_seq in Hk as [-> Hk]. by rewrite view_filter_lt.
  - rewrite label_view, (filter_ext_Forall _ (fun e => fst e = 0 + n) tr); [done |].
    eapply Forall_impl; [exact Htr |]. intros e He. cbn beta in *. lia.
Qed.

Lemma turn_ids (w : World) (i : nat) (P : Pool) :
  Forall (fun e => fst e < length P) (snd (turn w i P)).
Proof.
  unfold turn. destruct (dead P); [constructor |].
  destruct (P !! i) as [s|] eqn:Hi; [| constructor]. cbn [snd]. unfold label.
  apply Forall_fmap, Forall_true. intros o. cbn. by eapply lookup_lt_Some.
Qed.

Lemma exec_ids (w : World) (sched : list nat) (P : Pool) :
  Forall (fun e => fst e < length P) (snd (exec w sched P)).
Proof.
  revert P. induction sched as [|i sched IH]; intros P; [constructor |].
  cbn [exec snd]. apply Forall_app. split; [apply turn_ids |].
  specialize (IH (fst (turn w i P))). replace (length (fst (turn w i P))) with (length P) in IH;
    [exact IH |].
  unfold turn. destruct (dead P); [done |]. destruct (P !! i); [| done].
  cbn [fst]. by rewrite length_insert.
Qed.

Lemma concat_fmap_bind {A B : Type} (f : A -> list B) (l : list A) :
  concat (f <$> l) = l ≫= f.
Proof. induction l as [|x l IH]; [done |]. cbn. by rewrite IH. Qed.

Lemma bind_seq_ext {B : Type} (f g : nat -> list B) (n : nat) :
  (forall i, i < n -> f i = g i) -> seq 0 n ≫= f ≡ₚ seq 0 n ≫= g.
Proof.
  intros H. rewrite <- !concat_fmap_bind.
  rewrite (list_fmap_ext f g (seq 0 n)); [done |].
  intros k i Hk. apply lookup_seq in Hk as [-> Hk]. by apply H.
Qed.

(** A trace is determined, up to the order of events of different
    threads, by the views of the threads. *)
Lemma views_determine (n : nat) (tr tr' : list Event) :
  Forall (fun e => fst e < n) tr -> Forall (fun e => fst e < n) tr' ->
  (forall i, i < n -> view i tr = view i tr') -> tr ≡ₚ tr'.
Proof.
  intros Htr Htr' Hv. rewrite (trace_views n tr Htr), (trace_views n tr' Htr').
  rewrite (list_fmap_ext _ (fun i => label i (view i tr')) (seq 0 n)); [done |].
  intros k i Hk. apply lookup_seq in Hk as [-> Hk]. by rewrite Hv.
Qed.

(** ** Threads that raise failures

    A process is a pool with one thread per entry, each at one of the
    four call shapes. [call_obs] is the call a thread makes once its
    conversions are done, and [fair] asks of a schedule that each thread
    gets the turns that suffice for a stage0 lang item. *)

Definition process {T : Target} (entries : list Entry) : Pool := spawn (enter <$> entries).

Definition call_obs (stage0 : bool) (c : Call) : Obs :=
  ObsCall (stage_symbol stage0) (call_fmt c) (call_file c) (call_line c).

(** What thread [i] of a process does when it runs alone: the events
    of its reference. *)
Definition events (w : World) (entries : list Entry) (i : nat) : list Event :=
  match entries !! i with
  | Some e => label i (snd (reference w e))
  | None => []
  end.

Definition fair (w : World) (n : nat) (sched : list nat) : Prop :=
  forall i, i < n -> stage0_fuel w <= turns i sched.

Lemma dispatched_prefix (w : World) (sym : Symbol) (fmt : Arguments) (file : str) (line : Z) :
  snd (dispatched w sym fmt file line) `prefix_of` [ObsCall sym fmt file line; ObsAbort].
Proof.
  unfold dispatched. destruct (linked w sym) as [h|]; [| apply prefix_nil].
  destruct (h fmt file line); cbn [snd]; [| done]. by exists [ObsAbort].
Qed.

Section Process.
Context {T : Target} (w : World) (Hw : wf_world w).

Lemma process_lookup (entries : list Entry) (i : nat) (e : Entry) :
  entries !! i = Some e -> process entries !! i = Some (Running (enter e)).
Proof. intros Hi. unfold process, spawn. by rewrite !list_lookup_fmap, Hi. Qed.

Lemma run_thread (e : Entry) :
  entry_ok e ->
  run (stage0_fuel w) w (enter e) = Some (fst (reference w e), snd (reference w e)).
Proof. intros He. rewrite (run_enter w Hw e He). by destruct (reference w e). Qed.

Lemma reference_prefix (e : Entry) :
  snd (reference w e) `prefix_of`
    match normalize (mem w) e with
    | inl _ => []
    | inr c => [call_obs (is_stage0 e) c; ObsAbort]
    end.
Proof.
  unfold reference. destruct (normalize (mem w) e) as [a | c]; [done |].
  apply dispatched_prefix.
Qed.

(** C22. Whatever the schedule and whatever the other threads do, a
    thread that raises a failure through any of the four call shapes
    contributes to the trace of the process a prefix of its own call
    followed by the abort, and nothing if a conversion faults: it calls
    the hook at most once, with its own message and location. *)
Theorem threads_dispatch_at_most_once (entries : list Entry) (sched : list nat)
    (i : nat) (e : Entry) :
  entries !! i = Some e -> entry_ok e ->
  view i (snd (exec w sched (process entries))) `prefix_of`
    match normalize (mem w) e with
    | inl _ => []
    | inr c => [call_obs (is_stage0 e) c; ObsAbort]
    end.
Proof.
  intros Hi He. etrans; [| apply reference_prefix].
  eapply exec_view_prefix; [by apply process_lookup | by apply run_thread].
Qed.

(** ** When the hook keeps its contract *)

Context `{!Lawful w}.

Lemma reference_alive (e : Entry) : fst (reference w e) <> Ended Aborted.
Proof.
  unfold reference. destruct (normalize (mem w) e) as [a | c]; [done |].
  apply dispatched_unaborted; assumption.
Qed.

Lemma process_alive (entries : list Entry) (sched : list nat) :
  Forall entry_ok entries -> dead (fst (exec w sched (process entries))) = false.
Proof.
  intros Hok. apply exec_alive. intros j t Hj.
  apply list_lookup_fmap_Some in Hj as (e & -> & Hj).
  eexists _, _, _. split; [apply run_thread; by eapply Forall_lookup_1 |].
  apply reference_alive.
Qed.

(** A thread that got its turns has ended as it ends alone. *)
Lemma thread_complete (entries : list Entry) (sched : list nat) (i : nat) (e : Entry) :
  Forall entry_ok entries -> entries !! i = Some e -> stage0_fuel w <= turns i sched ->
  fst (exec w sched (process entries)) !! i = Some (Done (fst (reference w e))) /\
  view i (snd (exec w sched (process entries))) = snd (reference w e).
Proof.
  intros Hok Hi Hle. apply (exec_complete w sched _ i (stage0_fuel w) (enter e));
    [by apply process_alive | by rewrite list_lookup_fmap, Hi | | done].
  apply run_thread. by eapply Forall_lookup_1.
Qed.

(** C23. When the hook keeps its contract, every thread whose
    conversions succeed and that is given the turns of a stage0 lang
    item ends in [Halted] after exactly one call of the hook of its
    stage with its own message and location, under every schedule and
    whatever the shapes of the other threads. *)
Theorem fair_schedule_dispatches_all (entries : list Entry) (sched : list nat) (i : nat)
    (e : Entry) (c : Call) (h : Hook) :
  Forall entry_ok entries -> entries !! i = Some e ->
  normalize (mem w) e = inr c -> linked w (extern_begin_unwind (is_stage0 e)) = Some h ->
  stage0_fuel w <= turns i sched ->
  fst (exec w sched (process entries)) !! i = Some (Done (Ended Halted)) /\
  view i (snd (exec w sched (process entries))) = [call_obs (is_stage0 e) c].
Proof.
  intros Hok Hi Hc Hl Hle. destruct (thread_complete entries sched i e Hok Hi Hle) as [-> ->].
  unfold reference, dispatch. rewrite Hc.
  by rewrite (dispatched_diverges w _ _ _ _ h Hl (lawful_hook _ _ Hl)).
Qed.

(** C24. When the hook keeps its contract, the schedule does not
    matter: under every schedule that is fair to all threads, each
    thread has ended as its reference says, and the events of the
    process are the events of the references of its threads, up to the
    order of events of different threads. *)
Theorem fair_schedule_events (entries : list Entry) (sched : list nat) :
  Forall entry_ok entries -> fair w (length entries) sched ->
  fst (exec w sched (process entries)) = (fun e => Done (fst (reference w e))) <$> entries /\
  snd (exec w sched (process entries)) ≡ₚ seq 0 (length entries) ≫= events w entries.
Proof.
  intros Hok Hf.
  assert (length (process entries) = length entries) as Hn
    by (unfold process, spawn; by rewrite !length_fmap).
  split.
  - apply list_eq. intros i. rewrite list_lookup_fmap.
    destruct (entries !! i) as [e|] eqn:He; cbn [fmap option_fmap option_map].
    + apply (thread_complete entries sched i e Hok He), Hf. by eapply lookup_lt_Some.
    + apply lookup_ge_None_2. rewrite exec_length, Hn. by apply lookup_ge_None_1.
  - rewrite (trace_views (length entries) (snd (exec w sched (process entries))))
      by (rewrite <- Hn; apply exec_ids).
    rewrite concat_fmap_bind. apply bind_seq_ext. intros i Hi. unfold events.
    destruct (lookup_lt_is_Some_2 _ _ Hi) as [e He]. rewrite He.
    by destruct (thread_complete entries sched i e Hok He (Hf i Hi)) as [_ ->].
Qed.

End Process.

(** ** Every order of the threads

    [exec] on a block of turns of one thread is [steps] of that thread. *)

Lemma exec_app (w : World) (s1 s2 : list nat) (P : Pool) :
  exec w (s1 ++ s2) P =
  (fst (exec w s2 (fst (exec w s1 P))),
   snd (exec w s1 P) ++ snd (exec w s2 (fst (exec w s1 P)))).
Proof.
  revert P. induction s1 as [|i s1 IH]; intros P; cbn [app exec fst snd].
  - by destruct (exec w s2 P).
  - rewrite IH. cbn [fst snd]. by rewrite app_assoc.
Qed.

Lemma steps_aborted (w : World) (k : nat) (s : Status void) :
  is_aborted s = true -> is_aborted (fst (steps k w s)) = true.
Proof.
  intros H. destruct s as [t | o]; [done |]. by rewrite steps_done.
Qed.

Lemma exec_block (w : World) (k i : nat) (P : Pool) (s : Status void) :
  dead P = false -> P !! i = Some s -> is_aborted (fst (steps k w s)) = false ->
  exec w (replicate k i) P = (<[i := fst (steps k w s)]> P, label i (snd (steps k w s))).
Proof.
  revert P s. induction k as [|k IH]; intros P s Hd Hi Ha.
  - cbn. by rewrite list_insert_id.
  - cbn [replicate exec steps] in *. unfold turn. rewrite Hd, Hi. cbn [fst snd].
    set (s' := fst (step_status w s)) in *. unfold after in *. cbn [fst snd] in *.
    assert (is_aborted s' = false) as Hs'.
    { destruct (is_aborted s') eqn:E; [| done]. by rewrite (steps_aborted w k s' E) in Ha. }
    rewrite (IH (<[i := s']> P) s'); [| | | exact Ha].
    + cbn [fst snd]. rewrite list_insert_insert_eq. unfold label. by rewrite fmap_app.
    + rewrite dead_insert; [done | done | by eapply lookup_lt_Some].
    + apply list_lookup_insert_eq. by eapply lookup_lt_Some.
Qed.

Lemma exec_absent (w : World) (k i : nat) (P : Pool) :
  P !! i = None -> exec w (replicate k i) P = (P, []).
Proof.
  intros Hi. induction k as [|k IH]; [done |].
  cbn [replicate exec]. unfold turn. rewrite Hi. destruct (dead P); cbn [fst snd]; by rewrite IH.
Qed.

(** [blocks k order] gives [k] turns to each thread of [order], one
    thread after the other. *)
Definition blocks (k : nat) (order : list nat) : list nat := order ≫= replicate k.

Section Order.
Context {T : Target} (w : World) (Hw : wf_world w) `{!Lawful w}.

Lemma reference_unaborted (e : Entry) : is_aborted (Done (fst (reference w e))) = false.
Proof. pose proof (reference_alive w e) as Hna. by destruct (fst (reference w e)) as [|[]]. Qed.

Lemma exec_blocks (entries : list Entry) (order : list nat) (P : Pool) :
  Forall entry_ok entries -> NoDup order -> dead P = false ->
  (forall i, i ∈ order -> P !! i = process entries !! i) ->
  snd (exec w (blocks (stage0_fuel w) order) P) = order ≫= events w entries.
Proof.
  intros Hok. revert P. induction order as [|i order IH]; intros P Hnd Hd HP; [done |].
  apply NoDup_cons in Hnd as [Hi Hnd]. unfold blocks. cbn [mbind list_bind].
  change (order ≫= replicate (stage0_fuel w)) with (blocks (stage0_fuel w) order).
  rewrite exec_app. cbn [snd]. unfold events at 1.
  assert (P !! i = process entries !! i) as Hi0 by (apply HP; left).
  unfold process, spawn in Hi0. rewrite !list_lookup_fmap in Hi0.
  destruct (entries !! i) as [e|] eqn:He; cbn in Hi0.
  - pose proof (run_thread w Hw e (Forall_lookup_1 _ _ _ _ Hok He)) as Hr.
    rewrite run_steps in Hr. unfold finished in Hr.
    destruct (steps (stage0_fuel w) w (Running (enter e))) as [[t | o] tr] eqn:Hs;
      cbn [fst snd] in Hr; [done |]. injection Hr as -> ->.
    rewrite (exec_block w _ i P _ Hd Hi0); rewrite Hs; cbn [fst snd];
      [| apply reference_unaborted].
    f_equal. apply IH; [done | |].
    + rewrite dead_insert; [apply reference_unaborted | done | by eapply lookup_lt_Some].
    + intros j Hj. rewrite list_lookup_insert_ne by (intros ->; done). apply HP. by right.
  - rewrite (exec_absent w _ i P Hi0). cbn [fst snd app]. apply IH; [done | done |].
    intros j Hj. apply HP. by right.
Qed.

(** C25. The lang items take no lock and keep no order among threads:
    when the hook keeps its contract, for every order of the threads
    there is a schedule, which runs each thread to its end before the
    next, under which the events of the process are the events of the
    threads in exactly that order. *)
Theorem every_order_reachable (entries : list Entry) (order : list nat) :
  Forall entry_ok entries -> NoDup order ->
  snd (exec w (blocks (stage0_fuel w) order) (process entries)) = order ≫= events w entries.
Proof.
  intros Hok Hnd. apply exec_blocks; [done | done | apply spawn_alive | done].
Qed.
End Order.

(** ** Two threads

    One thread fails explicitly through the stage0 lang item and one on
    a bounds check through the current one, over the segment [demo_mem]
    of [Failure]. A stage0 lang item takes at most 72 steps there. *)

Definition demo_entries : list Entry :=
  [Stage0Fail 0 5 10; CurrentBounds (Slice 5 7) 42 5 3].

(** Thread 0 and thread 1 in turn, 72 times. *)
Definition demo_alternating : list nat := concat (replicate 72 [0; 1]).

Lemma demo_entries_ok : Forall (entry_ok (T := target64)) demo_entries.
Proof. repeat constructor; vm_compute; discriminate. Qed.

Lemma demo_turns (sched : list nat) (i : nat) :
  bool_decide (72 <= turns i sched) = true -> stage0_fuel demo_world <= turns i sched.
Proof. apply bool_decide_eq_true. Qed.

Lemma demo_fair (w : World) (sched : list nat) :
  stage0_fuel w = 72 ->
  bool_decide (72 <= turns 0 sched) && bool_decide (72 <= turns 1 sched) = true ->
  fair w (length demo_entries) sched.
Proof.
  intros Hw [H0 H1]%andb_true_iff. apply bool_decide_eq_true in H0, H1.
  intros [|[|i]] Hi; rewrite Hw; cbn in Hi; (done || lia).
Qed.

(** Thread 0 runs alone for 26 turns, with a hook that returns: it
    converts its two strings, calls the hook and aborts. *)
Lemma threads_dispatch_at_most_once_witness :
  view 0 (snd (exec demo_world (replicate 26 0) (process (T := target64) demo_entries)))
    `prefix_of` [call_obs true (Fail (Slice 0 4) (Slice 5 7) 10); ObsAbort].
Proof.
  exact (threads_dispatch_at_most_once (T := target64) demo_world demo_wf demo_entries
           (replicate 26 0) 0 _ eq_refl (Forall_inv demo_entries_ok)).
Defined.

Example thread_view_whole :
  view 0 (snd (exec demo_world (replicate 26 0) (process (T := target64) demo_entries))) =
  [call_obs true (Fail (Slice 0 4) (Slice 5 7) 10); ObsAbort].
Proof. vm_compute. reflexivity. Qed.

Lemma fair_schedule_dispatches_all_witness :
  fst (exec (world_unwinding demo_mem) demo_alternating (process (T := target64) demo_entries))
    !! 0 = Some (Done (Ended Halted)) /\
  view 0 (snd (exec (world_unwinding demo_mem) demo_alternating
                 (process (T := target64) demo_entries))) =
    [call_obs true (Fail (Slice 0 4) (Slice 5 7) 10)].
Proof.
  exact (fair_schedule_dispatches_all (T := target64) (world_unwinding demo_mem) demo_wf
           demo_entries demo_alternating 0 _ _ (fun _ _ _ => NeverReturns)
           demo_entries_ok eq_refl eq_refl eq_refl (demo_turns demo_alternating 0 eq_refl)).
Defined.

(** With a hook that returns, the first thread to reach the abort ends
    the process: here the second thread, after two turns, while the
    first is still converting its strings and never calls the hook. *)
Example returning_hook_kills (sched : list nat) :
  snd (exec demo_world (0 :: 1 :: 0 :: 1 :: sched) (process (T := target64) demo_entries)) =
  [(1, call_obs false (Bounds (Slice 5 7) 42 5 3)); (1, ObsAbort)].
Proof.
  change (0 :: 1 :: 0 :: 1 :: sched) with ([0; 1; 0; 1] ++ sched).
  cbn [exec app fst snd]. rewrite exec_dead by reflexivity. reflexivity.
Qed.

(** The lang items take no lock: the calls of two threads reach the hook
    in the order in which the scheduler lets them run. *)
Example hook_calls_in_either_order :
  let P := process (T := target64) [CurrentFail (Slice 0 4) (Slice 5 7) 10;
                                    CurrentBounds (Slice 5 7) 42 5 3] in
  snd (exec (world_unwinding demo_mem) [0; 1] P) =
    [(0, call_obs false (Fail (Slice 0 4) (Slice 5 7) 10));
     (1, call_obs false (Bounds (Slice 5 7) 42 5 3))] /\
  snd (exec (world_unwinding demo_mem) [1; 0] P) =
    [(1, call_obs false (Bounds (Slice 5 7) 42 5 3));
     (0, call_obs false (Fail (Slice 0 4) (Slice 5 7) 10))].
Proof. split; reflexivity. Qed.

Lemma fair_schedule_events_witness :
  fst (exec (world_unwinding demo_mem) demo_alternating (process (T := target64) demo_entries)) =
    (fun e => Done (fst (reference (world_unwinding demo_mem) e))) <$> demo_entries /\
  snd (exec (world_unwinding demo_mem) demo_alternating (process (T := target64) demo_entries))
    ≡ₚ seq 0 (length demo_entries) ≫= events (world_unwinding demo_mem) demo_entries.
Proof.
  exact (fair_schedule_events (T := target64) (world_unwinding demo_mem) demo_wf
           demo_entries demo_alternating demo_entries_ok
           (demo_fair (world_unwinding demo_mem) demo_alternating eq_refl eq_refl)).
Defined.

Lemma demo_order : NoDup [1; 0].
Proof. apply (bool_decide_unpack _). by vm_compute. Qed.

Lemma every_order_reachable_witness :
  snd (exec (world_unwinding demo_mem) (blocks 72 [1; 0]) (process (T := target64) demo_entries)) =
  [1; 0] ≫= events (world_unwinding demo_mem) demo_entries.
Proof.
  exact (every_order_reachable (T := target64) (world_unwinding demo_mem) demo_wf demo_entries
           [1; 0] demo_entries_ok demo_order).
Defined.

(** Thread 1 first: its call reaches the hook before the call of
    thread 0. *)
Example second_thread_first :
  snd (exec (world_unwinding demo_mem) (blocks 72 [1; 0]) (process (T := target64) demo_entries)) =
  [(1, call_obs false (Bounds (Slice 5 7) 42 5 3));
   (0, call_obs true (Fail (Slice 0 4) (Slice 5 7) 10))].
Proof. vm_compute. reflexivity. Qed.
