(* ===== verification/Items.v ===== *)
(** * Items: the items of [failure.rs], their attributes and their conditions

    Which functions of [failure.rs] exist in a build is decided by the
    [#[cfg]] attributes, and how the compiler finds and lays them out by
    [#[lang]], [#[link_name]], [#[cold]] and [#[inline(never)]]. This file
    holds the table of the items with their attributes as the source
    writes them, and the rules by which a configuration selects items.

    - [Cfg] and [cfg_holds]: a condition is a name or a negation; a
      [Config] says which names the build sets ([test], [stage0]).
    - [Attr], [Ty], [Kind] and [Item]: an item with its attributes, its
      signature and the imported or declared names its body refers to.
    - [use_fmt] ... [fn_begin_unwind], [extern_stage0], [extern_current]:
      the items, one definition each; [failure_rs] lists the items of the
      module and [externs] the declarations inside [begin_unwind]. The
      attributes of an [extern] block are given to the function it holds.
      [doc_begin_unwind] is the interface as the documentation of the
      module states it.
    - [compiled] and [crate]: an item is compiled when it has no [cfg]
      attribute or when all conditions of one of them hold. Every build
      is the build of its values of [test] and [stage0] ([crate_build]).

    The theorems show that a build that is not a test build has exactly
    one definition of each lang item, in the form of its stage; that the
    extern declared is the symbol [extern_begin_unwind] of [Failure] and
    has the documented signature up to a lifetime; that names are
    resolved, and which imports are used; and which items are cold and
    never inlined. *)

From stdpp Require Import base decidable list strings.
From S2P Require Import Prelude Effects Failure.

(** ** Conditions *)

Inductive Cfg : Type :=
| CfgName (n : string)
| CfgNot (p : Cfg).

Definition Config : Type := string -> bool.

Fixpoint cfg_holds (v : Config) (p : Cfg) : bool :=
  match p with
  | CfgName n => v n
  | CfgNot q => negb (cfg_holds v q)
  end.

(** The configuration that sets [test] and [stage0] as given and nothing
    else. *)
Definition build (test stage0 : bool) : Config :=
  fun n => if String.eqb n "test" then test
           else if String.eqb n "stage0" then stage0 else false.

(** ** Items *)

Inductive Attr : Type :=
| Cold
| InlineNever
| Lang (l : string)
| LinkNameOf (l : string)
| CfgAll (ps : list Cfg)
| Allow (lints : list string).

Inductive Ty : Type :=
| StaticStr
| Str
| RawU8
| Uint
| FmtArguments
| Never.

Inductive Kind : Type :=
| Use (path : list string)
| Fn (params : list Ty) (ret : Ty)
| ForeignFn (params : list Ty) (ret : Ty).

Record Item : Type := MkItem {
  item_name : string;
  item_pub : bool;
  item_attrs : list Attr;
  item_kind : Kind;
  item_refs : list string
}.

#[export] Instance Cfg_eq_dec : EqDecision Cfg.
Proof. solve_decision. Defined.

#[export] Instance Attr_eq_dec : EqDecision Attr.
Proof. solve_decision. Defined.

#[export] Instance Ty_eq_dec : EqDecision Ty.
Proof. solve_decision. Defined.

#[export] Instance Kind_eq_dec : EqDecision Kind.
Proof. solve_decision. Defined.

#[export] Instance Item_eq_dec : EqDecision Item.
Proof. solve_decision. Defined.

(** ** The items of [failure.rs] *)

Definition module_attrs : list Attr := [Allow ["dead_code"; "missing_doc"]].

Definition use_fmt : Item :=
  MkItem "fmt" false [] (Use ["fmt"]) [].

Definition use_intrinsics : Item :=
  MkItem "intrinsics" false [] (Use ["intrinsics"]) [].

Definition use_c_str_to_static_slice : Item :=
  MkItem "c_str_to_static_slice" false
    [CfgAll [CfgNot (CfgName "test"); CfgName "stage0"]]
    (Use ["str"; "raw"; "c_str_to_static_slice"]) [].

Definition fn_fail_current : Item :=
  MkItem "fail_" false
    [Cold; InlineNever; Lang "fail_";
     CfgAll [CfgNot (CfgName "test"); CfgNot (CfgName "stage0")]]
    (Fn [StaticStr; StaticStr; Uint] Never)
    ["begin_unwind"; "intrinsics"].

Definition fn_fail_stage0 : Item :=
  MkItem "fail_" false
    [Cold; InlineNever; Lang "fail_";
     CfgAll [CfgNot (CfgName "test"); CfgName "stage0"]]
    (Fn [RawU8; RawU8; Uint] Never)
    ["c_str_to_static_slice"; "begin_unwind"; "intrinsics"].

Definition fn_fail_bounds_check_current : Item :=
  MkItem "fail_bounds_check" false
    [Cold; Lang "fail_bounds_check";
     CfgAll [CfgNot (CfgName "test"); CfgNot (CfgName "stage0")]]
    (Fn [StaticStr; Uint; Uint; Uint] Never)
    ["begin_unwind"; "intrinsics"].

Definition fn_fail_bounds_check_stage0 : Item :=
  MkItem "fail_bounds_check" false
    [Cold; Lang "fail_bounds_check";
     CfgAll [CfgNot (CfgName "test"); CfgName "stage0"]]
    (Fn [RawU8; Uint; Uint; Uint] Never)
    ["c_str_to_static_slice"; "begin_unwind"; "intrinsics"].

Definition fn_begin_unwind : Item :=
  MkItem "begin_unwind" true [Cold]
    (Fn [FmtArguments; StaticStr; Uint] Never)
    ["fmt"; "begin_unwind"].

Definition extern_stage0 : Item :=
  MkItem "begin_unwind" false
    [Allow ["ctypes"]; CfgAll [CfgName "stage0"]; LinkNameOf "rust_begin_unwind"]
    (ForeignFn [FmtArguments; StaticStr; Uint] Never)
    ["fmt"].

Definition extern_current : Item :=
  MkItem "begin_unwind" false
    [Allow ["ctypes"]; CfgAll [CfgNot (CfgName "stage0")]; Lang "begin_unwind"]
    (ForeignFn [FmtArguments; StaticStr; Uint] Never)
    ["fmt"].

(** The interface as the documentation of the module states it:
    [fn begin_unwind(fmt: &fmt::Arguments, file: &str, line: uint) -> !]. *)
Definition doc_begin_unwind : Item :=
  MkItem "begin_unwind" false [] (ForeignFn [FmtArguments; Str; Uint] Never) ["fmt"].

Definition failure_rs : list Item :=
  [use_fmt; use_intrinsics; use_c_str_to_static_slice;
   fn_fail_current; fn_fail_stage0;
   fn_fail_bounds_check_current; fn_fail_bounds_check_stage0;
   fn_begin_unwind].

Definition externs : list Item := [extern_stage0; extern_current].

(** ** Selecting items *)

Definition attr_cfg (a : Attr) : option (list Cfg) :=
  match a with
  | CfgAll ps => Some ps
  | _ => None
  end.

Definition cfgs (it : Item) : list (list Cfg) := omap attr_cfg (item_attrs it).

Definition compiled (v : Config) (it : Item) : bool :=
  match cfgs it with
  | [] => true
  | l => existsb (forallb (cfg_holds v)) l
  end.

Definition crate (v : Config) : list Item := List.filter (compiled v) failure_rs.

Definition declared (v : Config) : list Item := List.filter (compiled v) externs.

Definition attr_lang (a : Attr) : option string :=
  match a with
  | Lang l => Some l
  | _ => None
  end.

Definition lang_of (it : Item) : option string := head (omap attr_lang (item_attrs it)).

Definition is_lang (l : string) (it : Item) : bool := bool_decide (lang_of it = Some l).

Definition lang_items (v : Config) (l : string) : list Item :=
  List.filter (is_lang l) (crate v).

Definition is_use (it : Item) : bool :=
  match item_kind it with
  | Use _ => true
  | _ => false
  end.

Definition params (it : Item) : list Ty :=
  match item_kind it with
  | Use _ => []
  | Fn ps _ | ForeignFn ps _ => ps
  end.

Definition result (it : Item) : option Ty :=
  match item_kind it with
  | Use _ => None
  | Fn _ r | ForeignFn _ r => Some r
  end.

(** A type with the lifetime of its reference forgotten. *)
Definition erase (t : Ty) : Ty :=
  match t with
  | StaticStr => Str
  | _ => t
  end.

(** The symbol the linker looks for. *)
Definition attr_symbol (a : Attr) : option Symbol :=
  match a with
  | LinkNameOf l => Some (LinkName (B l))
  | Lang l => Some (LangItem (B l))
  | _ => None
  end.

Definition symbol_of (it : Item) : option Symbol := head (omap attr_symbol (item_attrs it)).

(** The names an item can refer to: the items of the module and, inside
    [begin_unwind], the declarations of its [extern] blocks. *)
Definition scope (v : Config) : list string := item_name <$> (crate v ++ declared v).

(** ** A build is decided by [test] and [stage0] *)

Lemma compiled_build (v : Config) (it : Item) :
  it ∈ failure_rs ++ externs ->
  compiled v it = compiled (build (v "test") (v "stage0")) it.
Proof.
  intros Hin. unfold failure_rs, externs in Hin. cbn [app] in Hin.
  repeat (apply elem_of_cons in Hin as [-> | Hin]); try reflexivity.
  by apply elem_of_nil in Hin.
Qed.

Lemma crate_build (v : Config) : crate v = crate (build (v "test") (v "stage0")).
Proof.
  apply filter_ext_in. intros it Hin. apply compiled_build, elem_of_app. left.
  by apply list_elem_of_In.
Qed.

Lemma declared_build (v : Config) : declared v = declared (build (v "test") (v "stage0")).
Proof.
  apply filter_ext_in. intros it Hin. apply compiled_build, elem_of_app. right.
  by apply list_elem_of_In.
Qed.

Lemma is_lang_eq (l : string) (it : Item) : is_lang l it = true <-> lang_of it = Some l.
Proof. unfold is_lang. by rewrite bool_decide_eq_true. Qed.

Lemma lang_items_spec (v : Config) (l : string) (it : Item) :
  it ∈ lang_items v l <-> it ∈ crate v /\ lang_of it = Some l.
Proof.
  unfold lang_items. rewrite !list_elem_of_In, filter_In, is_lang_eq. reflexivity.
Qed.

(** [by_build v] splits a goal about the build [v] into the four builds
    and evaluates the items of each; [each_item H] splits a membership
    in a build into its items; [decide_it] settles a closed statement on
    items by evaluation. *)
Ltac eval_builds :=
  repeat match goal with
  | |- context [crate (build ?t ?s)] =>
      let l := eval vm_compute in (crate (build t s)) in
      change (crate (build t s)) with l
  | |- context [declared (build ?t ?s)] =>
      let l := eval vm_compute in (declared (build t s)) in
      change (declared (build t s)) with l
  end.

Ltac by_build v :=
  unfold lang_items, scope;
  rewrite ?(crate_build v), ?(declared_build v);
  destruct (v "test"), (v "stage0"); eval_builds.

Ltac each_item H :=
  repeat (apply elem_of_cons in H as [-> | H]); [.. | by apply elem_of_nil in H].

Ltac decide_it := apply (bool_decide_unpack _); by vm_compute.

(** ** Lang items *)

(** C9. A build that is not a test build has exactly one definition of
    the lang item [fail_] and one of [fail_bounds_check]; a test build
    has none. *)
Theorem lang_item_defined_once (v : Config) :
  length (lang_items v "fail_") = (if v "test" then 0 else 1) /\
  length (lang_items v "fail_bounds_check") = (if v "test" then 0 else 1).
Proof. by_build v; split; reflexivity. Qed.

(** C30. The lang items of a build have the form of its stage: at
    stage0 they take C strings and refer to [c_str_to_static_slice],
    otherwise they take slices and do not. *)
Theorem lang_item_form (v : Config) (l : string) (it : Item) :
  it ∈ lang_items v l ->
  (if v "stage0" then RawU8 ∈ params it /\ StaticStr ∉ params it
   else StaticStr ∈ params it /\ RawU8 ∉ params it) /\
  ("c_str_to_static_slice" ∈ item_refs it <-> v "stage0" = true).
Proof.
  rewrite lang_items_spec. intros [Hin Hl]. revert Hin.
  by_build v; intros Hin; each_item Hin; try discriminate Hl; decide_it.
Qed.

Lemma lang_item_form_witness :
  (RawU8 ∈ params fn_fail_bounds_check_stage0 /\
   StaticStr ∉ params fn_fail_bounds_check_stage0) /\
  ("c_str_to_static_slice" ∈ item_refs fn_fail_bounds_check_stage0 <-> true = true).
Proof.
  apply (lang_item_form (build false true) "fail_bounds_check"); decide_it.
Defined.

(** ** The extern *)

(** C8. Every build declares exactly one extern [begin_unwind], and its
    symbol is the one the model of [begin_unwind] calls: the link name
    [rust_begin_unwind] at stage0, the lang item [begin_unwind]
    otherwise. *)
Theorem extern_resolved (v : Config) :
  symbol_of <$> declared v = [Some (extern_begin_unwind (v "stage0"))].
Proof. by_build v; reflexivity. Qed.

(** C31. The public [begin_unwind] and the extern of every build have
    the name, the parameters and the result that the documentation of
    the module gives for the interface, but for one lifetime: the
    documentation takes [file] as [&str], the code as [&'static str]. *)
Theorem documented_interface (v : Config) (it : Item) :
  it ∈ fn_begin_unwind :: declared v ->
  item_name it = item_name doc_begin_unwind /\
  erase <$> params it = params doc_begin_unwind /\
  result it = result doc_begin_unwind /\
  StaticStr ∈ params it /\ StaticStr ∉ params doc_begin_unwind.
Proof. intros Hin. revert Hin. by_build v; intros Hin; each_item Hin; decide_it. Qed.

Lemma documented_interface_witness :
  item_name extern_stage0 = item_name doc_begin_unwind /\
  erase <$> params extern_stage0 = params doc_begin_unwind /\
  result extern_stage0 = result doc_begin_unwind /\
  StaticStr ∈ params extern_stage0 /\ StaticStr ∉ params doc_begin_unwind.
Proof. apply (documented_interface (build false true)). decide_it. Defined.

(** ** Names *)

(** C33. In every build, each name an item refers to is the name of an
    item of the build or of the extern it declares: no import and no
    function is missing. *)
Theorem refs_resolved (v : Config) (it : Item) (r : string) :
  it ∈ crate v ++ declared v -> r ∈ item_refs it -> r ∈ scope v.
Proof.
  intros Hin Hr. revert Hin.
  by_build v; cbn [app]; intros Hin; each_item Hin; cbn in Hr; each_item Hr; decide_it.
Qed.

Lemma refs_resolved_witness : "c_str_to_static_slice" ∈ scope (build false true).
Proof.
  apply (refs_resolved (build false true) fn_fail_stage0 "c_str_to_static_slice"); decide_it.
Defined.

(** C34. An import of a build is used by an item of the build exactly
    when the build is not a test build or the import is [fmt]:
    [c_str_to_static_slice] is imported only where the stage0 lang items
    are compiled, but [intrinsics] is imported in test builds too, where
    no item is left that refers to it. *)
Theorem imports_used (v : Config) (u : Item) :
  u ∈ crate v -> is_use u = true ->
  (Exists (fun it => item_name u ∈ item_refs it) (crate v ++ declared v) <->
   v "test" = false \/ u = use_fmt).
Proof.
  intros Hin Hu. revert Hin.
  by_build v; intros Hin; each_item Hin; try discriminate Hu; decide_it.
Qed.

Lemma imports_used_witness :
  Exists (fun it => item_name use_intrinsics ∈ item_refs it)
    (crate (build true false) ++ declared (build true false)) <->
  true = false \/ use_intrinsics = use_fmt.
Proof.
  apply (imports_used (build true false) use_intrinsics); [decide_it | reflexivity].
Defined.

(** ** Layout attributes and visibility *)

(** C32. Every function of the module is marked [#[cold]], and the
    functions marked [#[inline(never)]] are the definitions of the lang
    item [fail_] and no others: [fail_bounds_check] and [begin_unwind]
    may be inlined. *)
Theorem inline_never_only_fail (it : Item) :
  it ∈ failure_rs -> is_use it = false ->
  Cold ∈ item_attrs it /\ (InlineNever ∈ item_attrs it <-> lang_of it = Some "fail_").
Proof. intros Hin Hu. each_item Hin; try discriminate Hu; decide_it. Qed.

Lemma inline_never_only_fail_witness :
  Cold ∈ item_attrs fn_fail_bounds_check_current /\
  (InlineNever ∈ item_attrs fn_fail_bounds_check_current <->
   lang_of fn_fail_bounds_check_current = Some "fail_").
Proof. apply inline_never_only_fail; [decide_it | reflexivity]. Defined.

(** C35. In every build, the only public item is [begin_unwind]: the
    lang items are private and are reached through the compiler alone. *)
Theorem public_surface (v : Config) (it : Item) :
  it ∈ crate v -> (item_pub it = true <-> it = fn_begin_unwind).
Proof. intros Hin. revert Hin. by_build v; intros Hin; each_item Hin; decide_it. Qed.

Lemma public_surface_witness :
  item_pub fn_fail_current = true <-> fn_fail_current = fn_begin_unwind.
Proof. apply (public_surface (build false false)). decide_it. Defined.
