(* ===== verification/Link.v ===== *)
(** * Link: binding the hook when the program is linked

    [failure.rs] declares [begin_unwind] in an [extern] block and leaves
    its definition to a crate linked later. Which symbol a build needs is
    decided by the [cfg] attributes of the two [extern] blocks ([Items]);
    what the program does with the symbol once it is bound is the subject
    of [Failure] and [Boundary]. This file puts the two together.

    - [Upstream]: the symbols the other crates define, each with its
      hook; [definitions] and [resolve] look a symbol up, and a symbol
      resolves when it is defined exactly once.
    - [needed]: the symbols of the externs a build declares.
    - [link]: the world of a build linked against the other crates, or
      the reason why it does not link.
    - [entry_item]: the item of [failure.rs] behind each call shape, the
      lang item of its entry point in the form of its stage
      ([entry_item_lang]).

    The theorems show that in a linked program no call of a lang item
    compiled in the build ends in an unresolved symbol: every such call
    calls the symbol that the build declares or faults in a conversion
    before it ([linked_never_unresolved]); and that it dispatches its
    failure when the crates keep the contract of the hook
    ([linked_failure_dispatched]). That a build links exactly when its
    symbol is defined once is [link_resolve]. *)

From stdpp Require Import base decidable list strings.
From ITree Require Import ITree.
From S2P Require Import Prelude Uint StaticMem Fmt Effects CStr Spec Failure Boundary Items.

(** ** Symbols and their definitions *)

#[export] Instance bytes_eq_dec : EqDecision bytes.
Proof. unfold bytes. apply _. Defined.

#[export] Instance Symbol_eq_dec : EqDecision Symbol.
Proof. solve_decision. Defined.

Definition Upstream : Type := list (Symbol * Hook).

Inductive LinkError : Type :=
| Undefined (sym : Symbol)
| Duplicate (sym : Symbol).

Definition definitions (up : Upstream) (sym : Symbol) : list Hook :=
  snd <$> filter (fun d => fst d = sym) up.

Definition resolve (up : Upstream) (sym : Symbol) : LinkError + Hook :=
  match definitions up sym with
  | [] => inl (Undefined sym)
  | [h] => inr h
  | _ :: _ :: _ => inl (Duplicate sym)
  end.

Definition bindings (up : Upstream) (sym : Symbol) : option Hook :=
  match resolve up sym with
  | inr h => Some h
  | inl _ => None
  end.

(** ** Linking a build *)

Definition needed (v : Config) : list Symbol := omap symbol_of (declared v).

Fixpoint check (up : Upstream) (syms : list Symbol) : option LinkError :=
  match syms with
  | [] => None
  | sym :: syms' =>
      match resolve up sym with
      | inl e => Some e
      | inr _ => check up syms'
      end
  end.

Definition link (v : Config) (m : Mem) (up : Upstream) : LinkError + World :=
  match check up (needed v) with
  | Some e => inl e
  | None => inr (MkWorld m (bindings up))
  end.

(** The item behind each call shape. *)
Definition entry_item (e : Entry) : Item :=
  match e with
  | CurrentFail _ _ _ => fn_fail_current
  | CurrentBounds _ _ _ _ => fn_fail_bounds_check_current
  | Stage0Fail _ _ _ => fn_fail_stage0
  | Stage0Bounds _ _ _ _ => fn_fail_bounds_check_stage0
  end.

Definition is_bounds (e : Entry) : bool :=
  match e with
  | CurrentBounds _ _ _ _ | Stage0Bounds _ _ _ _ => true
  | CurrentFail _ _ _ | Stage0Fail _ _ _ => false
  end.

(** A run that did not end in an unresolved symbol. *)
Definition resolved (r : Outcome void * list Obs) : Prop :=
  forall sym, fst r <> Ended (Unresolved sym).

(** ** What a build needs *)

Lemma needed_build (v : Config) : needed v = [extern_begin_unwind (v "stage0")].
Proof. unfold needed. by_build v; reflexivity. Qed.

Lemma entry_item_build (v : Config) (e : Entry) :
  entry_item e ∈ crate v -> v "test" = false /\ is_stage0 e = v "stage0".
Proof.
  intros Hin. revert Hin. by_build v; destruct e; cbn [entry_item is_stage0]; intros Hin;
    first [by split | apply (bool_decide_pack _) in Hin; by vm_compute in Hin].
Qed.

(** The item behind a call shape is the lang item of its entry point,
    in the form of its stage: pointers at stage0, slices otherwise. *)
Lemma entry_item_lang (e : Entry) :
  lang_of (entry_item e) = Some (if is_bounds e then "fail_bounds_check" else "fail_") /\
  (RawU8 ∈ params (entry_item e) <-> is_stage0 e = true) /\
  (StaticStr ∈ params (entry_item e) <-> is_stage0 e = false).
Proof. destruct e; split; try reflexivity; decide_it. Qed.

Lemma link_resolve (v : Config) (m : Mem) (up : Upstream) :
  link v m up =
  match resolve up (extern_begin_unwind (v "stage0")) with
  | inl e => inl e
  | inr _ => inr (MkWorld m (bindings up))
  end.
Proof.
  unfold link. rewrite needed_build. cbn [check].
  by destruct (resolve up (extern_begin_unwind (v "stage0"))).
Qed.

(** ** A linked program resolves its calls *)

Lemma link_bound (v : Config) (m : Mem) (up : Upstream) (w : World) :
  link v m up = inr w ->
  w = MkWorld m (bindings up) /\
  exists h, linked w (extern_begin_unwind (v "stage0")) = Some h.
Proof.
  rewrite link_resolve.
  destruct (resolve up (extern_begin_unwind (v "stage0"))) as [e | h] eqn:E; [done |].
  intros [= <-]. split; [done |]. exists h. cbn [linked]. unfold bindings. by rewrite E.
Qed.

Lemma dispatched_resolved (w : World) (sym : Symbol) (fmt : Arguments) (file : str)
    (line : Z) (h : Hook) :
  linked w sym = Some h -> resolved (dispatched w sym fmt file line).
Proof.
  intros Hl sym'. unfold dispatched. rewrite Hl. by destruct (h fmt file line).
Qed.

(** C17. In a linked program, a call of a lang item that the build
    compiles never ends in an unresolved symbol, whatever its
    arguments: it ends, and it faults in a conversion before any call,
    or its first event is the call of the symbol that the build
    declares, with the arguments of its canonical form. *)
Theorem linked_never_unresolved {T : Target} (v : Config) (m : Mem) (up : Upstream)
    (w : World) (e : Entry) :
  link v m up = inr w -> entry_item e ∈ crate v -> wf_world w -> entry_ok e ->
  exists r, run (stage0_fuel w) w (enter e) = Some r /\ resolved r /\
    ((exists a, r = (Ended (Fault a), [])) \/
     (exists c tr, normalize m e = inr c /\
        snd r = ObsCall (extern_begin_unwind (v "stage0"))
                  (call_fmt c) (call_file c) (call_line c) :: tr)).
Proof.
  intros Hl Hin Hw He. apply link_bound in Hl as (-> & h & Hh).
  apply entry_item_build in Hin as [_ Hs]. exists (reference (MkWorld m (bindings up)) e).
  split; [by apply run_enter |]. unfold reference. cbn [mem].
  destruct (normalize m e) as [a | c]; [split; [done | left; by exists a] |].
  unfold dispatch. rewrite Hs. split; [by eapply dispatched_resolved |].
  right. exists c. unfold dispatched, stage_symbol, extern_begin_unwind in *. rewrite Hh.
  destruct (h (call_fmt c) (call_file c) (call_line c)); eauto.
Qed.

(** ** Crates that keep the contract *)

Lemma resolve_defined (up : Upstream) (sym : Symbol) (h : Hook) :
  resolve up sym = inr h -> (sym, h) ∈ up.
Proof.
  unfold resolve, definitions.
  destruct (filter (fun d => fst d = sym) up) as [|[s h'] [|d l]] eqn:E; [done | | done].
  intros [= <-]. assert ((s, h') ∈ filter (fun d => fst d = sym) up) as Hin
    by (rewrite E; left).
  apply list_elem_of_filter in Hin as [Hs Hin]. cbn in Hs. by subst s.
Qed.

(** A program linked against crates whose hooks never return is a
    lawful world: the crates discharge the contract that the theorems
    about lawful worlds assume. *)
Lemma link_lawful (m : Mem) (up : Upstream) :
  Forall (fun d => Diverges (snd d)) up -> Lawful (MkWorld m (bindings up)).
Proof.
  intros Hup sym h Hb. cbn [linked] in Hb. unfold bindings in Hb.
  destruct (resolve up sym) as [e | h'] eqn:E; [done |]. injection Hb as ->.
  apply resolve_defined in E. rewrite Forall_forall in Hup. exact (Hup _ E).
Qed.

(** What a call does alone in such a program: one event, the dispatch
    of its failure. *)
Lemma linked_reference (v : Config) (m : Mem) (up : Upstream) (w : World) (e : Entry)
    (f : Failure) :
  link v m up = inr w -> Forall (fun d => Diverges (snd d)) up ->
  entry_item e ∈ crate v -> failure_of m e = Some f ->
  exists o, reference w e = (Ended Halted, [o]) /\ abs_obs m o = Some (Machine.dispatch f).
Proof.
  intros Hl Hup Hin Hf. apply link_bound in Hl as (-> & h & Hh).
  pose proof (link_lawful m up Hup _ _ Hh) as Hd.
  apply entry_item_build in Hin as [_ Hs]. rewrite <- Hs in Hh.
  destruct (failure_of_normalize _ _ _ Hf) as (c & Hc & Hfc).
  unfold reference. cbn [mem]. rewrite Hc. unfold dispatch.
  rewrite (dispatched_diverges _ _ _ _ _ h Hh Hd). eexists. split; [done |].
  apply failure_of_current, Hfc.
Qed.

(** C15. From the source to the hook: in a program linked against
    crates whose hooks keep their contract, a call of a lang item that
    the build compiles, on arguments that stand for a failure, ends
    [Halted] after exactly one dispatch of the message and the location
    of that failure, and the abort is not reached. *)
Theorem linked_failure_dispatched {T : Target} (v : Config) (m : Mem) (up : Upstream)
    (w : World) (e : Entry) (f : Failure) :
  link v m up = inr w -> Forall (fun d => Diverges (snd d)) up ->
  entry_item e ∈ crate v -> wf_world w -> entry_ok e -> failure_of m e = Some f ->
  abs_run m (run (stage0_fuel w) w (enter e)) =
  Some (Machine.Halted, [Dispatched (message_of f) (location_of f)]).
Proof.
  intros Hl Hup Hin Hw He Hf.
  destruct (linked_reference v m up w e f Hl Hup Hin Hf) as (o & Hr & Ho).
  rewrite (run_enter _ Hw e He), Hr.
  cbn [abs_run abs_outcome abs_end abs_trace fst snd]. by rewrite Ho.
Qed.

(** ** A program linked against a crate that defines the lang item *)

Definition demo_upstream : Upstream :=
  [(LangItem (B "begin_unwind"), fun _ _ _ => NeverReturns)].

Lemma linked_never_unresolved_witness :
  exists r,
    run 72 (MkWorld demo_mem (bindings demo_upstream))
      (enter (T := target64) (CurrentBounds (Slice 5 7) 42 5 3)) = Some r /\
    resolved r /\
    ((exists a, r = (Ended (Fault a), [])) \/
     (exists c tr, normalize demo_mem (CurrentBounds (Slice 5 7) 42 5 3) = inr c /\
        snd r = ObsCall (LangItem (B "begin_unwind"))
                  (call_fmt c) (call_file c) (call_line c) :: tr)).
Proof.
  apply (linked_never_unresolved (T := target64) (build false false) demo_mem demo_upstream
           (MkWorld demo_mem (bindings demo_upstream)) (CurrentBounds (Slice 5 7) 42 5 3));
    [reflexivity | decide_it | reflexivity | exact I].
Defined.

Lemma demo_upstream_lawful : Forall (fun d => Diverges (snd d)) demo_upstream.
Proof. repeat constructor. Qed.

Lemma linked_failure_dispatched_witness :
  abs_run demo_mem
    (run 72 (MkWorld demo_mem (bindings demo_upstream))
       (enter (T := target64) (CurrentBounds (Slice 5 7) 42 5 3))) =
  Some (Machine.Halted,
        [Dispatched (B "index out of bounds: the len is 3 but the index is 5")
           (MkLocation (B "main.rs") 42)]).
Proof.
  apply (linked_failure_dispatched (T := target64) (build false false) demo_mem demo_upstream
           (MkWorld demo_mem (bindings demo_upstream)) (CurrentBounds (Slice 5 7) 42 5 3)
           (BoundsViolation (MkLocation (B "main.rs") 42) 5 3));
    [reflexivity | exact demo_upstream_lawful | decide_it | reflexivity | exact I
    | reflexivity].
Defined.
