(* ===== verification/Program.v ===== *)
(** * Program: a linked build whose threads fail

    The components of the development, composed. A build of
    [failure.rs] ([Items]) is linked against the crates that define the
    hook ([Link]); several threads of the linked program each call a
    lang item that the build compiles, on arguments that stand for a
    failure ([Boundary]); a scheduler interleaves their steps
    ([Threads]); the events of the process are read as signals of the
    machine ([Spec]).

    [linked_process_dispatches] is the promise of the specification for
    the whole program: when the crates keep the contract of the hook,
    every thread ends [Halted], the process has one event per thread and
    no abort, and the event of each thread is the dispatch of the
    message and the location of its own failure. *)

From stdpp Require Import base list strings.
From ITree Require Import ITree.
From S2P Require Import Prelude Uint StaticMem Fmt Effects CStr Spec Failure Boundary.
From S2P Require Import Threads Items Link.

(** A trace in which every thread has one event has as many events as
    threads. *)
Lemma length_concat_seq {A : Type} (V : nat -> list A) (n : nat) :
  (forall i, i < n -> length (V i) = 1) -> length (concat (V <$> seq 0 n)) = n.
Proof.
  induction n as [|n IH]; intros HV; [done |].
  rewrite seq_S, fmap_app, concat_app, length_app, IH by (intros i Hi; apply HV; lia).
  cbn [fmap list_fmap concat]. rewrite app_nil_r, HV by lia. lia.
Qed.

Lemma length_views (n : nat) (tr : list Event) :
  Forall (fun e => fst e < n) tr -> (forall i, i < n -> length (view i tr) = 1) ->
  length tr = n.
Proof.
  intros Htr Hv. rewrite (trace_views n tr Htr). apply length_concat_seq.
  intros i Hi. unfold label. by rewrite length_fmap, Hv.
Qed.

Section Program.
Context {T : Target} (v : Config) (m : Mem) (up : Upstream) (w : World).
Context (Hlink : link v m up = inr w) (Hup : Forall (fun d => Diverges (snd d)) up).
Context (Hw : wf_world w).

(** [raises e f]: the call [e] is a call of a lang item that the build
    compiles, on arguments that stand for the failure [f]. *)
Definition raises (e : Entry) (f : Failure) : Prop :=
  entry_item e ∈ crate v /\ entry_ok e /\ failure_of m e = Some f.

Lemma program_lawful : Lawful w.
Proof. destruct (link_bound _ _ _ _ Hlink) as [-> _]. by apply link_lawful. Qed.

Lemma raises_ok (entries : list Entry) (failures : list Failure) :
  Forall2 raises entries failures -> Forall entry_ok entries.
Proof.
  intros H. eapply Forall2_Forall_l; [exact H |]. apply Forall_true.
  by intros f e (_ & ? & _).
Qed.

(** A thread that got its turns has ended [Halted] after one event, the
    dispatch of its failure. *)
Lemma program_thread (entries : list Entry) (failures : list Failure) (sched : list nat)
    (i : nat) (e : Entry) (f : Failure) :
  Forall2 raises entries failures -> entries !! i = Some e -> failures !! i = Some f ->
  stage0_fuel w <= turns i sched ->
  fst (exec w sched (process entries)) !! i = Some (Done (Ended Halted)) /\
  exists o, view i (snd (exec w sched (process entries))) = [o] /\
            abs_obs m o = Some (Machine.dispatch f).
Proof.
  intros H He Hf Hle. destruct (Forall2_lookup_lr _ _ _ _ _ _ H He Hf) as (Hin & _ & Hfail).
  destruct (linked_reference v m up w e f Hlink Hup Hin Hfail) as (o & Hr & Ho).
  destruct (thread_complete w Hw (Lawful0 := program_lawful) entries sched i e
              (raises_ok _ _ H) He Hle) as [-> ->].
  rewrite Hr. eauto.
Qed.

(** C16. The whole program. A build linked against crates whose hooks
    keep their contract runs a thread per failure, each through a lang
    item that the build compiles, under a schedule that is fair to all:
    every thread ends [Halted], the process has exactly one event per
    thread, and the event of each thread is the dispatch of the message
    and the location of its own failure. *)
Theorem linked_process_dispatches (entries : list Entry) (failures : list Failure)
    (sched : list nat) :
  Forall2 raises entries failures -> fair w (length entries) sched ->
  fst (exec w sched (process entries)) = (fun _ => Done (Ended Halted)) <$> entries /\
  length (snd (exec w sched (process entries))) = length entries /\
  forall i f, failures !! i = Some f ->
    abs_trace m (view i (snd (exec w sched (process entries)))) = Some [Machine.dispatch f].
Proof.
  intros H Hfair.
  assert (length (process entries) = length entries) as Hn
    by (unfold process, spawn; by rewrite !length_fmap).
  assert (forall i e, entries !! i = Some e ->
            exists f, failures !! i = Some f /\ stage0_fuel w <= turns i sched) as Hi.
  { intros i e He. destruct (Forall2_lookup_l _ _ _ _ _ H He) as (f & Hf & _).
    exists f. split; [exact Hf |]. apply Hfair. by eapply lookup_lt_Some. }
  split; [| split].
  - apply list_eq. intros i. rewrite list_lookup_fmap. destruct (entries !! i) as [e|] eqn:He.
    + destruct (Hi i e He) as (f & Hf & Hle).
      by destruct (program_thread entries failures sched i e f H He Hf Hle) as [-> _].
    + apply lookup_ge_None_2. rewrite exec_length, Hn. by apply lookup_ge_None_1.
  - apply length_views; [rewrite <- Hn; apply exec_ids |]. intros i Hlt.
    destruct (lookup_lt_is_Some_2 _ _ Hlt) as [e He]. destruct (Hi i e He) as (f & Hf & Hle).
    by destruct (program_thread entries failures sched i e f H He Hf Hle)
      as (_ & o & -> & _).
  - intros i f Hf. destruct (Forall2_lookup_r _ _ _ _ _ H Hf) as (e & He & _).
    destruct (Hi i e He) as (f' & Hf' & Hle).
    destruct (program_thread entries failures sched i e f H He Hf Hle) as (_ & o & -> & Ho).
    cbn [abs_trace]. by rewrite Ho.
Qed.

End Program.

(** ** Two threads of a linked program

    The build of the current stage, linked against a crate that defines
    the lang item [begin_unwind] with a hook that does not return, over
    the segment [demo_mem] of [Failure]: one thread fails explicitly,
    one on a bounds check. *)

Definition demo_linked : World := MkWorld demo_mem (bindings demo_upstream).

Definition demo_calls : list Entry :=
  [CurrentFail (Slice 0 4) (Slice 5 7) 10; CurrentBounds (Slice 5 7) 42 5 3].

Definition demo_failures : list Failure :=
  [ExplicitFailure (B "oops") (MkLocation (B "main.rs") 10);
   BoundsViolation (MkLocation (B "main.rs") 42) 5 3].

Lemma demo_raises :
  Forall2 (raises (T := target64) (build false false) demo_mem) demo_calls demo_failures.
Proof.
  constructor; [| constructor; [| constructor]];
    (split; [decide_it | split; [exact I | reflexivity]]).
Qed.

Lemma linked_process_dispatches_witness :
  fst (exec demo_linked demo_alternating (process (T := target64) demo_calls)) =
    (fun _ => Done (Ended Halted)) <$> demo_calls /\
  length (snd (exec demo_linked demo_alternating (process (T := target64) demo_calls))) =
    length demo_calls /\
  forall i f, demo_failures !! i = Some f ->
    abs_trace demo_mem
      (view i (snd (exec demo_linked demo_alternating (process (T := target64) demo_calls)))) =
    Some [Machine.dispatch f].
Proof.
  exact (linked_process_dispatches (T := target64) (build false false) demo_mem demo_upstream
           demo_linked eq_refl demo_upstream_lawful eq_refl demo_calls demo_failures
           demo_alternating demo_raises
           (demo_fair demo_linked demo_alternating eq_refl eq_refl)).
Defined.
