(* ===== verification/Scenarios.v ===== *)
(** * Scenarios: the testable properties of the specification, run

    The specification closes with scenarios: a bounds failure at
    [vec.rs:42], an explicit failure at [lib.rs:10], a hook that returns,
    and the conversion of the C string [main.rs]. This file runs each of
    them through the whole development, on a 64-bit target: the build is
    linked against the crates that define the hook ([Link]), the lang
    item that the build compiles is run in the linked world ([Failure]),
    and the run is read as signals of the machine ([Spec]).

    The examples after them are the cases the specification leaves
    open: strings without terminator, empty messages, messages with
    braces, the largest numbers, threads, builds that do not link.

    Every example is proved by evaluation: the definitions of the
    development compute. *)

From stdpp Require Import base list strings.
From ITree Require Import ITree.
From S2P Require Import Prelude Uint StaticMem Fmt Effects CStr Spec Failure Boundary.
From S2P Require Import Threads Items Link.

(** ** The program under test *)

(** The static segment: [vec.rs] at 0, [lib.rs] at 6, [assertion failed]
    at 12, and the C strings [main.rs] at 28 and [oops] at 36; [tail] at
    41 has no terminator. *)
Definition segment : Mem :=
  B "vec.rs" ++ B "lib.rs" ++ B "assertion failed" ++
  B "main.rs" ++ NUL :: B "oops" ++ NUL :: B "tail".

(** Crates that define the hook: under the name of the current stage or
    of stage0, keeping the contract or, as a test double, returning. *)
Definition unwinding : Upstream := [(LangItem (B "begin_unwind"), fun _ _ _ => NeverReturns)].

Definition unwinding_stage0 : Upstream :=
  [(LinkName (B "rust_begin_unwind"), fun _ _ _ => NeverReturns)].

Definition test_double : Upstream := [(LangItem (B "begin_unwind"), fun _ _ _ => Returns)].

(** [signals v up e]: what the call [e] does in the build [v] linked
    against [up], as the phase the machine ends in and its signals;
    [None] if the build does not link or the run is no run of the
    machine. *)
Definition signals (v : Config) (up : Upstream) (e : Entry) :
    option (Machine.Phase * list Signal) :=
  match link v segment up with
  | inr w => abs_run segment (run (stage0_fuel w) w (enter (T := target64) e))
  | inl _ => None
  end.

(** [ending v up e]: the outcome and the events of the same run. *)
Definition ending (v : Config) (up : Upstream) (e : Entry) :
    option (Outcome void * list Obs) :=
  match link v segment up with
  | inr w => run (stage0_fuel w) w (enter (T := target64) e)
  | inl _ => None
  end.

(** ** The scenarios of the specification *)

(** A bounds failure at [vec.rs:42] with index 5 and length 3. *)
Example bounds_failure_scenario :
  signals (build false false) unwinding (CurrentBounds (Slice 0 6) 42 5 3) =
  Some (Machine.Halted,
        [Dispatched (B "index out of bounds: the len is 3 but the index is 5")
           (MkLocation (B "vec.rs") 42)]).
Proof. vm_compute. reflexivity. Qed.

(** An explicit failure at [lib.rs:10]: the message arrives verbatim. *)
Example explicit_failure_scenario :
  signals (build false false) unwinding (CurrentFail (Slice 12 16) (Slice 6 6) 10) =
  Some (Machine.Halted,
        [Dispatched (B "assertion failed") (MkLocation (B "lib.rs") 10)]).
Proof. vm_compute. reflexivity. Qed.

(** A hook that returns: the abort follows the dispatch, once. *)
Example returning_hook_scenario :
  signals (build false false) test_double (CurrentFail (Slice 12 16) (Slice 6 6) 10) =
  Some (Machine.Aborted,
        [Dispatched (B "assertion failed") (MkLocation (B "lib.rs") 10); AbortInvoked]).
Proof. vm_compute. reflexivity. Qed.

(** The legacy form: the C string at 28 is the location [main.rs], and
    the line is unchanged. *)
Example legacy_location_scenario :
  signals (build false true) unwinding_stage0 (Stage0Bounds 28 7 5 3) =
  Some (Machine.Halted,
        [Dispatched (B "index out of bounds: the len is 3 but the index is 5")
           (MkLocation (B "main.rs") 7)]).
Proof. vm_compute. reflexivity. Qed.

(** Stage0 converts the message too. *)
Example legacy_message_scenario :
  signals (build false true) unwinding_stage0 (Stage0Fail 36 28 7) =
  Some (Machine.Halted, [Dispatched (B "oops") (MkLocation (B "main.rs") 7)]).
Proof. vm_compute. reflexivity. Qed.

(** ** What the specification leaves open *)

(** An unterminated file name: the scan leaves the segment, which has 45
    bytes, and the hook is not called. *)
Example unterminated_scenario :
  ending (build false true) unwinding_stage0 (Stage0Fail 36 41 7) =
  Some (Ended (Fault 45), []).
Proof. vm_compute. reflexivity. Qed.

(** A bounds failure whose index is inside the bounds is dispatched like
    any other: the lang item checks nothing. *)
Example bounds_unchecked_scenario :
  signals (build false false) unwinding (CurrentBounds (Slice 0 6) 42 1 3) =
  Some (Machine.Halted,
        [Dispatched (B "index out of bounds: the len is 3 but the index is 1")
           (MkLocation (B "vec.rs") 42)]).
Proof. vm_compute. reflexivity. Qed.

(** An empty message: the pointer stands on the terminator of
    [main.rs], and the hook receives a message of no bytes. *)
Example empty_message_scenario :
  signals (build false true) unwinding_stage0 (Stage0Fail 35 28 7) =
  Some (Machine.Halted, [Dispatched [] (MkLocation (B "main.rs") 7)]).
Proof. vm_compute. reflexivity. Qed.

(** A message with braces is not a template: the hook receives it as
    it is, although the lang item passes it through the format string
    with one hole. *)
Example braces_scenario :
  abs_run (B "{} and {}lib.rs")
    (run 2 (world_unwinding (B "{} and {}lib.rs"))
       (enter (T := target64) (CurrentFail (Slice 0 9) (Slice 9 6) 10))) =
  Some (Machine.Halted, [Dispatched (B "{} and {}") (MkLocation (B "lib.rs") 10)]).
Proof. vm_compute. reflexivity. Qed.

(** The largest numbers of a 64-bit target are rendered in full. *)
Example largest_bounds_scenario :
  signals (build false false) unwinding
    (CurrentBounds (Slice 0 6) 18446744073709551615 18446744073709551615 0) =
  Some (Machine.Halted,
        [Dispatched
           (B "index out of bounds: the len is 0 but the index is 18446744073709551615")
           (MkLocation (B "vec.rs") 18446744073709551615)]).
Proof. vm_compute. reflexivity. Qed.

(** ** Two threads *)

(** Two threads of the linked program fail at once, one step each in
    turn: both calls reach the hook, in the order of the schedule. *)
Example two_threads_scenario :
  match link (build false false) segment unwinding with
  | inr w =>
      snd (exec w [0; 1; 0; 1]
             (process (T := target64)
                [CurrentBounds (Slice 0 6) 42 5 3; CurrentFail (Slice 12 16) (Slice 6 6) 10]))
  | inl _ => []
  end =
  [(0, call_obs false (Bounds (Slice 0 6) 42 5 3));
   (1, call_obs false (Fail (Slice 12 16) (Slice 6 6) 10))].
Proof. vm_compute. reflexivity. Qed.

(** With a hook that returns, the thread that reaches the abort first
    ends the process: the other thread never calls the hook. *)
Example abort_kills_scenario :
  match link (build false false) segment test_double with
  | inr w =>
      snd (exec w [0; 0; 1; 1]
             (process (T := target64)
                [CurrentBounds (Slice 0 6) 42 5 3; CurrentFail (Slice 12 16) (Slice 6 6) 10]))
  | inl _ => []
  end =
  [(0, call_obs false (Bounds (Slice 0 6) 42 5 3)); (0, ObsAbort)].
Proof. vm_compute. reflexivity. Qed.

(** ** Linking *)

(** A stage0 build needs the link name: a crate that defines the lang
    item only does not link with it. *)
Example wrong_name_scenario :
  link (build false true) segment unwinding =
  inl (Undefined (LinkName (B "rust_begin_unwind"))).
Proof. vm_compute. reflexivity. Qed.

(** A test build compiles no lang item, but it compiles [begin_unwind]
    and still needs the hook. *)
Example test_build_scenario :
  lang_items (build true false) "fail_" = [] /\
  lang_items (build true false) "fail_bounds_check" = [] /\
  link (build true false) segment [] = inl (Undefined (LangItem (B "begin_unwind"))).
Proof. vm_compute. repeat split; reflexivity. Qed.

(** Nor does a build link against two definitions of its hook. *)
Example two_hooks_scenario :
  link (build false false) segment (unwinding ++ test_double) =
  inl (Duplicate (LangItem (B "begin_unwind"))).
Proof. vm_compute. reflexivity. Qed.
